(** * Trace replay of collective communications: a shallow embedding

    The development follows [train/comms/pt/commsTraceReplay.py] (the
    replay engine [commsTraceReplayBench] and the normalizer
    [extractCommsInfo]) and [train/comms/pt/pytorch_dist_backend.py]
    (the [PyTorchDistBackend] wait queue, request registry and process
    group table).

    Python values are dynamically typed; the trace is decoded JSON.  The
    values that occur in a trace are modelled by [py]; exceptions are
    results of the [result] monad. *)

From Stdlib Require Import ZArith QArith List Ascii String Bool Lia Lqa.
From stdpp Require Import base option list strings gmap.
Import ListNotations.

Local Open Scope string_scope.
Local Open Scope list_scope.
Local Open Scope Z_scope.

(** ** Python values and exceptions *)

(** The JSON values of the trace format: null, integers, strings, lists of
    integers (splits, rank lists) and lists of strings (markers). *)
Inductive py : Type :=
  | PyNone
  | PyInt (z : Z)
  | PyStr (s : string)
  | PyList (l : list Z)
  | PyStrs (l : list string).

#[global] Instance py_eq_dec : EqDecision py.
Proof. solve_decision. Defined.

Inductive exn : Type :=
  | KeyError (k : py)
  | TypeError
  | AttributeError
  | ZeroDivisionError
  | UnboundLocalError.

Inductive result (A : Type) : Type :=
  | Ok (a : A)
  | Raise (e : exn).
Arguments Ok {A} a.
Arguments Raise {A} e.

Definition bind {A B : Type} (r : result A) (k : A -> result B) : result B :=
  match r with
  | Ok a => k a
  | Raise e => Raise e
  end.

Declare Scope py_scope.
Delimit Scope py_scope with py.
Notation "'do' x <- r ; k" := (bind r (fun x => k))
  (at level 10, x pattern, r at level 100, k at level 200) : py_scope.
Local Open Scope py_scope.

Definition is_none (v : py) : bool :=
  match v with PyNone => true | _ => false end.

(** [v // w], [len(v)], [sum(v)] and [v[:n]] on trace values. *)
Definition as_int (v : py) : result Z :=
  match v with PyInt z => Ok z | _ => Raise TypeError end.

Definition floordiv (a b : Z) : result Z :=
  if b =? 0 then Raise ZeroDivisionError else Ok (a / b).

Definition py_len (v : py) : result Z :=
  match v with
  | PyList l => Ok (Z.of_nat (length l))
  | PyStrs l => Ok (Z.of_nat (length l))
  | PyStr s => Ok (Z.of_nat (String.length s))
  | _ => Raise TypeError
  end.

Definition sum (l : list Z) : Z := fold_left Z.add l 0.

(** Python's [l[:n]]: a negative bound counts from the end. *)
Definition slice_to {A : Type} (l : list A) (n : Z) : list A :=
  if 0 <=? n then firstn (Z.to_nat n) l
  else firstn (Z.to_nat (Z.of_nat (length l) + n)) l.

(** ** Strings *)

Definition lower_ascii (c : ascii) : ascii :=
  let n := nat_of_ascii c in
  if ((65 <=? n) && (n <=? 90))%nat then ascii_of_nat (n + 32) else c.

(** [str.lower()] on the ASCII range, which is where kind names live. *)
Fixpoint lower (s : string) : string :=
  match s with
  | EmptyString => EmptyString
  | String c s' => String (lower_ascii c) (lower s')
  end.

Fixpoint startswith (s p : string) : bool :=
  match p, s with
  | EmptyString, _ => true
  | String a p', String b s' => Ascii.eqb a b && startswith s' p'
  | String _ _, EmptyString => false
  end.

(** [sub in s] for two strings: substring search. *)
Fixpoint str_contains (s sub : string) : bool :=
  startswith s sub ||
  match s with
  | EmptyString => false
  | String _ s' => str_contains s' sub
  end.

(** [x in (a, b, ...)] for a tuple of strings. *)
Definition in_tuple (x : string) (t : list string) : bool :=
  existsb (String.eqb x) t.

(** ** Dictionaries with insertion order *)

Module PyDict.
Section Dict.
Context {K V : Type} `{EqDecision K}.

Fixpoint get (d : list (K * V)) (k : K) : option V :=
  match d with
  | [] => None
  | (k', v) :: d' => if decide (k' = k) then Some v else get d' k
  end.

Definition mem (d : list (K * V)) (k : K) : bool :=
  match get d k with Some _ => true | None => false end.

(** [d[k] = v]: an existing key keeps its position. *)
Fixpoint set (d : list (K * V)) (k : K) (v : V) : list (K * V) :=
  match d with
  | [] => [(k, v)]
  | (k', v') :: d' =>
      if decide (k' = k) then (k, v) :: d' else (k', v') :: set d' k v
  end.

Definition keys (d : list (K * V)) : list K := map fst d.
End Dict.
End PyDict.

(** ** The canonical operation record

    [commsArgs] is declared in [comms_utils]; the attributes below are the
    ones the replay engine reads and writes.  An attribute that was never
    assigned is [None]. *)
Record commsArgs : Type := mkCommsArgs {
  comms : string;
  seqnum : nat;
  req : py;
  startTimeNs : py;
  markerStack : py;
  worldSize : py;
  root : py;
  pgId : py;
  groupRanks : py;
  inMsgSize : py;
  outMsgSize : py;
  dtype : py;
  inSplit : py;
  outSplit : py
}.

(** ** Trace normalization: [extractCommsInfo] *)

Module Normalizer.
Section Extract.
(** [comms_utils.paramToCommName] maps spellings of a kind to its
    canonical name; the normalizer is parametric in it. *)
Variable paramToCommName : string -> string.

(** A decoded JSON object is a [gmap string py].  [curComm[k]]: *)
Definition getitem (curComm : gmap string py) (k : string) : result py :=
  match curComm !! k with
  | Some v => Ok v
  | None => Raise (KeyError (PyStr k))
  end.

(** [curComm[k] if k in curComm else None] *)
Definition get_opt (curComm : gmap string py) (k : string) : py :=
  match curComm !! k with
  | Some v => v
  | None => PyNone
  end.

(** The body of the loop of [extractCommsInfo] for one record. *)
Definition extractOne (cnt : nat) (curComm : gmap string py)
  : result commsArgs :=
  do c <- getitem curComm "comms";
  do name <- match c with
             | PyStr s => Ok (paramToCommName (lower s))
             | _ => Raise AttributeError
             end;
  do sizes <-
    (if negb (in_tuple name ["wait"; "barrier"; "init"]) then
       do i <- getitem curComm "in_msg_size";
       do o <- getitem curComm "out_msg_size";
       do d <- getitem curComm "dtype";
       Ok (i, o, d)
     else Ok (PyNone, PyNone, PyNone));
  let '(i, o, d) := sizes in
  (* [newComm.comms in ("all_to_allv")]: the right operand is a string,
     so this is a substring test *)
  do splits <-
    (if str_contains "all_to_allv" name then
       do a <- getitem curComm "in_split";
       do b <- getitem curComm "out_split";
       Ok (a, b)
     else Ok (PyNone, PyNone));
  let '(a, b) := splits in
  Ok {| comms := name;
        seqnum := cnt;
        req := get_opt curComm "req";
        startTimeNs := get_opt curComm "startTime_ns";
        markerStack := get_opt curComm "markers";
        worldSize := get_opt curComm "world_size";
        root := get_opt curComm "root";
        pgId := get_opt curComm "pg_id";
        groupRanks := get_opt curComm "global_ranks";
        inMsgSize := i;
        outMsgSize := o;
        dtype := d;
        inSplit := a;
        outSplit := b |}.

(** [for cnt, curComm in enumerate(in_trace)], starting the count at
    [cnt]. *)
Fixpoint extractFrom (cnt : nat) (in_trace : list (gmap string py))
  : result (list commsArgs) :=
  match in_trace with
  | [] => Ok []
  | curComm :: rest =>
      do newComm <- extractOne cnt curComm;
      do tl <- extractFrom (S cnt) rest;
      Ok (newComm :: tl)
  end.

Definition extractCommsInfo (in_trace : list (gmap string py))
  : result (list commsArgs) :=
  extractFrom 0 in_trace.

(** The required fields of a record, as the trace format states them:
    a kind; sizes and a dtype for a non-control operation; the two
    splits for [all_to_allv]. *)
Definition has_key (curComm : gmap string py) (k : string) : bool :=
  bool_decide (is_Some (curComm !! k)).

Definition valid_record (curComm : gmap string py) : bool :=
  match curComm !! "comms" with
  | Some (PyStr s) =>
      let name := paramToCommName (lower s) in
      (in_tuple name ["wait"; "barrier"; "init"]
       || (has_key curComm "in_msg_size"
           && has_key curComm "out_msg_size"
           && has_key curComm "dtype"))
      && (negb (String.eqb name "all_to_allv")
          || (has_key curComm "in_split" && has_key curComm "out_split"))
  | _ => false
  end.

(** What the code asks of a record: the splits are read for every kind
    whose name occurs inside ["all_to_allv"]. *)
Definition readable_record (curComm : gmap string py) : bool :=
  match curComm !! "comms" with
  | Some (PyStr s) =>
      let name := paramToCommName (lower s) in
      (in_tuple name ["wait"; "barrier"; "init"]
       || (has_key curComm "in_msg_size"
           && has_key curComm "out_msg_size"
           && has_key curComm "dtype"))
      && (negb (str_contains "all_to_allv" name)
          || (has_key curComm "in_split" && has_key curComm "out_split"))
  | _ => false
  end.
End Extract.
End Normalizer.

(** ** The replay engine and the backend *)

(** A handle is the [Work] object a non-blocking post returns; the backend
    hands out a fresh one per post. *)
Definition handle := nat.

(** A process group: the world, or a group made by [get_new_pg]. *)
Inductive pg : Type :=
  | DefaultGroup
  | NewGroup (ranks : list Z).

(** The entries of [collectiveFunc].  Every collective of
    [PyTorchDistBackend] (and [barrier]) has the same shape: post the
    operation, append the returned object to [waitObj] when [asyncOp],
    return it when [retFlag].  [send], [recv], [isend] and [irecv] take the
    peer rank as a second positional parameter. *)
Inductive backend_fn : Type :=
  | Collective
  | Wait
  | P2P
  | Noop.

(** Who called [wait()] on a handle. *)
Inductive await_src : Type :=
  | ByCompleteAccelOps
  | ByCompleteSingleOp
  | ByWaitId.

(** The log of what the engine asks of the backend: the dispatch of a
    record and the object it returns, a warm-up dispatch, the barrier of
    [sync_barrier], the reduction of [rebalanceSplit], each [wait()] on a
    handle, each device synchronisation, and logged messages. *)
Inductive event : Type :=
  | EvDispatch (seq : nat) (name : string)
  | EvReturn (retObj : option handle)
  | EvWarmUp (seq : nat) (name : string)
  | EvBarrier
  | EvAllReduce (v : Z)
  | EvAwait (src : await_src) (h : handle)
  | EvDeviceSync
  | EvLog (msg : string).

(** The run-time parameters that stay fixed during a replay. *)
Record config : Type := mkConfig {
  is_blocking : bool;
  shrink : bool;
  allowList : list string;
  rebalance_policy : string;
  max_msg_cnt : Z;
  get_world_size : Z;
  get_global_rank : Z;
  commsParams_groupRanks : list (py * py);
  groups : list (py * pg);
  collectiveFunc : list (string * backend_fn)
}.

(** One entry of [traceWithPerf]. *)
Record perfRecord : Type := mkPerf {
  perf_comm : commsArgs;
  latency_us : Q;
  global_latency_us : Q
}.

(** The mutable state: the fields of [collectiveArgs] and of the bench
    object that the replay touches, the backend's supply of handles and
    the log of backend calls. *)
Record engine : Type := mkEngine {
  group : pg;
  world_size : py;
  waitObj : list (option handle);
  waitObjIds : list (py * option handle);
  collectiveId : py;
  self_world_size : Z;
  collLat : gmap string (list Q);
  collInMsgSizes : gmap string (list py);
  collOutMsgSizes : gmap string (list py);
  totalCommsLatency : Q;
  traceWithPerf : list perfRecord;
  next_handle : nat;
  events : list event
}.

Definition set_group (g : pg) (st : engine) : engine :=
  mkEngine g (world_size st) (waitObj st) (waitObjIds st) (collectiveId st)
    (self_world_size st) (collLat st) (collInMsgSizes st)
    (collOutMsgSizes st) (totalCommsLatency st) (traceWithPerf st)
    (next_handle st) (events st).

Definition set_world_size (w : py) (st : engine) : engine :=
  mkEngine (group st) w (waitObj st) (waitObjIds st) (collectiveId st)
    (self_world_size st) (collLat st) (collInMsgSizes st)
    (collOutMsgSizes st) (totalCommsLatency st) (traceWithPerf st)
    (next_handle st) (events st).

Definition set_waitObj (q : list (option handle)) (st : engine) : engine :=
  mkEngine (group st) (world_size st) q (waitObjIds st) (collectiveId st)
    (self_world_size st) (collLat st) (collInMsgSizes st)
    (collOutMsgSizes st) (totalCommsLatency st) (traceWithPerf st)
    (next_handle st) (events st).

Definition set_waitObjIds (d : list (py * option handle)) (st : engine)
  : engine :=
  mkEngine (group st) (world_size st) (waitObj st) d (collectiveId st)
    (self_world_size st) (collLat st) (collInMsgSizes st)
    (collOutMsgSizes st) (totalCommsLatency st) (traceWithPerf st)
    (next_handle st) (events st).

Definition set_collectiveId (i : py) (st : engine) : engine :=
  mkEngine (group st) (world_size st) (waitObj st) (waitObjIds st) i
    (self_world_size st) (collLat st) (collInMsgSizes st)
    (collOutMsgSizes st) (totalCommsLatency st) (traceWithPerf st)
    (next_handle st) (events st).

Definition set_self_world_size (w : Z) (st : engine) : engine :=
  mkEngine (group st) (world_size st) (waitObj st) (waitObjIds st)
    (collectiveId st) w (collLat st) (collInMsgSizes st)
    (collOutMsgSizes st) (totalCommsLatency st) (traceWithPerf st)
    (next_handle st) (events st).

Definition set_stats (lat : gmap string (list Q))
    (ins outs : gmap string (list py)) (st : engine) : engine :=
  mkEngine (group st) (world_size st) (waitObj st) (waitObjIds st)
    (collectiveId st) (self_world_size st) lat ins outs
    (totalCommsLatency st) (traceWithPerf st) (next_handle st) (events st).

Definition record_perf (name : string) (r : perfRecord) (lats : list Q)
    (st : engine) : engine :=
  mkEngine (group st) (world_size st) (waitObj st) (waitObjIds st)
    (collectiveId st) (self_world_size st)
    (<[name := lats ++ [latency_us r]]> (collLat st))
    (collInMsgSizes st) (collOutMsgSizes st)
    (totalCommsLatency st + latency_us r)%Q (traceWithPerf st ++ [r])
    (next_handle st) (events st).

Definition fresh_handle (st : engine) : engine :=
  mkEngine (group st) (world_size st) (waitObj st) (waitObjIds st)
    (collectiveId st) (self_world_size st) (collLat st) (collInMsgSizes st)
    (collOutMsgSizes st) (totalCommsLatency st) (traceWithPerf st)
    (S (next_handle st)) (events st).

Definition emit (e : list event) (st : engine) : engine :=
  mkEngine (group st) (world_size st) (waitObj st) (waitObjIds st)
    (collectiveId st) (self_world_size st) (collLat st) (collInMsgSizes st)
    (collOutMsgSizes st) (totalCommsLatency st) (traceWithPerf st)
    (next_handle st) (events st ++ e).

(** *** [PyTorchDistBackend]: wait queue and request registry *)

Module Backend.

Definition awaits (src : await_src) (q : list (option handle))
  : list event :=
  omap (fun w => EvAwait src <$> w) q.

(** [complete_accel_ops(collectiveArgs, devSync)] (with [initOp] left at
    its default). *)
Definition complete_accel_ops (devSync : bool) (st : engine) : engine :=
  let st1 := emit (awaits ByCompleteAccelOps (waitObj st)) st in
  let st2 := set_waitObjIds [] (set_waitObj [] st1) in
  if devSync then emit [EvDeviceSync] st2 else st2.

(** [complete_single_op]: only wait on the first op in the queue. *)
Definition complete_single_op (st : engine) : engine :=
  match waitObj st with
  | [] => st
  | waitReq :: rest =>
      let st1 := set_waitObj rest st in
      let st2 := emit (awaits ByCompleteSingleOp [waitReq]) st1 in
      emit [EvDeviceSync] st2
  end.

(** [wait(collectiveArgs)] *)
Definition wait (st : engine) : engine :=
  if (length (waitObjIds st) =? 0)%nat then complete_single_op st
  else
    match PyDict.get (waitObjIds st) (collectiveId st) with
    | Some waitObj => emit (awaits ByWaitId [waitObj]) st
    | None => st
    end.

(** Posting one collective: with [asyncOp] the library returns a work
    object, which is appended to [waitObj]; otherwise it returns
    [None]. *)
Definition post (asyncOp : bool) (st : engine) : engine * option handle :=
  if asyncOp then
    let h := next_handle st in
    (set_waitObj (waitObj st ++ [Some h]) (fresh_handle st), Some h)
  else (st, None).

(** [sync_barrier]: [barrier] followed by [complete_accel_ops]. *)
Definition sync_barrier (asyncOp : bool) (st : engine) : engine :=
  let st1 := fst (post asyncOp (emit [EvBarrier] st)) in
  complete_accel_ops true st1.

(** [collectiveFunc[name](collectiveArgs, retFlag=...)] as the replay
    engine calls it: one positional argument. *)
Definition call (fn : backend_fn) (asyncOp : bool) (st : engine)
  : result (engine * option handle) :=
  match fn with
  | Collective => Ok (post asyncOp st)
  | Wait => Ok (wait st, None)
  | P2P => Raise TypeError
  | Noop => Ok (st, None)
  end.

(** [get_group_rank]: the rank of this process in the group, [-1] when
    it is not a member. *)
Fixpoint index_of (x : Z) (l : list Z) (i : Z) : Z :=
  match l with
  | [] => -1
  | y :: l' => if x =? y then i else index_of x l' (i + 1)
  end.

Definition get_group_rank (global_rank : Z) (g : pg) : Z :=
  match g with
  | DefaultGroup => global_rank
  | NewGroup ranks => index_of global_rank ranks 0
  end.

(** The loop of [initialize_backend] that creates the additional
    groups, over [commsParams.groupRanks.items()]. *)
Fixpoint create_groups (world : Z) (items : list (py * py))
    (acc : list (py * pg)) : result (list (py * pg)) :=
  match items with
  | [] => Ok acc
  | (pg_id, group_ranks) :: rest =>
      do n <- py_len group_ranks;
      if world <? n then Ok []
      else
        do g <- (if n =? world then Ok DefaultGroup
                 else match group_ranks with
                      | PyList l => Ok (NewGroup l)
                      | _ => Raise TypeError
                      end);
        create_groups world rest (PyDict.set acc pg_id g)
  end.

(** [self.groups] at the end of [initialize_backend]. *)
Definition initialize_backend (world : Z) (groupRanks : list (py * py))
  : result (list (py * pg)) :=
  do gs <- create_groups world groupRanks [];
  Ok (if (length gs =? 0)%nat then [(PyInt 0, DefaultGroup)] else gs).

(** The entries [__init__] adds to the table of the base class. *)
Definition register_extra_ops (base : list (string * backend_fn))
  : list (string * backend_fn) :=
  let t1 := PyDict.set base "wait" Wait in
  let t2 := PyDict.set t1 "send" P2P in
  let t3 := PyDict.set t2 "recv" P2P in
  let t4 := PyDict.set t3 "isend" P2P in
  let t5 := PyDict.set t4 "irecv" P2P in
  PyDict.set t5 "pt2pt" Noop.

End Backend.

(** *** [commsTraceReplayBench] *)

Module Bench.

Definition py_slice (v : py) (n : Z) : result py :=
  match v with
  | PyList l => Ok (PyList (slice_to l n))
  | PyStrs l => Ok (PyStrs (slice_to l n))
  | PyStr s =>
      Ok (PyStr (string_of_list_ascii (slice_to (list_ascii_of_string s) n)))
  | _ => Raise TypeError
  end.

Definition py_sum (v : py) : result Z :=
  match v with
  | PyList l => Ok (sum l)
  | _ => Raise TypeError
  end.

(** [round(n / d)] for a positive [d]: Python rounds the quotient to the
    nearest integer, a tie to the even one.  The reduced value comes out
    of an int32 tensor, so the double [n / d] is close enough to the
    exact quotient for [round] to give the rounding of the exact
    quotient. *)
Definition round_div (n d : Z) : Z :=
  let q := n / d in
  let r2 := 2 * (n mod d) in
  if r2 <? d then q
  else if d <? r2 then q + 1
  else if Z.even q then q else q + 1.

(** [d[k]] on an insertion-ordered dictionary. *)
Definition lookup {V : Type} (d : list (py * V)) (k : py) : result V :=
  match PyDict.get d k with
  | Some v => Ok v
  | None => Raise (KeyError k)
  end.

Definition with_sizes (i o : py) (c : commsArgs) : commsArgs :=
  mkCommsArgs (comms c) (seqnum c) (req c) (startTimeNs c) (markerStack c)
    (worldSize c) (root c) (pgId c) (groupRanks c) i o (dtype c)
    (inSplit c) (outSplit c).

Definition with_splits (a b : py) (c : commsArgs) : commsArgs :=
  mkCommsArgs (comms c) (seqnum c) (req c) (startTimeNs c) (markerStack c)
    (worldSize c) (root c) (pgId c) (groupRanks c) (inMsgSize c)
    (outMsgSize c) (dtype c) a b.

(** [(elems // real_world_size) * cur_world_size] on integers. *)
Definition rescale (elems real_world_size cur_world_size : py) : result Z :=
  do n <- as_int elems;
  do w <- as_int real_world_size;
  do q <- floordiv n w;
  do cur <- as_int cur_world_size;
  Ok (q * cur).

(** Forgetting the sizes and the splits of a record. *)
Definition identity_of (c : commsArgs) : commsArgs :=
  with_sizes PyNone PyNone (with_splits PyNone PyNone c).

(** The trace records the replay works on: [comms_trace[:max_msg_cnt]],
    where [initTraceStat] has replaced a zero [max_msg_cnt] by the
    length of the trace. *)
Definition effective_max (cfg : config) (trace : list commsArgs) : Z :=
  if max_msg_cnt cfg =? 0 then Z.of_nat (length trace) else max_msg_cnt cfg.

Definition window (cfg : config) (trace : list commsArgs)
  : list commsArgs :=
  slice_to trace (effective_max cfg trace).

(** [setBench]: the group table read off the [init] records. *)
Definition collect_groupRanks (ops : list commsArgs) : list (py * py) :=
  fold_left
    (fun d curComm =>
       if String.eqb (comms curComm) "init"
       then PyDict.set d (pgId curComm) (groupRanks curComm)
       else d)
    ops [].

(** [setBench]: the set of collectives to be replayed. *)
Fixpoint split_on (sep : ascii) (s : string) : list string :=
  match s with
  | EmptyString => [EmptyString]
  | String c s' =>
      if Ascii.eqb c sep then EmptyString :: split_on sep s'
      else match split_on sep s' with
           | [] => [String c EmptyString]
           | w :: ws => String c w :: ws
           end
  end.

Section Engine.
(** [comms_utils.paramToCommName]. *)
Variable paramToCommName : string -> string.
(** What the backend's [all_reduce] leaves in a one-element tensor that
    held [v] on this rank. *)
Variable all_reduce : Z -> Z.
(** The intervals, in nanoseconds, that the two [paramProfile] blocks of
    [runComms] measure for the [cnt]-th record. *)
Variable coll_ns : nat -> Q.
Variable barrier_ns : nat -> Q.

Variable cfg : config.

Definition asyncOp : bool := negb (is_blocking cfg).

Definition set_allowList (arg : string) : list string :=
  if in_tuple arg ["all"; "default"; "*"]
  then PyDict.keys (collectiveFunc cfg)
  else map paramToCommName (split_on "," arg).

(** [rebalanceSplit(curComm)]: the record is modified in place. *)
Definition rebalanceSplit (curComm : commsArgs) (st : engine)
  : result (engine * commsArgs) :=
  if String.eqb (rebalance_policy cfg) "equal" then
    do v <- as_int (inMsgSize curComm);
    do fn <- match PyDict.get (collectiveFunc cfg) "all_reduce" with
             | Some fn => Ok fn
             | None => Raise (KeyError (PyStr "all_reduce"))
             end;
    do (st1, _) <- Backend.call fn asyncOp (emit [EvAllReduce v] st);
    let st2 := Backend.complete_accel_ops true st1 in
    let agreed := match fn with Collective => all_reduce v | _ => v end in
    do W <- as_int (world_size st);
    if W * W =? 0 then Raise ZeroDivisionError
    else
      let newInSize := (W * W) * round_div agreed (W * W) in
      let size := newInSize / W in
      let split := PyList (repeat (size / W) (Z.to_nat W)) in
      Ok (st2, with_splits split split
                 (with_sizes (PyInt size) (PyInt size) curComm))
  else
    Ok (emit [EvLog "Unsupported balancing policy. Ignoring."] st, curComm).

(** [getCommGroupInfo]: the group rank of this process for the record. *)
Definition getCommGroupInfo (curComm : commsArgs) : result Z :=
  if negb (is_none (pgId curComm)) && negb (shrink cfg) then
    do g <- lookup (groups cfg) (pgId curComm);
    do _ <- lookup (commsParams_groupRanks cfg) (pgId curComm);
    Ok (Backend.get_group_rank (get_global_rank cfg) g)
  else Ok (Backend.get_group_rank (get_global_rank cfg) DefaultGroup).

(** [prepComms]: the choice of the group and the rescaling of the
    record; the tensors themselves are allocated by [prepComm] of the
    base class from the sizes left in the record. *)
Definition prepComms (curComm : commsArgs) (st : engine)
  : result (engine * commsArgs) :=
  let commOp := paramToCommName (comms curComm) in
  if in_tuple commOp ["wait"; "barrier"] then Ok (st, curComm)
  else
    do st1 <-
      (if negb (is_none (pgId curComm)) && negb (shrink cfg) then
         do g <- lookup (groups cfg) (pgId curComm);
         Ok (set_world_size (worldSize curComm) (set_group g st))
       else
         Ok (set_self_world_size (get_world_size cfg)
               (set_group DefaultGroup st)));
    if shrink cfg then
      do real_world_size <-
        (if negb (is_none (worldSize curComm)) then Ok (worldSize curComm)
         else if String.eqb commOp "all_to_allv" then
           do in_split_len <- py_len (inSplit curComm);
           do out_split_len <- py_len (outSplit curComm);
           Ok (if 0 <? in_split_len then PyInt in_split_len
               else if 0 <? out_split_len then PyInt out_split_len
               else world_size st1)
         else Ok (world_size st1));
      do newNumElemsIn <-
        rescale (inMsgSize curComm) real_world_size (world_size st1);
      do newNumElemsOut <-
        rescale (outMsgSize curComm) real_world_size (world_size st1);
      do cur_world_size <- as_int (world_size st1);
      if String.eqb commOp "all_to_allv" then
        do outS <- (if negb (is_none (outSplit curComm))
                    then py_slice (outSplit curComm) cur_world_size
                    else Ok (PyList []));
        do inS <- (if negb (is_none (inSplit curComm))
                   then py_slice (inSplit curComm) cur_world_size
                   else Ok (PyList []));
        do lenIn <- py_len inS;
        do newIn <- (if 0 <? lenIn then py_sum inS else Ok newNumElemsIn);
        do lenOut <- py_len outS;
        do newOut <- (if 0 <? lenOut then py_sum outS else Ok newNumElemsOut);
        Ok (st1, with_sizes (PyInt newIn) (PyInt newOut)
                   (with_splits inS outS curComm))
      else if String.eqb commOp "all_gather" then
        Ok (st1, with_sizes (PyInt newNumElemsIn)
                   (PyInt (newNumElemsIn * cur_world_size)) curComm)
      else
        Ok (st1, with_sizes (PyInt newNumElemsIn) (PyInt newNumElemsOut)
                   curComm)
    else Ok (st1, curComm).

(** [initTraceStat]: the first pass over the trace.  The per-kind lists
    are kept; the unique-size sets and the block table are left out. *)
Definition statOne (curComm : commsArgs) (st : engine) : result engine :=
  let collName := paramToCommName (comms curComm) in
  let st1 :=
    match collLat st !! collName with
    | Some _ => st
    | None =>
        if negb (is_none (inMsgSize curComm)) then
          set_stats (<[collName := []]> (collLat st))
            (<[collName := []]> (collInMsgSizes st))
            (<[collName := []]> (collOutMsgSizes st)) st
        else
          set_stats (<[collName := []]> (collLat st))
            (collInMsgSizes st) (collOutMsgSizes st) st
    end in
  if negb (is_none (inMsgSize curComm)) then
    match collInMsgSizes st1 !! collName, collOutMsgSizes st1 !! collName with
    | Some ins, Some outs =>
        (* [max(curComm.inMsgSize, maxInMsgsize)] compares with an int *)
        do _ <- as_int (inMsgSize curComm);
        do _ <- as_int (outMsgSize curComm);
        Ok (set_stats (collLat st1)
              (<[collName := ins ++ [inMsgSize curComm]]> (collInMsgSizes st1))
              (<[collName := outs ++ [outMsgSize curComm]]>
                 (collOutMsgSizes st1)) st1)
    | _, _ => Raise (KeyError (PyStr collName))
    end
  else Ok st1.

Fixpoint statLoop (ops : list commsArgs) (st : engine) : result engine :=
  match ops with
  | [] => Ok st
  | curComm :: rest => do st1 <- statOne curComm st; statLoop rest st1
  end.

Definition initTraceStat (trace : list commsArgs) (st : engine)
  : result engine :=
  statLoop (window cfg trace) st.

(** [runComms]: one replayed operation.  [None] for the returned object
    stands for the local [retObj] that was never assigned. *)
Definition runComms (cnt : nat) (collName : string) (curComm : commsArgs)
    (st : engine) : result (engine * (Q * Q)) :=
  let st0 := if is_blocking cfg then Backend.sync_barrier asyncOp st
             else st in
  do r <-
    match PyDict.get (collectiveFunc cfg) collName with
    | Some fn =>
        let st1 := if negb (is_none (req curComm))
                   then set_collectiveId (req curComm) st0 else st0 in
        do (st2, retObj) <-
          Backend.call fn asyncOp
            (emit [EvDispatch (seqnum curComm) collName] st1);
        Ok (emit [EvReturn retObj] st2, Some retObj)
    | None =>
        Ok (emit [EvLog "Unsupported collective name. Skipping"] st0, None)
    end;
  let (st2, bound) := r : engine * option (option handle) in
  let st3 := Backend.complete_accel_ops (is_blocking cfg) st2 in
  do st4 <-
    (if negb (is_none (req curComm)) && negb (is_blocking cfg)
        && negb (String.eqb collName "wait")
     then match bound with
          | Some retObj =>
              Ok (set_waitObjIds
                    (PyDict.set (waitObjIds st3) (req curComm) retObj) st3)
          | None => Raise UnboundLocalError
          end
     else Ok st3);
  let latency := (coll_ns cnt / 1000)%Q in
  if is_blocking cfg then
    Ok (Backend.sync_barrier asyncOp st4,
        (latency, (latency + barrier_ns cnt / 1000)%Q))
  else Ok (st4, (latency, latency)).

(** The test that opens the loop bodies of [warmUpBench] and
    [replayTrace]: [collName not in self.allowList or groupRank == -1]. *)
Definition skipped (collName : string) (groupRank : Z) : bool :=
  negb (in_tuple collName (allowList cfg)) || (groupRank =? -1).

(** The body of the loop of [replayTrace] for the [cnt]-th record; the
    record comes back as [prepComms] left it.  Pacing on timestamps,
    the data check and the batch latency do not touch the state kept
    here. *)
Definition replayOne (cnt : nat) (curComm : commsArgs) (st : engine)
  : result (engine * commsArgs) :=
  let collName := paramToCommName (comms curComm) in
  do groupRank <- getCommGroupInfo curComm;
  if skipped collName groupRank then Ok (st, curComm)
  else
    do (st1, curComm1) <- prepComms curComm st;
    do (st2, lat) <- runComms cnt collName curComm1 st1;
    match collLat st2 !! collName with
    | Some lats =>
        Ok (record_perf collName (mkPerf curComm1 (fst lat) (snd lat)) lats
              st2,
            curComm1)
    | None => Raise (KeyError (PyStr collName))
    end.

Fixpoint replayLoop (cnt : nat) (ops : list commsArgs) (st : engine)
  : result (engine * list commsArgs) :=
  match ops with
  | [] => Ok (st, [])
  | curComm :: rest =>
      do (st1, curComm1) <- replayOne cnt curComm st;
      do (st2, rest1) <- replayLoop (S cnt) rest st1;
      Ok (st2, curComm1 :: rest1)
  end.

(** [replayTrace]: the final state and the records of the window after
    the pass. *)
Definition replayTrace (trace : list commsArgs) (st : engine)
  : result (engine * list commsArgs) :=
  replayLoop 0 (window cfg trace) st.

(** The body of the loop of [warmUpBench]; the record that comes back
    is the one of the trace, which only [rebalanceSplit] changes. *)
Definition warmUpOne (cnt : nat) (curComm : commsArgs) (st : engine)
  : result (engine * commsArgs) :=
  let commEntry := curComm in
  let commName := paramToCommName (comms commEntry) in
  do groupRank <- getCommGroupInfo commEntry;
  if skipped commName groupRank then Ok (st, curComm)
  else
    do (st1, commEntry1) <- prepComms commEntry st;
    do r <-
      (if PyDict.mem (collectiveFunc cfg) commName
          && String.eqb commName "all_to_allv"
          && (0 <? String.length (rebalance_policy cfg))%nat
       then
         let w := if is_none (pgId commEntry1) || shrink cfg
                  then PyInt (get_world_size cfg)
                  else worldSize commEntry1 in
         do (st2, curComm2) <- rebalanceSplit curComm (set_world_size w st1);
         do (st3, _) <- prepComms commEntry1 st2;
         Ok (st3, curComm2)
       else Ok (st1, curComm));
    let (st3, curComm2) := r : engine * commsArgs in
    do st4 <-
      match PyDict.get (collectiveFunc cfg) commName with
      | Some fn =>
          do (st4, _) <-
            Backend.call fn asyncOp (emit [EvWarmUp cnt commName] st3);
          Ok st4
      | None => Ok st3
      end;
    Ok (Backend.complete_accel_ops true st4, curComm2).

Fixpoint warmUpLoop (cnt : nat) (ops : list commsArgs) (st : engine)
  : result (engine * list commsArgs) :=
  match ops with
  | [] => Ok (st, [])
  | curComm :: rest =>
      do (st1, curComm1) <- warmUpOne cnt curComm st;
      do (st2, rest1) <- warmUpLoop (S cnt) rest st1;
      Ok (st2, curComm1 :: rest1)
  end.

Definition warmUpBench (trace : list commsArgs) (st : engine)
  : result (engine * list commsArgs) :=
  warmUpLoop 0 (window cfg trace) st.
End Engine.
End Bench.

(** ** Concrete traces and the properties as the specification words them *)

Module Scenario.
Import Normalizer.

(** A well-formed [all_to_all] record: it carries the sizes and the dtype,
  and no splits, which the format asks of [all_to_allv] only. *)
Definition all_to_all_record : gmap string py :=
{[ "comms" := PyStr "all_to_all";
   "seqnum" := PyInt 0;
   "in_msg_size" := PyInt 8;
   "out_msg_size" := PyInt 8;
   "dtype" := PyStr "Int" ]}.

(** A trace of that record between a [wait] and an [all_to_allv] with its
    splits. *)
Definition readable_trace : list (gmap string py) :=
  [ {[ "comms" := PyStr "wait"; "req" := PyInt 3 ]};
    {[ "comms" := PyStr "ALL_TO_ALLV";
       "in_msg_size" := PyInt 4; "out_msg_size" := PyInt 4;
       "dtype" := PyStr "Int";
       "in_split" := PyList [2; 2]; "out_split" := PyList [2; 2] ]} ].

(** The collectives that [PyTorchDistBackend] defines, as the table of
    the base class registers them, completed by [__init__]. *)
Definition collectives : list (string * backend_fn) :=
  Backend.register_extra_ops
    [("all_to_all", Collective); ("all_to_allv", Collective);
     ("all_reduce", Collective); ("broadcast", Collective);
     ("gather", Collective); ("all_gather", Collective);
     ("all_gather_base", Collective); ("reduce", Collective);
     ("reduce_scatter", Collective); ("reduce_scatter_base", Collective);
     ("scatter", Collective); ("barrier", Collective); ("noop", Noop)].

(** The state [setBench] leaves for a world of [W] ranks. *)
Definition fresh_engine (W : Z) : engine :=
  mkEngine DefaultGroup (PyInt W) [] [] PyNone W ∅ ∅ ∅ 0%Q [] 0%nat [].

(** A run on a world of [W] ranks, as rank 0, over the default group. *)
Definition run_config (blocking shrinking : bool) (allow : list string)
    (policy : string) (W : Z) : config :=
  mkConfig blocking shrinking allow policy 0 W 0 []
    [(PyInt 0, DefaultGroup)] collectives.

(** A record of a collective with sizes, and a control record. *)
Definition coll_op (seq : nat) (kind : string) (r : py) (world : py)
    (i o : Z) : commsArgs :=
  mkCommsArgs kind seq r PyNone PyNone world PyNone PyNone PyNone
    (PyInt i) (PyInt o) (PyStr "Int") PyNone PyNone.

Definition a2av_op (seq : nat) (world : py) (i o : Z) (a b : list Z)
  : commsArgs :=
  mkCommsArgs "all_to_allv" seq PyNone PyNone PyNone world PyNone PyNone
    PyNone (PyInt i) (PyInt o) (PyStr "Int") (PyList a) (PyList b).

Definition ctrl_op (seq : nat) (kind : string) (r : py) : commsArgs :=
  mkCommsArgs kind seq r PyNone PyNone PyNone PyNone PyNone PyNone
    PyNone PyNone PyNone PyNone PyNone.

(** *** Auto-shrink, in the words of the specification *)

(** The recorded world size [W_rec]: the recorded one, else for
    [all_to_allv] the length of [in_split] or of [out_split]. *)
Definition recorded_world (commOp : string) (W_live : Z) (c : commsArgs)
  : Z :=
  match worldSize c with
  | PyInt w => w
  | _ =>
      if String.eqb commOp "all_to_allv" then
        match inSplit c, outSplit c with
        | PyList a, PyList b =>
            if (0 <? length a)%nat then Z.of_nat (length a)
            else if (0 <? length b)%nat then Z.of_nat (length b)
            else W_live
        | _, _ => W_live
        end
      else W_live
  end.

(** A split truncated to [W_live] entries. *)
Definition truncated (W_live : Z) (split : py) : list Z :=
  match split with
  | PyList l => firstn (Z.to_nat W_live) l
  | _ => []
  end.

(** The record after rescaling: counts [floor(elems / W_rec) * W_live];
    for [all_to_allv] truncated splits, re-summed when non-empty; for
    [all_gather] an output of [W_live] times the new input. *)
Definition shrunk (commOp : string) (W_live n m : Z) (c : commsArgs)
  : commsArgs :=
  let W_rec := recorded_world commOp W_live c in
  let newIn := n / W_rec * W_live in
  let newOut := m / W_rec * W_live in
  if String.eqb commOp "all_to_allv" then
    let a := truncated W_live (inSplit c) in
    let b := truncated W_live (outSplit c) in
    Bench.with_sizes
      (PyInt (if (0 <? length a)%nat then sum a else newIn))
      (PyInt (if (0 <? length b)%nat then sum b else newOut))
      (Bench.with_splits (PyList a) (PyList b) c)
  else if String.eqb commOp "all_gather" then
    Bench.with_sizes (PyInt newIn) (PyInt (newIn * W_live)) c
  else Bench.with_sizes (PyInt newIn) (PyInt newOut) c.

(** A split is a list of integers, or absent. *)
Definition split_typed (split : py) : bool :=
  match split with PyList _ | PyNone => true | _ => false end.

(** The auto-shrink invariant as the specification states it, on the
    record that [prepComms] leaves: the input count is a multiple of the
    live world size, and for [all_to_allv] the in-split sums to it. *)
Definition shrink_invariant_as_stated (commOp : string) (W_live : Z)
    (c : commsArgs) : Prop :=
  exists n, inMsgSize c = PyInt n
    /\ (W_live | n)
    /\ (commOp = "all_to_allv" -> exists l, inSplit c = PyList l /\ sum l = n).

(** Scenario S4: an [all_gather] of 1024 elements recorded on 8 ranks. *)
Definition s4_all_gather : commsArgs :=
  coll_op 0 "all_gather" PyNone (PyInt 8) 1024 1024.

(** An [all_to_allv] recorded on 4 ranks with uneven splits. *)
Definition uneven_a2av : commsArgs :=
  a2av_op 0 (PyInt 4) 10 10 [1; 2; 3; 4] [4; 3; 2; 1].

(** *** The policy [equal], in the words of the specification *)

(** The record the policy leaves for the agreed value [agreed] on [W]
    ranks, rounding down to a multiple of [W * W]. *)
Definition equal_rounding_down (W agreed : Z) (c : commsArgs) : commsArgs :=
  let newInSize := (W * W) * (agreed / (W * W)) in
  let size := newInSize / W in
  let split := PyList (repeat (size / W) (Z.to_nat W)) in
  Bench.with_splits split split
    (Bench.with_sizes (PyInt size) (PyInt size) c).

(** The record the code leaves: the agreed value goes to the nearest
    multiple of [W * W]. *)
Definition equal_rounding_nearest (W agreed : Z) (c : commsArgs)
  : commsArgs :=
  let newInSize := (W * W) * Bench.round_div agreed (W * W) in
  let size := newInSize / W in
  let split := PyList (repeat (size / W) (Z.to_nat W)) in
  Bench.with_splits split split
    (Bench.with_sizes (PyInt size) (PyInt size) c).

(** The world size [warmUpBench] sets before it rebalances a record. *)
Definition rebalance_world (cfg : config) (c : commsArgs) : py :=
  if is_none (pgId c) || shrink cfg then PyInt (get_world_size cfg)
  else worldSize c.

(** An [all_to_allv] of 3 elements on this rank, on a world of 2 ranks
    whose other rank holds 4: the reduction agrees on 7. *)
Definition a2av_of_3 : commsArgs := a2av_op 0 (PyInt 2) 3 3 [] [].

Definition other_rank_has_4 (v : Z) : Z := v + 4.

(** *** Process groups *)

(** A recorded group of [groupRanks] has more members than the world. *)
Definition oversized (world : Z) (groupRanks : list (py * py)) : Prop :=
  exists pg_id ranks n,
    In (pg_id, ranks) groupRanks /\ py_len ranks = Ok n /\ world < n.

(** The group handling as the specification states it: a recorded group
    that is no larger than the live world is in the table. *)
Definition small_groups_kept (world : Z) (groupRanks : list (py * py))
    (gs : list (py * pg)) : Prop :=
  forall pg_id ranks n,
    PyDict.get groupRanks pg_id = Some ranks ->
    py_len ranks = Ok n -> n <= world ->
    PyDict.mem gs pg_id = true.

(** Two recorded groups: ranks 0 and 1, and the eight ranks of the
    capture. *)
Definition two_groups : list (py * py) :=
  [(PyInt 1, PyList [0; 1]); (PyInt 2, PyList [0; 1; 2; 3; 4; 5; 6; 7])].

(** *** Replays *)

(** The records dispatched to the backend, read off the log. *)
Definition dispatch_of (e : event) : option nat :=
  match e with EvDispatch seq _ => Some seq | _ => None end.

Definition dispatched (evs : list event) : list nat := omap dispatch_of evs.

(** The number of entries a per-kind statistic holds for a kind. *)
Definition entries {A : Type} (m : gmap string (list A)) (kind : string)
  : nat :=
  match m !! kind with Some l => length l | None => 0%nat end.

(** Two states with the same dispatches and the same statistics. *)
Definition quiet (st st' : engine) : Prop :=
  dispatched (events st') = dispatched (events st)
  /\ collLat st' = collLat st
  /\ collInMsgSizes st' = collInMsgSizes st
  /\ collOutMsgSizes st' = collOutMsgSizes st
  /\ traceWithPerf st' = traceWithPerf st.

(** A kind without latency list has no size list either, as in the
    state the bench object starts from. *)
Definition stats_wf (st : engine) : Prop :=
  forall kind, collLat st !! kind = None -> collInMsgSizes st !! kind = None.

Section Gate.
Variable paramToCommName : string -> string.
Variable cfg : config.

(** The gate of the specification: the kind is in the allow-list and the
    process group of the record contains the local rank. *)
Definition passes_gate (c : commsArgs) : bool :=
  match Bench.getCommGroupInfo cfg c with
  | Ok r => negb (Bench.skipped cfg (paramToCommName (comms c)) r)
  | Raise _ => false
  end.

(** The backend has a function for the kind. *)
Definition supported (c : commsArgs) : bool :=
  PyDict.mem (collectiveFunc cfg) (paramToCommName (comms c)).

Definition of_kind (kind : string) (c : commsArgs) : bool :=
  String.eqb (paramToCommName (comms c)) kind.

Definition has_sizes (c : commsArgs) : bool := negb (is_none (inMsgSize c)).

(** Skip-preserving replay as the specification states it, on the state
    [st] reached from a fresh one: the dispatched records are those that
    pass the gate, and only they have a per-kind entry, of latency or of
    size. *)
Definition skip_preserving_as_stated (trace : list commsArgs) (st : engine)
  : Prop :=
  dispatched (events st) = map seqnum (List.filter passes_gate trace)
  /\ forall kind,
       entries (collLat st) kind
       = length (List.filter (fun c => passes_gate c && of_kind kind c) trace)
       /\ entries (collInMsgSizes st) kind
          = length (List.filter (fun c => passes_gate c && of_kind kind c
                                     && has_sizes c) trace).
End Gate.

(** Every profiled interval lasts 1000 ns. *)
Definition one_us (cnt : nat) : Q := 1000%Q.

(** The first pass followed by one measured pass, from the state that
    [setBench] leaves. *)
Definition stat_and_replay (cfg : config) (trace : list commsArgs)
  : result (engine * list commsArgs) :=
  do st <- Bench.initTraceStat (fun s => s) cfg trace
             (fresh_engine (get_world_size cfg));
  Bench.replayTrace (fun s => s) one_us one_us cfg trace st.

(** A non-blocking replay on 2 ranks of every supported kind. *)
Definition nonblocking_all : config :=
  run_config false false (PyDict.keys collectives) "" 2.

(** Two [all_reduce] posts with request ids 7 and 8, then a [wait] for
    request 7. *)
Definition wait_after_two : list commsArgs :=
  [coll_op 0 "all_reduce" (PyInt 7) (PyInt 2) 128 128;
   coll_op 1 "all_reduce" (PyInt 8) (PyInt 2) 128 128;
   ctrl_op 2 "wait" (PyInt 7)].


(** A blocking replay of the first three records that allows
    [all_reduce] and a kind the backend does not have, over a trace with
    one record of each, a [broadcast], which is not allowed, and a second
    [all_reduce]. *)
Definition allow_exotic : config :=
  mkConfig true false ["all_reduce"; "exotic_op"] "" 3 2 0 []
    [(PyInt 0, DefaultGroup)] collectives.

Definition four_records : list commsArgs :=
  [coll_op 0 "all_reduce" PyNone (PyInt 2) 128 128;
   coll_op 1 "exotic_op" PyNone (PyInt 2) 64 64;
   coll_op 2 "broadcast" PyNone (PyInt 2) 32 32;
   coll_op 3 "all_reduce" PyNone (PyInt 2) 16 16].

(** A blocking replay with auto-shrink on 4 ranks of a trace recorded on
    8, and its outcome. *)
Definition shrink_replay : config :=
  run_config true true ["all_gather"; "all_to_allv"] "" 4.

Definition recorded_on_8 : list commsArgs :=
  [s4_all_gather; a2av_op 1 (PyInt 8) 16 16 [] []].

(** A warm-up under a policy name that is not known. *)
Definition fair_policy : config :=
  run_config true false ["all_reduce"; "all_to_allv"] "fair" 2.

Definition two_a2av : list commsArgs :=
  [a2av_of_3; coll_op 1 "all_reduce" PyNone (PyInt 2) 8 8;
   a2av_op 2 (PyInt 2) 5 5 [2; 3] [3; 2]].

(** The result of a computation that is known to return. *)
Definition ok_or {A : Type} (d : A) (r : result A) : A :=
  match r with Ok a => a | Raise _ => d end.

(** The states of that replay after the first pass and after the
    measured pass. *)
Definition exotic_stat : engine :=
  ok_or (fresh_engine 2)
    (Bench.initTraceStat (fun s => s) allow_exotic four_records
       (fresh_engine 2)).

Definition exotic_replay : engine * list commsArgs :=
  ok_or (fresh_engine 2, [])
    (Bench.replayTrace (fun s => s) one_us one_us allow_exotic four_records
       exotic_stat).

(** The first record of those traces, replayed from the fresh state. *)
Definition post_7 : commsArgs :=
  coll_op 0 "all_reduce" (PyInt 7) (PyInt 2) 128 128.

Definition posted_7 : engine * (Q * Q) :=
  ok_or (fresh_engine 2, (0%Q, 0%Q))
    (Bench.runComms one_us one_us nonblocking_all 0 "all_reduce" post_7
       (fresh_engine 2)).

(** A state with two handles and a [None] in the wait queue and one
    registered request. *)
Definition busy_engine : engine :=
  set_waitObjIds [(PyInt 5, Some 5%nat)]
    (set_waitObj [Some 5%nat; None; Some 6%nat] (fresh_engine 2)).

(** The measured pass of the auto-shrink replay, and the warm-up under
    the unknown policy. *)
Definition shrink_replayed : engine * list commsArgs :=
  ok_or (fresh_engine 4, [])
    (Bench.replayLoop (fun s => s) one_us one_us shrink_replay 0
       recorded_on_8
       (ok_or (fresh_engine 4)
          (Bench.initTraceStat (fun s => s) shrink_replay recorded_on_8
             (fresh_engine 4)))).

Definition fair_warmed_up : engine * list commsArgs :=
  ok_or (fresh_engine 2, [])
    (Bench.warmUpLoop (fun s => s) other_rank_has_4 fair_policy 0 two_a2av
       (fresh_engine 2)).

(** *** Latency accounting *)

(** The two latencies of a replayed record, in microseconds: in blocking
    mode the global one adds the [b] nanoseconds of the closing barrier;
    otherwise they are the same. *)
Definition latency_accounted (blocking : bool) (b : Q) (r : perfRecord)
  : Prop :=
  if blocking
  then (latency_us r <= global_latency_us r)%Q
       /\ global_latency_us r = (latency_us r + b / 1000)%Q
  else global_latency_us r = latency_us r.

End Scenario.

(** ** Further parts of the two files *)

(** *** Reading the log *)

Module Observe.

Definition same_src (a b : await_src) : bool :=
  match a, b with
  | ByCompleteAccelOps, ByCompleteAccelOps => true
  | ByCompleteSingleOp, ByCompleteSingleOp => true
  | ByWaitId, ByWaitId => true
  | _, _ => false
  end.

Definition await_of (src : await_src) (e : event) : option handle :=
  match e with
  | EvAwait s h => if same_src s src then Some h else None
  | _ => None
  end.

(** The handles that the caller [src] has waited on, in order. *)
Definition awaited_by (src : await_src) (evs : list event) : list handle :=
  omap (await_of src) evs.

(** The handles of a wait queue, its [None] entries left out. *)
Definition handles (q : list (option handle)) : list handle := omap id q.




(** An [init] record of the group id [p]. *)
Definition announces (p : py) (c : commsArgs) : bool :=
  String.eqb (comms c) "init" && bool_decide (pgId c = p).
End Observe.

(** *** [PyTorchDistBackend]: the round-robin over the group table *)

Module RoundRobin.

(** [itertools.cycle(l)]: the saved items and the position of the next
    one. *)
Record cycle_state : Type := mkCycle {
  saved : list pg;
  pos : nat
}.

Definition cycle (l : list pg) : cycle_state := mkCycle l 0.

(** [next(it)]; [None] stands for [StopIteration], which the cycle of an
    empty list raises. *)
Definition next (it : cycle_state) : option (pg * cycle_state) :=
  match saved it !! pos it with
  | Some g =>
      Some (g, mkCycle (saved it)
                 (if (S (pos it) =? length (saved it))%nat then 0%nat
                  else S (pos it)))
  | None => None
  end.

(** [self.num_pgs] and [self.round_robin_group] as [initialize_backend]
    sets them from the table. *)
Definition get_num_pgs (groups : list (py * pg)) : nat := length groups.

Definition round_robin_group (groups : list (py * pg)) : cycle_state :=
  cycle (map snd groups).

(** [get_next_group()] called [n] times in a row. *)
Fixpoint get_next_groups (n : nat) (it : cycle_state)
  : option (list pg * cycle_state) :=
  match n with
  | O => Some ([], it)
  | S n' =>
      match next it with
      | Some (g, it1) =>
          match get_next_groups n' it1 with
          | Some (gs, it2) => Some (g :: gs, it2)
          | None => None
          end
      | None => None
      end
  end.

End RoundRobin.

(** *** [commsTraceReplayBench]: the whole run *)

Module Runs.
Section Engine.
Variable paramToCommName : string -> string.
Variable all_reduce : Z -> Z.
(** The intervals that the two [paramProfile] blocks of [runComms]
    measure for the [cnt]-th record in the [i]-th replay. *)
Variable coll_ns : nat -> nat -> Q.
Variable barrier_ns : nat -> nat -> Q.
Variable cfg : config.

(** [resetComms]: back to the default group. *)
Definition resetComms (st : engine) : engine :=
  set_self_world_size (get_world_size cfg) (set_group DefaultGroup st).

(** The trace after a pass over its window: the records of the window
    as the pass left them, then the records beyond the window. *)
Definition after_pass (trace ops' : list commsArgs) : list commsArgs :=
  ops' ++ drop (length ops') trace.

(** [for i in range(self.num_replays)], from replay [i] on, with [n]
    replays to go: a measured pass, [resetComms] and [sync_barrier]. *)
Fixpoint replays (n i : nat) (trace : list commsArgs) (st : engine)
  : result (engine * list commsArgs) :=
  match n with
  | O => Ok (st, trace)
  | S n' =>
      do (st1, ops1) <-
        Bench.replayTrace paramToCommName (coll_ns i) (barrier_ns i) cfg
          trace st;
      let st2 := Backend.sync_barrier (Bench.asyncOp cfg) (resetComms st1) in
      replays n' (S i) (after_pass trace ops1) st2
  end.

(** [benchTime]: the warm-up when asked for, then [num_replays] measured
    passes; the final state and the trace as the run left it. *)
Definition benchTime (do_warm_up : bool) (num_replays : Z)
    (trace : list commsArgs) (st : engine)
  : result (engine * list commsArgs) :=
  do (st1, trace1) <-
    (if do_warm_up then
       do (s, ops1) <-
         Bench.warmUpBench paramToCommName all_reduce cfg trace st;
       Ok (s, after_pass trace ops1)
     else Ok (st, trace));
  let st2 := Backend.sync_barrier (Bench.asyncOp cfg) (resetComms st1) in
  replays (Z.to_nat num_replays) 0 trace1 st2.
End Engine.
End Runs.

(** ** Further inputs *)

Module Cases.
Import Normalizer Scenario.

(** A [wait] record that carries sizes and a dtype, and an [all_reduce]
    record that carries splits. *)
Definition overfull_trace : list (gmap string py) :=
  [ {[ "comms" := PyStr "Wait"; "in_msg_size" := PyInt 9;
       "out_msg_size" := PyInt 9; "dtype" := PyStr "Int" ]};
    {[ "comms" := PyStr "all_reduce"; "in_msg_size" := PyInt 4;
       "out_msg_size" := PyInt 4; "dtype" := PyStr "Int";
       "in_split" := PyList [2; 2]; "out_split" := PyList [2; 2] ]} ].

Definition overfull_wait : gmap string py :=
  {[ "comms" := PyStr "Wait"; "in_msg_size" := PyInt 9;
     "out_msg_size" := PyInt 9; "dtype" := PyStr "Int" ]}.

Definition normalized_wait : commsArgs :=
  mkCommsArgs "wait" 0 PyNone PyNone PyNone PyNone PyNone PyNone PyNone
    PyNone PyNone PyNone PyNone PyNone.

(** The readable trace followed by an [all_reduce] without output
    size. *)
Definition unreadable_trace : list (gmap string py) :=
  readable_trace
  ++ [ {[ "comms" := PyStr "all_reduce"; "in_msg_size" := PyInt 4 ]} ].

(** The keys that [extractCommsInfo] subscripts. *)
Definition subscripted : list string :=
  ["comms"; "in_msg_size"; "out_msg_size"; "dtype"; "in_split"; "out_split"].

(** A wait queue of two handles around a [None], with an empty
    registry. *)
Definition queued_engine : engine :=
  set_waitObj [Some 5%nat; None; Some 6%nat] (fresh_engine 2).

(** The table of the base class, before [__init__] completes it. *)
Definition base_collectives : list (string * backend_fn) :=
  [("all_to_all", Collective); ("all_to_allv", Collective);
   ("all_reduce", Collective); ("broadcast", Collective);
   ("gather", Collective); ("all_gather", Collective);
   ("all_gather_base", Collective); ("reduce", Collective);
   ("reduce_scatter", Collective); ("reduce_scatter_base", Collective);
   ("scatter", Collective); ("barrier", Collective); ("noop", Noop)].

(** A trace without request ids: two posts, each followed by a
    [wait]; its first pass and its non-blocking measured pass. *)
Definition legacy_waits : list commsArgs :=
  [coll_op 0 "all_reduce" PyNone (PyInt 2) 128 128; ctrl_op 1 "wait" PyNone;
   coll_op 2 "all_reduce" PyNone (PyInt 2) 64 64; ctrl_op 3 "wait" PyNone].

Definition legacy_stat : engine :=
  ok_or (fresh_engine 2)
    (Bench.initTraceStat (fun s => s) nonblocking_all legacy_waits
       (fresh_engine 2)).

Definition legacy_replayed : engine * list commsArgs :=
  ok_or (fresh_engine 2, [])
    (Bench.replayLoop (fun s => s) one_us one_us nonblocking_all 0
       legacy_waits legacy_stat).

(** An [all_reduce] of 1024 elements recorded on 8 ranks. *)
Definition recorded_reduce : commsArgs :=
  coll_op 0 "all_reduce" PyNone (PyInt 8) 1024 1024.

(** A warm-up under the policy [equal] on 2 ranks. *)
Definition equal_policy : config :=
  run_config true false ["all_reduce"; "all_to_allv"] "equal" 2.

Definition equal_warmed_up : engine * list commsArgs :=
  ok_or (fresh_engine 2, [])
    (Bench.warmUpLoop (fun s => s) other_rank_has_4 equal_policy 0 two_a2av
       (fresh_engine 2)).

(** Two recorded groups on a world of 4 ranks: ranks 0 and 1, and the
    whole world; the table that [initialize_backend] makes of them, and a
    replay as rank 2 of an [all_reduce] of the first group. *)
Definition two_small_groups : list (py * py) :=
  [(PyInt 1, PyList [0; 1]); (PyInt 2, PyList [0; 1; 2; 3])].

Definition small_table : list (py * pg) :=
  ok_or [] (Backend.initialize_backend 4 two_small_groups).

Definition grouped_run : config :=
  mkConfig true false ["all_reduce"] "" 0 4 2 two_small_groups small_table
    collectives.

Definition pair_reduce : commsArgs :=
  mkCommsArgs "all_reduce" 0 PyNone PyNone PyNone (PyInt 2) PyNone (PyInt 1)
    PyNone (PyInt 128) (PyInt 128) (PyStr "Int") PyNone PyNone.

(** An [all_reduce] whose sizes are null, and one of a group that was
    never recorded. *)
Definition sizeless_reduce : commsArgs := ctrl_op 0 "all_reduce" PyNone.


(** The auto-shrink run on 4 ranks of the trace recorded on 8: the first
    pass, then the warm-up and two measured passes. *)
Definition shrink_stat : engine :=
  ok_or (fresh_engine 4)
    (Bench.initTraceStat (fun s => s) shrink_replay recorded_on_8
       (fresh_engine 4)).

Definition shrink_benched : engine * list commsArgs :=
  ok_or (fresh_engine 4, [])
    (Runs.benchTime (fun s => s) other_rank_has_4 (fun _ => one_us)
       (fun _ => one_us) shrink_replay true 2 recorded_on_8 shrink_stat).

(** An [init] record, and a trace that announces group 1 twice and the
    world as group 2; the table [setBench] gets for it on 4 ranks. *)
Definition init_op (seq : nat) (id : Z) (ranks : list Z) : commsArgs :=
  mkCommsArgs "init" seq PyNone PyNone PyNone PyNone PyNone (PyInt id)
    (PyList ranks) PyNone PyNone PyNone PyNone PyNone.

Definition announced_twice : list commsArgs :=
  [init_op 0 1 [0; 3]; init_op 1 2 [0; 1; 2; 3]; init_op 2 1 [0; 1];
   pair_reduce].

Definition announced_table : list (py * pg) :=
  ok_or []
    (Backend.initialize_backend 4
       (Bench.collect_groupRanks (Bench.window grouped_run announced_twice))).
End Cases.

(** *** [PyTorchDistBackend]: many-to-one and one-to-many patterns *)

Module P2P.

(** The point-to-point calls made through [torch.distributed]; the
    non-blocking ones return a handle. *)
Inductive p2p_call : Type :=
  | CallSend (dst : Z)
  | CallRecv (src : Z)
  | CallIsend (dst : Z) (h : handle)
  | CallIrecv (src : Z) (h : handle).

(** The engine together with the log of these calls. *)
Record wire : Type := mkWire {
  eng : engine;
  calls : list p2p_call
}.

(** A non-blocking call: the handle it returns is appended to
    [waitObj], whatever [asyncOp] is. *)
Definition post_p2p (mk : handle -> p2p_call) (w : wire) : wire :=
  let h := next_handle (eng w) in
  mkWire (set_waitObj (waitObj (eng w) ++ [Some h]) (fresh_handle (eng w)))
    (calls w ++ [mk h]).

Definition send (dst_rank : Z) (w : wire) : wire :=
  mkWire (eng w) (calls w ++ [CallSend dst_rank]).

Definition recv (src_rank : Z) (w : wire) : wire :=
  mkWire (eng w) (calls w ++ [CallRecv src_rank]).

Definition isend (dst_rank : Z) (w : wire) : wire :=
  post_p2p (CallIsend dst_rank) w.

Definition irecv (src_rank : Z) (w : wire) : wire :=
  post_p2p (CallIrecv src_rank) w.

(** [incast(collectiveArgs)] for the fields [global_rank], [srcOrDst],
    [src_ranks] and [asyncOp] of [collectiveArgs]. *)
Definition incast (global_rank srcOrDst : Z) (src_ranks : list Z)
    (asyncOp : bool) (w : wire) : wire :=
  if global_rank =? srcOrDst then
    let w1 := fold_left (fun w src_rank => irecv src_rank w) src_ranks w in
    if negb asyncOp
    then mkWire (Backend.complete_accel_ops false (eng w1)) (calls w1)
    else w1
  else if existsb (Z.eqb global_rank) src_ranks then
    if asyncOp then isend srcOrDst w else send srcOrDst w
  else w.

(** [multicast(collectiveArgs)], with [dst_ranks]. *)
Definition multicast (global_rank srcOrDst : Z) (dst_ranks : list Z)
    (asyncOp : bool) (w : wire) : wire :=
  if global_rank =? srcOrDst then
    let w1 := fold_left (fun w dst_rank => isend dst_rank w) dst_ranks w in
    if negb asyncOp
    then mkWire (Backend.complete_accel_ops false (eng w1)) (calls w1)
    else w1
  else if existsb (Z.eqb global_rank) dst_ranks then
    if asyncOp then irecv srcOrDst w else recv srcOrDst w
  else w.

(** The handles [h], [h + 1], ... given to the calls to the ranks of a
    list. *)
Fixpoint numbered (mk : Z -> handle -> p2p_call) (ranks : list Z)
    (h : handle) : list p2p_call :=
  match ranks with
  | [] => []
  | r :: ranks' => mk r h :: numbered mk ranks' (S h)
  end.

(** The handles of [n] posts in a row, as the wait queue holds them. *)
Definition posted_handles (w : wire) (n : nat) : list (option handle) :=
  map Some (seq (next_handle (eng w)) n).

Definition is_receive (c : p2p_call) : bool :=
  match c with CallRecv _ | CallIrecv _ _ => true | _ => false end.

Definition is_send (c : p2p_call) : bool :=
  match c with CallSend _ | CallIsend _ _ => true | _ => false end.

End P2P.

(** *** [commsTraceReplayBench.replaySingle] *)

Module Single.
Section Engine.
Variable paramToCommName : string -> string.
Variable coll_ns : nat -> Q.
Variable barrier_ns : nat -> Q.
(** [curComm.eg_id]: the id of the record in the execution graph, an
    attribute of [commsArgs] that the trace parser assigns. *)
Variable eg_id_of : commsArgs -> py.
Variable cfg : config.

(** The loop of [replaySingle] from position [cnt] on.  The second
    component is the record that was replayed, [None] when the function
    returns without replaying one. *)
Fixpoint replaySingle_from (cnt : nat) (ops : list commsArgs) (eg_id : py)
    (st : engine) : result (engine * option commsArgs) :=
  match ops with
  | [] => Ok (st, None)
  | curComm :: rest =>
      if bool_decide (eg_id_of curComm = eg_id) then
        let collName := paramToCommName (comms curComm) in
        if negb (in_tuple collName (allowList cfg)) then Ok (st, None)
        else
          do (st1, curComm1) <-
            Bench.prepComms paramToCommName cfg curComm st;
          do (st2, _) <-
            Bench.runComms coll_ns barrier_ns cfg cnt collName curComm1 st1;
          Ok (st2, Some curComm1)
      else replaySingle_from (S cnt) rest eg_id st
  end.

Definition replaySingle (trace : list commsArgs) (eg_id : py) (st : engine)
  : result (engine * option commsArgs) :=
  replaySingle_from 0 (Bench.window cfg trace) eg_id st.
End Engine.
End Single.

(** *** Inputs for these *)

Module MoreCases.
Import Scenario Cases P2P.

Definition idle_wire : wire := mkWire queued_engine [].

(** The execution-graph ids of a trace numbered by position: the sequence
    number plus 100. *)
Definition eg_by_seq (c : commsArgs) : py :=
  PyInt (Z.of_nat (seqnum c) + 100).

(** An [all_reduce] of the group of ranks 0 and 1 at position 3 of a
    trace, and its replay by id on rank 2. *)
Definition pair_reduce_3 : commsArgs :=
  mkCommsArgs "all_reduce" 3 PyNone PyNone PyNone (PyInt 2) PyNone (PyInt 1)
    PyNone (PyInt 128) (PyInt 128) (PyStr "Int") PyNone PyNone.

Definition single_trace : list commsArgs :=
  [init_op 0 1 [0; 1]; init_op 1 2 [0; 1; 2; 3];
   coll_op 2 "all_reduce" PyNone (PyInt 4) 64 64; pair_reduce_3].

Definition single_replayed : engine * option commsArgs :=
  ok_or (fresh_engine 4, None)
    (Single.replaySingle (fun s => s) one_us one_us eg_by_seq grouped_run
       single_trace (PyInt 103) (fresh_engine 4)).
End MoreCases.

(** * Properties *)

(** ** Reasoning about [result] *)

Lemma bind_Ok {A B : Type} (r : result A) (k : A -> result B) (b : B) :
  bind r k = Ok b -> exists a, r = Ok a /\ k a = Ok b.
Proof. destruct r as [a|e]; cbn; [eauto | discriminate]. Qed.

Lemma as_int_Ok (v : py) (z : Z) : as_int v = Ok z -> v = PyInt z.
Proof. destruct v; cbn; congruence. Qed.

Lemma floordiv_Ok (a b q : Z) : floordiv a b = Ok q -> b <> 0 /\ q = a / b.
Proof.
  unfold floordiv. destruct (Z.eqb_spec b 0); [discriminate|].
  intros [= <-]. auto.
Qed.

(** Invert one [bind] that is known to return. *)
Ltac inv_bind H :=
  let a := fresh "a" in
  let Ha := fresh "Ha" in
  apply bind_Ok in H as (a & Ha & H).

(** Invert a computation in [result] that is known to return, one step
    at a time. *)
Ltac inv_ok_step :=
  match goal with
  | H : Raise _ = Ok _ |- _ => discriminate H
  | H : Ok _ = Ok _ |- _ => injection H as H
  | H : bind _ _ = Ok _ |- _ => inv_bind H
  | H : (let (_, _) := ?x in _) = Ok _ |- _ => destruct x
  | H : (if ?b then _ else _) = Ok _ |- _ => destruct b eqn:?
  | H : match ?x with _ => _ end = Ok _ |- _ => destruct x eqn:?
  end.

(** ** Trace normalization *)

Module NormalizerFacts.
Import Normalizer Scenario.

Section Facts.
Variable paramToCommName : string -> string.

Lemma getitem_Ok (curComm : gmap string py) (k : string) :
  has_key curComm k = true -> exists v, getitem curComm k = Ok v.
Proof.
  unfold has_key, getitem. intros H.
  apply bool_decide_eq_true in H. destruct H as [v ->]. eauto.
Qed.

Lemma extractOne_readable (cnt : nat) (curComm : gmap string py) :
  readable_record paramToCommName curComm = true ->
  exists c, extractOne paramToCommName cnt curComm = Ok c /\ seqnum c = cnt.
Proof.
  unfold readable_record, extractOne, getitem at 1.
  destruct (curComm !! "comms") as [[| |s| |]|] eqn:Hc; try discriminate.
  cbn [bind]. intros H.
  apply andb_true_iff in H as [Hsz Hsp].
  destruct (in_tuple (paramToCommName (lower s)) ["wait"; "barrier"; "init"])
    eqn:Hctl; cbn [negb orb] in *.
  - destruct (str_contains "all_to_allv" (paramToCommName (lower s)));
      cbn [negb orb bind] in *.
    + apply andb_true_iff in Hsp as [Ha Hb].
      destruct (getitem_Ok _ _ Ha) as [a ->].
      destruct (getitem_Ok _ _ Hb) as [b ->]. cbn. eauto.
    + eauto.
  - apply andb_true_iff in Hsz as [Hsz Hd].
    apply andb_true_iff in Hsz as [Hi Ho].
    destruct (getitem_Ok _ _ Hi) as [i ->].
    destruct (getitem_Ok _ _ Ho) as [o ->].
    destruct (getitem_Ok _ _ Hd) as [d ->]. cbn [bind].
    destruct (str_contains "all_to_allv" (paramToCommName (lower s)));
      cbn [negb orb bind] in *.
    + apply andb_true_iff in Hsp as [Ha Hb].
      destruct (getitem_Ok _ _ Ha) as [a ->].
      destruct (getitem_Ok _ _ Hb) as [b ->]. cbn. eauto.
    + eauto.
Qed.

Lemma extractFrom_readable (in_trace : list (gmap string py)) :
  forall cnt,
    forallb (readable_record paramToCommName) in_trace = true ->
    exists out,
      extractFrom paramToCommName cnt in_trace = Ok out
      /\ map seqnum out = seq cnt (length in_trace).
Proof.
  induction in_trace as [|curComm rest IH]; intros cnt H; cbn in *.
  - eauto.
  - apply andb_true_iff in H as [H1 H2].
    destruct (extractOne_readable cnt curComm H1) as (c & -> & Hseq).
    destruct (IH (S cnt) H2) as (tl & -> & Htl).
    cbn. eexists; split; [reflexivity|]. cbn. by rewrite Hseq, Htl.
Qed.

(** The normalizer is total, keeps the number of records and numbers
    them from 0, on the traces whose records carry every field that
    the code reads. *)
Lemma extractCommsInfo_readable (in_trace : list (gmap string py)) :
  forallb (readable_record paramToCommName) in_trace = true ->
  exists out,
    extractCommsInfo paramToCommName in_trace = Ok out
    /\ length out = length in_trace
    /\ map seqnum out = seq 0 (length in_trace).
Proof.
  intros H. destruct (extractFrom_readable in_trace 0%nat H) as (out & E & S).
  exists out. split; [exact E|]. split; [|exact S].
  rewrite <- (length_map seqnum), S. apply length_seq.
Qed.

(** C8. For every syntactically valid trace the normalizer should yield
    as many records as it was given, numbered from 0.  The one-record
    trace [[all_to_all_record]] is valid (its kind is [all_to_all], so
    no split is required), yet [extractCommsInfo] stops with
    [KeyError('in_split')]: the test [newComm.comms in ("all_to_allv")]
    is a substring test, and ["all_to_all"] occurs in ["all_to_allv"]. *)
Theorem extractCommsInfo_all_to_all_raises :
  paramToCommName "all_to_all" = "all_to_all" ->
  valid_record paramToCommName all_to_all_record = true
  /\ extractCommsInfo paramToCommName [all_to_all_record]
     = Raise (KeyError (PyStr "in_split")).
Proof.
  intros Hname. split.
  - unfold valid_record.
    change (all_to_all_record !! "comms") with (Some (PyStr "all_to_all")).
    cbv beta iota zeta.
    change (lower "all_to_all") with "all_to_all". rewrite Hname.
    reflexivity.
  - unfold extractCommsInfo, extractFrom, extractOne, getitem.
    change (all_to_all_record !! "comms") with (Some (PyStr "all_to_all")).
    cbn [bind]. cbv beta iota zeta.
    change (lower "all_to_all") with "all_to_all". rewrite Hname.
    reflexivity.
Qed.
End Facts.

Lemma extractCommsInfo_readable_witness :
  exists out,
    extractCommsInfo (fun s => s) readable_trace = Ok out
    /\ length out = length readable_trace
    /\ map seqnum out = seq 0 (length readable_trace).
Proof.
  apply (extractCommsInfo_readable (fun s => s) readable_trace).
  vm_compute. reflexivity.
Defined.

Lemma extractCommsInfo_all_to_all_raises_witness :
valid_record (fun s => s) all_to_all_record = true
/\ extractCommsInfo (fun s => s) [all_to_all_record]
   = Raise (KeyError (PyStr "in_split")).
Proof. apply (extractCommsInfo_all_to_all_raises (fun s => s)). reflexivity. Defined.

End NormalizerFacts.

(** ** The tensor preparer under auto-shrink *)

Module PrepFacts.
Import Bench Scenario.

Section Facts.
Variable paramToCommName : string -> string.
Variable cfg : config.

(** [prepComms] writes nothing but the sizes and the splits. *)
Lemma prepComms_identity (c c' : commsArgs) (st st' : engine) :
  prepComms paramToCommName cfg c st = Ok (st', c') ->
  identity_of c' = identity_of c.
Proof.
  unfold prepComms. intros H.
  repeat inv_ok_step; subst; reflexivity.
Qed.

Lemma pos_len_nat (A : Type) (l : list A) :
  (0 <? Z.of_nat (length l)) = (0 <? length l)%nat.
Proof. destruct l; reflexivity. Qed.

Lemma slice_to_firstn (A : Type) (l : list A) (n : Z) :
  0 <= n -> slice_to l n = firstn (Z.to_nat n) l.
Proof. intros H. unfold slice_to. destruct (Z.leb_spec 0 n); [reflexivity|lia]. Qed.

(** C3. With auto-shrink, [prepComms] leaves the record that the
    specification describes: the new input count is
    [floor(in / W_rec) * W_live] and the output likewise, where [W_rec] is
    the recorded world size or, for [all_to_allv] without one, the length
    of [in_split] or [out_split]; for [all_to_allv] both splits are cut to
    [W_live] entries and a non-empty one is re-summed into its count; for
    [all_gather] the output is [W_live] times the new input. *)
Theorem prepComms_shrink (c : commsArgs) (st : engine) (W_live n m : Z) :
  shrink cfg = true ->
  in_tuple (paramToCommName (comms c)) ["wait"; "barrier"] = false ->
  world_size st = PyInt W_live ->
  0 <= W_live ->
  inMsgSize c = PyInt n ->
  outMsgSize c = PyInt m ->
  (worldSize c = PyNone \/ exists w, worldSize c = PyInt w) ->
  (paramToCommName (comms c) = "all_to_allv" ->
   split_typed (inSplit c) = true /\ split_typed (outSplit c) = true
   /\ (worldSize c = PyNone ->
       inSplit c <> PyNone /\ outSplit c <> PyNone)) ->
  recorded_world (paramToCommName (comms c)) W_live c <> 0 ->
  prepComms paramToCommName cfg c st
  = Ok (set_self_world_size (get_world_size cfg) (set_group DefaultGroup st),
        shrunk (paramToCommName (comms c)) W_live n m c).
Proof.
  intros Hs Hk HW Hpos Hn Hm Hw Ha2a Hrec.
  unfold prepComms, shrunk, rescale. rewrite Hk, Hs, andb_false_r.
  cbn [bind negb set_self_world_size set_group world_size].
  rewrite HW, Hn, Hm.
  destruct (String.eqb_spec (paramToCommName (comms c)) "all_to_allv")
    as [Ek|Ek].
  - destruct (Ha2a Ek) as (Ti & To & Hsome).
    unfold recorded_world in *. rewrite Ek in *.
    cbn [String.eqb Ascii.eqb Bool.eqb] in *.
    destruct (inSplit c) as [| | |a|] eqn:Ei; try discriminate;
    destruct (outSplit c) as [| | |b|] eqn:Eo; try discriminate;
    destruct Hw as [Hw|[w Hw]]; rewrite Hw in *;
      try (destruct (Hsome eq_refl); congruence);
      cbn [is_none negb as_int bind py_len py_slice py_sum truncated];
      rewrite ?pos_len_nat, ?slice_to_firstn by assumption;
      repeat match goal with
      | |- context [(0 <? length ?l)%nat] =>
          destruct (0 <? length l)%nat eqn:?
      end;
      cbn [as_int bind]; unfold floordiv;
      repeat match goal with
      | |- context [?x =? 0] => destruct (Z.eqb_spec x 0); [congruence|]
      end;
      cbn [as_int bind py_len py_sum length firstn];
      rewrite ?pos_len_nat;
      repeat match goal with
      | H : (0 <? length ?l)%nat = _ |- _ => rewrite ?H; clear H
      end;
      repeat match goal with
      | |- context [(0 <? ?k)%nat] => destruct (0 <? k)%nat
      end; reflexivity.
  - assert (Hrec' : recorded_world (paramToCommName (comms c)) W_live c
                    = match worldSize c with PyInt w => w | _ => W_live end).
    { unfold recorded_world.
      destruct (String.eqb_spec (paramToCommName (comms c)) "all_to_allv");
        [contradiction|reflexivity]. }
    rewrite Hrec' in *.
    destruct Hw as [Hw|[w Hw]]; rewrite Hw in *;
      cbn [is_none negb as_int bind]; unfold floordiv;
      repeat match goal with
      | |- context [?x =? 0] => destruct (Z.eqb_spec x 0); [congruence|]
      end;
      cbn [as_int bind];
      destruct (String.eqb (paramToCommName (comms c)) "all_gather");
      reflexivity.
Qed.

(** C4, amended. With auto-shrink, the input count that [prepComms]
    leaves is a multiple of the live world size for every operation
    except an [all_to_allv] whose truncated in-split is non-empty; for
    such an [all_to_allv] the in-split sums to the new input count. *)
Theorem prepComms_shrink_invariant (c c' : commsArgs) (st st' : engine)
    (W_live : Z) :
  prepComms paramToCommName cfg c st = Ok (st', c') ->
  shrink cfg = true ->
  in_tuple (paramToCommName (comms c)) ["wait"; "barrier"] = false ->
  world_size st = PyInt W_live ->
  exists n, inMsgSize c' = PyInt n
    /\ ((exists l, paramToCommName (comms c) = "all_to_allv"
                   /\ inSplit c' = PyList l /\ l <> [] /\ sum l = n)
        \/ ((W_live | n)
            /\ (paramToCommName (comms c) = "all_to_allv" ->
                py_len (inSplit c') = Ok 0))).
Proof.
  unfold prepComms. intros H Hs Hk HW.
  rewrite Hk, Hs, andb_false_r in H.
  cbn [bind negb set_self_world_size set_group world_size] in H.
  rewrite HW in H.
  apply bind_Ok in H as (real & _ & H).
  apply bind_Ok in H as (newNumElemsIn & Hin & H).
  apply bind_Ok in H as (newNumElemsOut & _ & H).
  cbn [as_int bind] in H.
  assert (Hdiv : (W_live | newNumElemsIn)).
  { unfold rescale in Hin.
    apply bind_Ok in Hin as (n & _ & Hin).
    apply bind_Ok in Hin as (w & _ & Hin).
    apply bind_Ok in Hin as (q & _ & Hin).
    cbn [as_int bind] in Hin. injection Hin as <-.
    apply Z.divide_factor_r. }
  destruct (String.eqb_spec (paramToCommName (comms c)) "all_to_allv")
    as [Ek|Ek].
  - apply bind_Ok in H as (outS & _ & H).
    apply bind_Ok in H as (inS & _ & H).
    apply bind_Ok in H as (lenIn & Hlen & H).
    apply bind_Ok in H as (newIn & HnewIn & H).
    apply bind_Ok in H as (lenOut & _ & H).
    apply bind_Ok in H as (newOut & _ & H).
    injection H as _ <-. cbn [inMsgSize with_sizes inSplit with_splits].
    eexists; split; [reflexivity|].
    destruct (Z.ltb_spec 0 lenIn).
    + left. destruct inS; try discriminate. injection HnewIn as <-.
      injection Hlen as <-. exists l. repeat split; try assumption.
      intros ->. cbn in *. lia.
    + right. injection HnewIn as <-. split; [exact Hdiv|].
      intros _. rewrite Hlen. f_equal.
      destruct inS; cbn in Hlen; try discriminate; injection Hlen as <-; lia.
  - destruct (String.eqb (paramToCommName (comms c)) "all_gather");
      injection H as _ <-; cbn [inMsgSize with_sizes];
      (eexists; split; [reflexivity|]); right;
      (split; [exact Hdiv | contradiction]).
Qed.
End Facts.

(** Scenario S4: 1024 elements recorded on 8 ranks and replayed on 4
    give 512 input and 2048 output elements. *)
Lemma prepComms_shrink_witness :
  prepComms (fun s => s) (run_config true true ["all_gather"] "" 4)
    s4_all_gather (fresh_engine 4)
  = Ok (set_self_world_size 4 (set_group DefaultGroup (fresh_engine 4)),
        shrunk "all_gather" 4 1024 1024 s4_all_gather)
  /\ inMsgSize (shrunk "all_gather" 4 1024 1024 s4_all_gather) = PyInt 512
  /\ outMsgSize (shrunk "all_gather" 4 1024 1024 s4_all_gather) = PyInt 2048.
Proof.
  split; [|split; reflexivity].
  apply (prepComms_shrink (fun s => s)
           (run_config true true ["all_gather"] "" 4)
           s4_all_gather (fresh_engine 4) 4 1024 1024).
  - reflexivity.
  - reflexivity.
  - reflexivity.
  - lia.
  - reflexivity.
  - reflexivity.
  - right. exists 8. reflexivity.
  - intros H. discriminate H.
  - vm_compute. discriminate.
Defined.

(** C4 as stated fails: the uneven [all_to_allv], replayed on 2 ranks,
    keeps the splits [[1; 2]] and gets 3 input elements, which 2 does
    not divide. *)
Lemma prepComms_shrink_odd_input :
  exists st' c',
    prepComms (fun s => s) (run_config true true ["all_to_allv"] "" 2)
      uneven_a2av (fresh_engine 2) = Ok (st', c')
    /\ inSplit c' = PyList [1; 2]
    /\ inMsgSize c' = PyInt 3
    /\ ~ shrink_invariant_as_stated "all_to_allv" 2 c'.
Proof.
  eexists _, _. split; [reflexivity|]. split; [reflexivity|].
  split; [reflexivity|].
  intros (n & Hn & [k Hk] & _). cbn in Hn. injection Hn as <-. lia.
Qed.

Lemma prepComms_shrink_invariant_witness :
  exists n, inMsgSize (shrunk "all_gather" 4 1024 1024 s4_all_gather) = PyInt n
    /\ ((exists l, "all_gather" = "all_to_allv"
           /\ inSplit (shrunk "all_gather" 4 1024 1024 s4_all_gather) = PyList l
           /\ l <> [] /\ sum l = n)
        \/ ((4 | n)
            /\ ("all_gather" = "all_to_allv" ->
                py_len (inSplit (shrunk "all_gather" 4 1024 1024 s4_all_gather))
                = Ok 0))).
Proof.
  apply (prepComms_shrink_invariant (fun s => s)
           (run_config true true ["all_gather"] "" 4)
           s4_all_gather _ (fresh_engine 4)
           (set_self_world_size 4 (set_group DefaultGroup (fresh_engine 4)))
           4).
  - reflexivity.
  - reflexivity.
  - reflexivity.
  - reflexivity.
Defined.
End PrepFacts.

(** ** The rebalance policy *)

Module RebalanceFacts.
Import Bench Scenario PrepFacts.

Lemma round_div_nearest (n d : Z) :
  0 < d -> 2 * Z.abs (n - d * round_div n d) <= d.
Proof.
  intros Hd. unfold round_div.
  pose proof (Z.div_mod n d ltac:(lia)) as E.
  pose proof (Z.mod_pos_bound n d Hd) as B.
  destruct (Z.ltb_spec (2 * (n mod d)) d).
  - lia.
  - destruct (Z.ltb_spec d (2 * (n mod d))).
    + lia.
    + destruct (Z.even (n / d)); lia.
Qed.

Lemma round_div_tie_even (n d : Z) :
  0 < d -> 2 * Z.abs (n - d * round_div n d) = d ->
  Z.even (round_div n d) = true.
Proof.
  intros Hd. unfold round_div.
  pose proof (Z.div_mod n d ltac:(lia)) as E.
  pose proof (Z.mod_pos_bound n d Hd) as B.
  destruct (Z.ltb_spec (2 * (n mod d)) d); [lia|].
  destruct (Z.ltb_spec d (2 * (n mod d))); [lia|].
  intros _. destruct (Z.even (n / d)) eqn:Ev; [exact Ev|].
  rewrite Z.even_add, Ev. reflexivity.
Qed.

Section Facts.
Variable paramToCommName : string -> string.
Variable all_reduce : Z -> Z.
Variable cfg : config.

(** What [rebalanceSplit] returns under the policy [equal], when the
    backend's [all_reduce] is a collective. *)
Lemma rebalanceSplit_equal (curComm : commsArgs) (st : engine) (v W : Z) :
  rebalance_policy cfg = "equal" ->
  PyDict.get (collectiveFunc cfg) "all_reduce" = Some Collective ->
  inMsgSize curComm = PyInt v ->
  world_size st = PyInt W ->
  W <> 0 ->
  exists st',
    rebalanceSplit all_reduce cfg curComm st
    = Ok (st', equal_rounding_nearest W (all_reduce v) curComm).
Proof.
  intros Hp Hf Hv HW HW0. unfold rebalanceSplit.
  rewrite Hp, Hv, Hf. cbn [String.eqb Ascii.eqb Bool.eqb as_int bind Backend.call].
  destruct (Backend.post _ _) as [st1 h]. cbn [bind].
  rewrite HW. cbn [as_int bind].
  destruct (Z.eqb_spec (W * W) 0); [nia|]. eauto.
Qed.

Lemma rebalanceSplit_equal_inv (c c' : commsArgs) (st st' : engine) :
  rebalanceSplit all_reduce cfg c st = Ok (st', c') ->
  rebalance_policy cfg = "equal" ->
  PyDict.get (collectiveFunc cfg) "all_reduce" = Some Collective ->
  exists v W,
    inMsgSize c = PyInt v /\ world_size st = PyInt W /\ W <> 0
    /\ c' = equal_rounding_nearest W (all_reduce v) c.
Proof.
  unfold rebalanceSplit. intros H Hp Hf. rewrite Hp, Hf in H.
  cbn [String.eqb Ascii.eqb Bool.eqb bind Backend.call] in H.
  apply bind_Ok in H as (v & Hv & H). apply as_int_Ok in Hv.
  destruct (Backend.post _ _) as [st1 h]. cbn [bind] in H.
  apply bind_Ok in H as (W & HW & H). apply as_int_Ok in HW.
  destruct (Z.eqb_spec (W * W) 0); [discriminate|].
  injection H as _ <-. exists v, W. repeat split; try assumption. nia.
Qed.

(** The new total is the multiple of [W * W] nearest to the agreed value,
    it splits evenly, and a tie goes to the even multiple. *)
Lemma equal_rounding_nearest_spec (W agreed : Z) (c : commsArgs) :
  0 < W ->
  let newInSize := (W * W) * round_div agreed (W * W) in
  2 * Z.abs (agreed - newInSize) <= W * W
  /\ inMsgSize (equal_rounding_nearest W agreed c) = PyInt (newInSize / W)
  /\ outMsgSize (equal_rounding_nearest W agreed c) = PyInt (newInSize / W)
  /\ newInSize / W * W = newInSize
  /\ inSplit (equal_rounding_nearest W agreed c)
     = PyList (repeat (newInSize / W / W) (Z.to_nat W))
  /\ outSplit (equal_rounding_nearest W agreed c)
     = inSplit (equal_rounding_nearest W agreed c)
  /\ sum (repeat (newInSize / W / W) (Z.to_nat W)) = newInSize / W
  /\ identity_of (equal_rounding_nearest W agreed c) = identity_of c.
Proof.
  intros HW newInSize. subst newInSize.
  assert (HWW : 0 < W * W) by nia.
  split; [apply round_div_nearest; exact HWW|].
  do 2 (split; [reflexivity|]).
  assert (E1 : W * W * round_div agreed (W * W) / W
               = W * round_div agreed (W * W)).
  { rewrite <- Z.mul_assoc, (Z.mul_comm W (W * _)), Z.div_mul by lia. ring. }
  split; [rewrite E1; ring|].
  do 2 (split; [reflexivity|]).
  split; [|reflexivity].
  rewrite E1.
  assert (E2 : W * round_div agreed (W * W) / W = round_div agreed (W * W)).
  { rewrite Z.mul_comm, Z.div_mul by lia. reflexivity. }
  rewrite E2.
  assert (G : forall (x : Z) (k : nat) (acc : Z),
             fold_left Z.add (repeat x k) acc = acc + Z.of_nat k * x).
  { intros x k. induction k as [|k IH]; intros acc; cbn [repeat fold_left].
    - lia.
    - rewrite IH. lia. }
  unfold sum. rewrite G. lia.
Qed.

Lemma rebalanceSplit_else (curComm : commsArgs) (st : engine) :
  rebalance_policy cfg <> "equal" ->
  rebalanceSplit all_reduce cfg curComm st
  = Ok (emit [EvLog "Unsupported balancing policy. Ignoring."] st, curComm).
Proof.
  intros Hp. unfold rebalanceSplit.
  destruct (String.eqb_spec (rebalance_policy cfg) "equal"); [contradiction|].
  reflexivity.
Qed.

(** Under a policy name other than [equal] the warm-up hands the trace
    back as it was. *)
Lemma warmUp_keeps_trace (ops : list commsArgs) :
  rebalance_policy cfg <> "equal" ->
  forall (cnt : nat) (st st' : engine) (ops' : list commsArgs),
    warmUpLoop paramToCommName all_reduce cfg cnt ops st = Ok (st', ops') ->
    ops' = ops.
Proof.
  intros Hp. induction ops as [|c rest IH]; intros cnt st st' ops' H;
    cbn [warmUpLoop] in H.
  - injection H as _ <-. reflexivity.
  - apply bind_Ok in H as ([st1 c1] & H1 & H).
    apply bind_Ok in H as ([st2 rest1] & H2 & H).
    injection H as _ <-. apply IH in H2. subst rest1. f_equal.
    unfold warmUpOne in H1.
    apply bind_Ok in H1 as (r & _ & H1).
    destruct (skipped cfg (paramToCommName (comms c)) r).
    + injection H1 as _ <-. reflexivity.
    + apply bind_Ok in H1 as ([st3 e1] & _ & H1).
      apply bind_Ok in H1 as ([st4 c2] & Hreb & H1).
      apply bind_Ok in H1 as (st5 & _ & H1).
      injection H1 as _ <-.
      destruct (_ && _) in Hreb.
      * apply bind_Ok in Hreb as ([st6 c3] & Hreb & Hrest).
        rewrite (rebalanceSplit_else _ _ Hp) in Hreb.
        injection Hreb as _ <-.
        apply bind_Ok in Hrest as ([st7 e2] & _ & Hrest).
        injection Hrest as _ <-. reflexivity.
      * injection Hreb as _ <-. reflexivity.
Qed.

(** C9. Under a policy name other than [equal], [rebalanceSplit] returns
    normally, the record it was given is unchanged in every field, and
    the only effect is the logged error message. *)
Theorem rebalanceSplit_unknown_policy (curComm : commsArgs) (st : engine) :
  rebalance_policy cfg <> "equal" ->
  rebalanceSplit all_reduce cfg curComm st
  = Ok (emit [EvLog "Unsupported balancing policy. Ignoring."] st, curComm).
Proof.
  intros Hp. unfold rebalanceSplit.
  destruct (String.eqb_spec (rebalance_policy cfg) "equal"); [contradiction|].
  reflexivity.
Qed.

(** C2, amended. For an [all_to_allv] record that the warm-up processes
    under the policy [equal], the record left in the trace is the
    original one with the value agreed by [all_reduce] on its input count
    rounded to the nearest multiple of [W * W] (not rounded down), both
    counts set to that total over [W] and both splits to [W] shares of
    that count over [W]; [W] is the world size the warm-up sets. *)
Theorem warmUp_rebalance_equal (cnt : nat) (curComm curComm' : commsArgs)
    (st st' : engine) (r : Z) :
  warmUpOne paramToCommName all_reduce cfg cnt curComm st
  = Ok (st', curComm') ->
  paramToCommName (comms curComm) = "all_to_allv" ->
  getCommGroupInfo cfg curComm = Ok r ->
  skipped cfg "all_to_allv" r = false ->
  rebalance_policy cfg = "equal" ->
  PyDict.mem (collectiveFunc cfg) "all_to_allv" = true ->
  PyDict.get (collectiveFunc cfg) "all_reduce" = Some Collective ->
  exists v W,
    inMsgSize curComm = PyInt v
    /\ rebalance_world cfg curComm = PyInt W
    /\ W <> 0
    /\ curComm' = equal_rounding_nearest W (all_reduce v) curComm
    /\ 2 * Z.abs (all_reduce v - (W * W) * round_div (all_reduce v) (W * W))
       <= W * W.
Proof.
  unfold warmUpOne. intros H Hk Hg Hskip Hp Hmem Hf.
  rewrite Hk, Hg in H. cbn [bind] in H. rewrite Hskip, Hmem, Hp in H.
  apply bind_Ok in H as ([st1 commEntry1] & Hprep & H).
  apply prepComms_identity in Hprep.
  cbn [String.eqb Ascii.eqb Bool.eqb andb String.length Nat.ltb Nat.leb] in H.
  apply bind_Ok in H as ([st3 curComm2] & Hreb & H).
  apply bind_Ok in Hreb as ([st2 c2] & Hreb & Hrest).
  apply bind_Ok in Hrest as ([st3' drop] & _ & Hrest).
  injection Hrest as _ <-.
  apply bind_Ok in H as (st4 & _ & H). injection H as _ <-.
  apply (rebalanceSplit_equal_inv _ _ _ _ Hreb Hp) in Hf
    as (v & W & Hv & HW & HW0 & ->).
  exists v, W. split; [exact Hv|]. split.
  - unfold rebalance_world.
    replace (pgId curComm) with (pgId commEntry1)
      by exact (f_equal pgId Hprep).
    replace (worldSize curComm) with (worldSize commEntry1)
      by exact (f_equal worldSize Hprep).
    exact HW.
  - split; [exact HW0|]. split; [reflexivity|].
    apply round_div_nearest. nia.
Qed.
End Facts.

(** C2 as stated fails: with 7 agreed on a world of 2, the record gets
    [8 / 2 = 4] elements and the splits [[2; 2]]; rounding down would
    give 2 elements and [[1; 1]]. *)
Lemma warmUp_equal_rounds_up :
  exists st' c',
    warmUpOne (fun s => s) other_rank_has_4
      (run_config true false ["all_to_allv"] "equal" 2) 0 a2av_of_3
      (fresh_engine 2) = Ok (st', c')
    /\ inMsgSize c' = PyInt 4
    /\ inSplit c' = PyList [2; 2]
    /\ inMsgSize (equal_rounding_down 2 7 a2av_of_3) = PyInt 2
    /\ c' <> equal_rounding_down 2 7 a2av_of_3.
Proof.
  eexists _, _. split; [reflexivity|].
  repeat (split; [reflexivity|]). discriminate.
Qed.

Lemma warmUp_rebalance_equal_witness :
  exists v W,
    inMsgSize a2av_of_3 = PyInt v
    /\ rebalance_world (run_config true false ["all_to_allv"] "equal" 2)
         a2av_of_3 = PyInt W
    /\ W <> 0
    /\ equal_rounding_nearest 2 7 a2av_of_3
       = equal_rounding_nearest W (other_rank_has_4 v) a2av_of_3
    /\ 2 * Z.abs (other_rank_has_4 v
                  - (W * W) * round_div (other_rank_has_4 v) (W * W))
       <= W * W.
Proof.
  apply (warmUp_rebalance_equal (fun s => s) other_rank_has_4
           (run_config true false ["all_to_allv"] "equal" 2) 0%nat
           a2av_of_3 (equal_rounding_nearest 2 7 a2av_of_3)
           (fresh_engine 2)
           (Backend.complete_accel_ops true
              (emit [EvWarmUp 0 "all_to_allv"]
                 (Backend.complete_accel_ops true
                    (emit [EvAllReduce 3]
                       (set_self_world_size 2
                          (set_group DefaultGroup (fresh_engine 2)))))))
           0).
  - reflexivity.
  - reflexivity.
  - reflexivity.
  - reflexivity.
  - reflexivity.
  - reflexivity.
  - reflexivity.
Defined.

Lemma equal_rounding_nearest_spec_witness :
  2 * Z.abs (7 - (2 * 2) * round_div 7 (2 * 2)) <= 2 * 2
  /\ inMsgSize (equal_rounding_nearest 2 7 a2av_of_3)
     = PyInt ((2 * 2) * round_div 7 (2 * 2) / 2)
  /\ outMsgSize (equal_rounding_nearest 2 7 a2av_of_3)
     = PyInt ((2 * 2) * round_div 7 (2 * 2) / 2)
  /\ (2 * 2) * round_div 7 (2 * 2) / 2 * 2 = (2 * 2) * round_div 7 (2 * 2)
  /\ inSplit (equal_rounding_nearest 2 7 a2av_of_3)
     = PyList (repeat ((2 * 2) * round_div 7 (2 * 2) / 2 / 2) (Z.to_nat 2))
  /\ outSplit (equal_rounding_nearest 2 7 a2av_of_3)
     = inSplit (equal_rounding_nearest 2 7 a2av_of_3)
  /\ sum (repeat ((2 * 2) * round_div 7 (2 * 2) / 2 / 2) (Z.to_nat 2))
     = (2 * 2) * round_div 7 (2 * 2) / 2
  /\ identity_of (equal_rounding_nearest 2 7 a2av_of_3)
     = identity_of a2av_of_3.
Proof. apply (equal_rounding_nearest_spec 2 7 a2av_of_3). lia. Defined.

Lemma warmUp_keeps_trace_witness : fair_warmed_up.2 = two_a2av.
Proof.
  apply (warmUp_keeps_trace (fun s => s) other_rank_has_4 fair_policy
           two_a2av ltac:(discriminate) 0%nat (fresh_engine 2)
           fair_warmed_up.1 fair_warmed_up.2).
  vm_compute. reflexivity.
Defined.

Lemma rebalanceSplit_unknown_policy_witness :
  rebalanceSplit other_rank_has_4
    (run_config true false ["all_to_allv"] "fair" 2) a2av_of_3
    (fresh_engine 2)
  = Ok (emit [EvLog "Unsupported balancing policy. Ignoring."]
          (fresh_engine 2), a2av_of_3).
Proof.
  apply (rebalanceSplit_unknown_policy other_rank_has_4
           (run_config true false ["all_to_allv"] "fair" 2)).
  discriminate.
Defined.
End RebalanceFacts.

(** ** Process groups under auto-shrink *)

Module GroupFacts.
Import Bench Scenario.

Lemma create_groups_oversized (world : Z) (items : list (py * py)) :
  forall (acc gs : list (py * pg)),
    Backend.create_groups world items acc = Ok gs ->
    oversized world items ->
    gs = [].
Proof.
  induction items as [|[pg_id group_ranks] rest IH]; intros acc gs H Hov.
  - destruct Hov as (k & v & n & [] & _).
  - cbn [Backend.create_groups] in H.
    apply bind_Ok in H as (n & Hn & H).
    destruct (Z.ltb_spec world n) as [Hlt|Hge].
    + injection H as <-. reflexivity.
    + apply bind_Ok in H as (g & _ & H).
      apply (IH _ _ H).
      destruct Hov as (k & v & m & [Heq|Hin] & Hm & Hlt).
      * injection Heq as <- <-. rewrite Hn in Hm. injection Hm as <-. lia.
      * exists k, v, m. auto.
Qed.

Section Facts.
Variable paramToCommName : string -> string.
Variable cfg : config.

(** C7, amended. When some recorded group has more members than the live
    world, [initialize_backend] empties the whole table, so that no
    recorded group stays available, and leaves the single entry 0 for the
    default group.  With auto-shrink, every record resolves to the
    default group, in [getCommGroupInfo] and in [prepComms], whatever its
    [pg_id]. *)
Theorem oversized_group_table (gs : list (py * pg)) :
  Backend.initialize_backend (get_world_size cfg) (commsParams_groupRanks cfg)
  = Ok gs ->
  oversized (get_world_size cfg) (commsParams_groupRanks cfg) ->
  gs = [(PyInt 0, DefaultGroup)]
  /\ (shrink cfg = true ->
      forall c : commsArgs,
        getCommGroupInfo cfg c
        = Ok (Backend.get_group_rank (get_global_rank cfg) DefaultGroup)
        /\ forall (st st' : engine) (c' : commsArgs),
             in_tuple (paramToCommName (comms c)) ["wait"; "barrier"] = false ->
             prepComms paramToCommName cfg c st = Ok (st', c') ->
             group st' = DefaultGroup).
Proof.
  unfold Backend.initialize_backend. intros H Hov.
  apply bind_Ok in H as (g0 & Hg0 & H).
  apply create_groups_oversized in Hg0; [|exact Hov]. subst g0.
  injection H as <-. split; [reflexivity|].
  intros Hs c. split.
  - unfold getCommGroupInfo. rewrite Hs, andb_false_r. reflexivity.
  - intros st st' c' Hk H. unfold prepComms in H.
    rewrite Hk, Hs, andb_false_r in H. cbn [bind negb] in H.
    rewrite (surjective_pairing (st', c')) in H.
    repeat inv_ok_step; subst; reflexivity.
Qed.
End Facts.

(** C7 as stated fails: on a world of 4 ranks the group of eight is too
    large, and the group of ranks 0 and 1, which is not, is gone from the
    table with it. *)
Lemma small_group_discarded :
  exists gs,
    Backend.initialize_backend 4 two_groups = Ok gs
    /\ PyDict.get gs (PyInt 1) = None
    /\ ~ small_groups_kept 4 two_groups gs.
Proof.
  eexists. split; [reflexivity|]. split; [reflexivity|].
  intros H.
  assert (Hle : 2 <= 4) by lia.
  specialize (H (PyInt 1) (PyList [0; 1]) 2 eq_refl eq_refl Hle).
  discriminate H.
Qed.

Lemma oversized_group_table_witness :
  [(PyInt 0, DefaultGroup)] = [(PyInt 0, DefaultGroup)]
  /\ (shrink (mkConfig true true ["all_reduce"] "" 0 4 0 two_groups
                [(PyInt 0, DefaultGroup)] collectives) = true ->
      forall c : commsArgs,
        getCommGroupInfo
          (mkConfig true true ["all_reduce"] "" 0 4 0 two_groups
             [(PyInt 0, DefaultGroup)] collectives) c
        = Ok (Backend.get_group_rank 0 DefaultGroup)
        /\ forall (st st' : engine) (c' : commsArgs),
             in_tuple (comms c) ["wait"; "barrier"] = false ->
             prepComms (fun s => s)
               (mkConfig true true ["all_reduce"] "" 0 4 0 two_groups
                  [(PyInt 0, DefaultGroup)] collectives) c st
             = Ok (st', c') ->
             group st' = DefaultGroup).
Proof.
  apply (oversized_group_table (fun s => s)
           (mkConfig true true ["all_reduce"] "" 0 4 0 two_groups
              [(PyInt 0, DefaultGroup)] collectives)
           [(PyInt 0, DefaultGroup)]).
  - reflexivity.
  - exists (PyInt 2), (PyList [0; 1; 2; 3; 4; 5; 6; 7]), 8.
    split; [right; left; reflexivity|]. split; [reflexivity|cbn; lia].
Defined.
End GroupFacts.

(** ** The wait queue and the request registry *)

Module AsyncFacts.
Import Bench Scenario.

Lemma complete_accel_ops_spec (devSync : bool) (st : engine) :
  waitObj (Backend.complete_accel_ops devSync st) = []
  /\ waitObjIds (Backend.complete_accel_ops devSync st) = []
  /\ events (Backend.complete_accel_ops devSync st)
     = events st ++ Backend.awaits ByCompleteAccelOps (waitObj st)
       ++ (if devSync then [EvDeviceSync] else []).
Proof.
  unfold Backend.complete_accel_ops. destruct devSync; cbn.
  - rewrite <- app_assoc. auto.
  - rewrite app_nil_r. auto.
Qed.

(** Each handle of the queue is awaited, in queue order; [None] entries
    are passed over. *)
Lemma awaits_spec (src : await_src) (q : list (option handle)) (h : handle) :
  In (EvAwait src h) (Backend.awaits src q) <-> In (Some h) q.
Proof.
  unfold Backend.awaits. induction q as [|[k|] q IH]; cbn.
  - tauto.
  - rewrite IH. split; intros [E|H]; auto; left; congruence.
  - rewrite IH. split; [auto|]. intros [E|H]; [discriminate|auto].
Qed.

Section Facts.
Variable coll_ns barrier_ns : nat -> Q.
Variable cfg : config.

(** C10. [complete_accel_ops] awaits the handles of the wait queue and
    then empties the queue and the registry [waitObjIds], whatever
    [devSync] is; so when [runComms] returns, the registry holds nothing,
    or the single entry written after the clear: the request id of the
    record, bound to the object that the dispatch returned. *)
Theorem registry_at_most_one (cnt : nat) (collName : string)
    (curComm : commsArgs) (st st' q : engine) (lat : Q * Q)
    (devSync : bool) :
  runComms coll_ns barrier_ns cfg cnt collName curComm st = Ok (st', lat) ->
  (waitObj (Backend.complete_accel_ops devSync q) = []
   /\ waitObjIds (Backend.complete_accel_ops devSync q) = []
   /\ events (Backend.complete_accel_ops devSync q)
      = events q ++ Backend.awaits ByCompleteAccelOps (waitObj q)
        ++ (if devSync then [EvDeviceSync] else []))
  /\ (length (waitObjIds st') <= 1)%nat
  /\ (waitObjIds st' = []
      \/ exists retObj pre post,
           waitObjIds st' = [(req curComm, retObj)]
           /\ is_blocking cfg = false
           /\ req curComm <> PyNone
           /\ collName <> "wait"
           /\ events st'
              = events st
                ++ EvDispatch (seqnum curComm) collName
                   :: pre ++ EvReturn retObj :: post).
Proof.
  intros H. split; [apply complete_accel_ops_spec|].
  unfold runComms in H.
  apply bind_Ok in H as ([st2 bound] & Hcall & H).
  apply bind_Ok in H as (st4 & Hreg & H).
  destruct (complete_accel_ops_spec (is_blocking cfg) st2) as (Hq & Hids & Hev).
  destruct (is_blocking cfg) eqn:Hb.
  - (* blocking: the closing [sync_barrier] clears the registry again *)
    injection H as <- _. unfold Backend.sync_barrier.
    destruct (complete_accel_ops_spec true
                (Backend.post (asyncOp cfg) (emit [EvBarrier] st4)).1)
      as (_ & -> & _).
    cbn. auto.
  - injection H as <- _.
    rewrite andb_true_r in Hreg.
    destruct (negb (is_none (req curComm)) && negb (collName =? "wait")%string)
      eqn:Hins.
    + destruct bound as [retObj|]; [|discriminate].
      injection Hreg as <-. cbn [waitObjIds set_waitObjIds length].
      split; [lia|]. right.
      apply andb_true_iff in Hins as [Hreq Hname].
      destruct (PyDict.get (collectiveFunc cfg) collName) as [fn|];
        [|discriminate].
      apply bind_Ok in Hcall as ([st2' r] & Hfn & Hcall).
      injection Hcall as <- <-.
      assert (Hpre : exists pre,
                 events st2'
                 = events st ++ EvDispatch (seqnum curComm) collName :: pre).
      { destruct fn; cbn in Hfn; try discriminate.
        - unfold Backend.post in Hfn. destruct (asyncOp cfg);
            injection Hfn as <- _; exists []; cbn;
            destruct (negb (is_none (req curComm))); reflexivity.
        - injection Hfn as <- _.
          unfold Backend.wait, Backend.complete_single_op.
          repeat match goal with
                 | |- context [if ?b then _ else _] => destruct b
                 | |- context [match ?x with _ => _ end] => destruct x
                 end; cbn; rewrite <- ?app_assoc; cbn; eauto.
        - injection Hfn as <- _. exists []. cbn.
          destruct (negb (is_none (req curComm))); reflexivity. }
      destruct Hpre as [pre Hpre].
      exists r, pre,
        (Backend.awaits ByCompleteAccelOps (waitObj st2')).
      split; [reflexivity|]. split; [reflexivity|].
      split; [destruct (req curComm); cbn in Hreq; congruence|].
      split; [intros ->; discriminate|].
      cbn [events set_waitObjIds set_waitObj emit waitObj].
      rewrite Hpre, <- !app_assoc. cbn.
      reflexivity.
    + injection Hreg as <-. cbn. split; [lia|auto].
Qed.
End Facts.

Lemma registry_at_most_one_witness :
  (waitObj (Backend.complete_accel_ops false busy_engine) = []
   /\ waitObjIds (Backend.complete_accel_ops false busy_engine) = []
   /\ events (Backend.complete_accel_ops false busy_engine)
      = events busy_engine
        ++ Backend.awaits ByCompleteAccelOps (waitObj busy_engine)
        ++ [])
  /\ (length (waitObjIds posted_7.1) <= 1)%nat
  /\ (waitObjIds posted_7.1 = []
      \/ exists retObj pre post,
           waitObjIds posted_7.1 = [(req post_7, retObj)]
           /\ is_blocking nonblocking_all = false
           /\ req post_7 <> PyNone
           /\ "all_reduce" <> "wait"
           /\ events posted_7.1
              = events (fresh_engine 2)
                ++ EvDispatch (seqnum post_7) "all_reduce"
                   :: pre ++ EvReturn retObj :: post).
Proof.
  apply (registry_at_most_one one_us one_us nonblocking_all 0%nat
           "all_reduce" post_7 (fresh_engine 2) posted_7.1 busy_engine
           posted_7.2 false).
  vm_compute. reflexivity.
Defined.

(** C1. A [wait] for request 7 should await the handle that the post of
    request 7 returned.  In the non-blocking replay of [wait_after_two]
    the post of request 7 returns handle 0 and the post of request 8
    handle 1; [complete_accel_ops] empties the registry after each
    dispatch, so that the [wait] of record 2 finds only request 8 there
    and awaits nothing: no [EvAwait] follows its dispatch. *)
Theorem wait_misses_earlier_request :
  exists st ops,
    stat_and_replay nonblocking_all wait_after_two = Ok (st, ops)
    /\ events st
       = [EvDispatch 0 "all_reduce"; EvReturn (Some 0%nat);
          EvAwait ByCompleteAccelOps 0%nat;
          EvDispatch 1 "all_reduce"; EvReturn (Some 1%nat);
          EvAwait ByCompleteAccelOps 1%nat;
          EvDispatch 2 "wait"; EvReturn None].
Proof. eexists _, _. split; vm_compute; reflexivity. Qed.

End AsyncFacts.

(** ** The measured pass *)

Module ReplayFacts.
Import Bench Scenario PrepFacts.

Lemma dispatched_app (a b : list event) :
  dispatched (a ++ b) = dispatched a ++ dispatched b.
Proof. apply omap_app. Qed.

Lemma dispatched_awaits (src : await_src) (q : list (option handle)) :
  dispatched (Backend.awaits src q) = [].
Proof.
  unfold Backend.awaits. induction q as [|[h|] q IH]; cbn; auto.
Qed.

Lemma quiet_refl (st : engine) : quiet st st.
Proof. unfold quiet. auto. Qed.

Lemma quiet_trans (a b c : engine) : quiet a b -> quiet b c -> quiet a c.
Proof.
  unfold quiet. intros (? & ? & ? & ? & ?) (? & ? & ? & ? & ?).
  repeat split; congruence.
Qed.

(** A step that logs no dispatch and leaves the statistics alone. *)
Ltac quiet_step :=
  unfold quiet; cbn;
  rewrite ?dispatched_app, ?dispatched_awaits, ?app_nil_r; cbn;
  rewrite ?app_nil_r; auto.

Lemma quiet_complete_accel_ops (devSync : bool) (st : engine) :
  quiet st (Backend.complete_accel_ops devSync st).
Proof.
  unfold Backend.complete_accel_ops. destruct devSync; quiet_step.
Qed.

Lemma quiet_post (a : bool) (st : engine) : quiet st (Backend.post a st).1.
Proof. unfold Backend.post. destruct a; quiet_step. Qed.

Lemma quiet_sync_barrier (a : bool) (st : engine) :
  quiet st (Backend.sync_barrier a st).
Proof.
  unfold Backend.sync_barrier.
  eapply quiet_trans; [|apply quiet_complete_accel_ops].
  eapply quiet_trans; [|apply quiet_post]. quiet_step.
Qed.

Lemma quiet_wait (st : engine) : quiet st (Backend.wait st).
Proof.
  unfold Backend.wait, Backend.complete_single_op.
  destruct (length (waitObjIds st) =? 0)%nat.
  - destruct (waitObj st) as [|[h|] q]; quiet_step.
  - destruct (PyDict.get _ _) as [[h|]|]; quiet_step.
Qed.

Lemma quiet_call (fn : backend_fn) (a : bool) (st st' : engine)
    (r : option handle) :
  Backend.call fn a st = Ok (st', r) -> quiet st st'.
Proof.
  destruct fn; cbn; intros H; try discriminate.
  - injection H as H. pose proof (quiet_post a st) as Q.
    rewrite H in Q. exact Q.
  - injection H as <- _. apply quiet_wait.
  - injection H as <- _. apply quiet_refl.
Qed.

(** The backend never writes [collectiveArgs.world_size]. *)
Lemma world_size_complete_accel_ops (devSync : bool) (st : engine) :
  world_size (Backend.complete_accel_ops devSync st) = world_size st.
Proof. unfold Backend.complete_accel_ops. destruct devSync; reflexivity. Qed.

Lemma world_size_post (a : bool) (st : engine) :
  world_size (Backend.post a st).1 = world_size st.
Proof. unfold Backend.post. destruct a; reflexivity. Qed.

Lemma world_size_sync_barrier (a : bool) (st : engine) :
  world_size (Backend.sync_barrier a st) = world_size st.
Proof.
  unfold Backend.sync_barrier.
  rewrite world_size_complete_accel_ops.
  change (fst ?p) with (p.1). rewrite world_size_post. reflexivity.
Qed.

Lemma world_size_wait (st : engine) :
  world_size (Backend.wait st) = world_size st.
Proof.
  unfold Backend.wait, Backend.complete_single_op.
  destruct (length (waitObjIds st) =? 0)%nat.
  - destruct (waitObj st) as [|[h|] q]; reflexivity.
  - destruct (PyDict.get _ _) as [[h|]|]; reflexivity.
Qed.

Lemma world_size_call (fn : backend_fn) (a : bool) (st st' : engine)
    (r : option handle) :
  Backend.call fn a st = Ok (st', r) -> world_size st' = world_size st.
Proof.
  destruct fn; cbn; intros H; try discriminate.
  - injection H as H. pose proof (world_size_post a st) as Q.
    rewrite H in Q. exact Q.
  - injection H as <- _. apply world_size_wait.
  - injection H as <- _. reflexivity.
Qed.

Section Facts.
Variable paramToCommName : string -> string.
Variable coll_ns barrier_ns : nat -> Q.
Variable cfg : config.

Lemma world_size_runComms (cnt : nat) (collName : string) (c : commsArgs)
    (st st' : engine) (lat : Q * Q) :
  runComms coll_ns barrier_ns cfg cnt collName c st = Ok (st', lat) ->
  world_size st' = world_size st.
Proof.
  unfold runComms. intros H.
  apply bind_Ok in H as ([st2 bound] & Hcall & H).
  apply bind_Ok in H as (st4 & Hreg & H).
  assert (E0 : world_size (if is_blocking cfg
                           then Backend.sync_barrier (asyncOp cfg) st else st)
               = world_size st).
  { destruct (is_blocking cfg); [apply world_size_sync_barrier|reflexivity]. }
  assert (E2 : world_size st2 = world_size st).
  { destruct (PyDict.get (collectiveFunc cfg) collName) as [fn|].
    - apply bind_Ok in Hcall as ([st2' r] & Hfn & Hcall).
      injection Hcall as <- _. apply world_size_call in Hfn.
      cbn [world_size emit]. rewrite Hfn.
      destruct (negb (is_none (req c))); cbn [world_size emit set_collectiveId];
        exact E0.
    - injection Hcall as <- _. exact E0. }
  assert (E4 : world_size st4 = world_size st).
  { destruct (_ && _) in Hreg.
    - destruct bound; [|discriminate]. injection Hreg as <-.
      cbn [world_size set_waitObjIds].
      rewrite world_size_complete_accel_ops. exact E2.
    - injection Hreg as <-. rewrite world_size_complete_accel_ops. exact E2. }
  destruct (is_blocking cfg); injection H as <- _;
    [rewrite world_size_sync_barrier|]; exact E4.
Qed.

(** With auto-shrink, [collectiveArgs.world_size] keeps the value that
    [setBench] gave it, the live world size, through the measured pass. *)
Lemma world_size_replayLoop (ops : list commsArgs) :
  shrink cfg = true ->
  forall (cnt : nat) (st st' : engine) (ops' : list commsArgs),
    replayLoop paramToCommName coll_ns barrier_ns cfg cnt ops st
    = Ok (st', ops') ->
    world_size st' = world_size st.
Proof.
  intros Hs. induction ops as [|c rest IH]; intros cnt st st' ops' H;
    cbn [replayLoop] in H.
  - injection H as <- _. reflexivity.
  - apply bind_Ok in H as ([st1 c1] & H1 & H).
    apply bind_Ok in H as ([st2 rest1] & H2 & H).
    injection H as <- _. apply IH in H2. rewrite H2.
    unfold replayOne in H1.
    apply bind_Ok in H1 as (r & _ & H1).
    destruct (skipped cfg (paramToCommName (comms c)) r).
    + injection H1 as <- _. reflexivity.
    + apply bind_Ok in H1 as ([st3 c3] & Hprep & H1).
      apply bind_Ok in H1 as ([st4 lat] & Hrun & H1).
      destruct (collLat st4 !! paramToCommName (comms c)); [|discriminate].
      injection H1 as <- _. cbn [world_size record_perf].
      apply world_size_runComms in Hrun. rewrite Hrun.
      unfold prepComms in Hprep. rewrite Hs, andb_false_r in Hprep.
      rewrite (surjective_pairing (st3, c3)) in Hprep.
      repeat inv_ok_step; subst; reflexivity.
Qed.

Lemma quiet_prepComms (c c' : commsArgs) (st st' : engine) :
  prepComms paramToCommName cfg c st = Ok (st', c') -> quiet st st'.
Proof.
  unfold prepComms. intros H.
  rewrite (surjective_pairing (st', c')) in H.
  repeat inv_ok_step; subst; quiet_step.
Qed.

(** [runComms] logs the dispatch of the record exactly when the backend
    has a function for the kind, and writes no statistics. *)
Lemma runComms_dispatch (cnt : nat) (collName : string) (c : commsArgs)
    (st st' : engine) (lat : Q * Q) :
  runComms coll_ns barrier_ns cfg cnt collName c st = Ok (st', lat) ->
  dispatched (events st')
  = dispatched (events st)
    ++ (if PyDict.mem (collectiveFunc cfg) collName then [seqnum c] else [])
  /\ collLat st' = collLat st
  /\ collInMsgSizes st' = collInMsgSizes st
  /\ collOutMsgSizes st' = collOutMsgSizes st
  /\ traceWithPerf st' = traceWithPerf st.
Proof.
  unfold runComms, PyDict.mem. intros H.
  apply bind_Ok in H as ([st2 bound] & Hcall & H).
  apply bind_Ok in H as (st4 & Hreg & H).
  set (st0 := if is_blocking cfg then Backend.sync_barrier (asyncOp cfg) st
              else st) in *.
  assert (Q0 : quiet st st0).
  { subst st0. destruct (is_blocking cfg);
      [apply quiet_sync_barrier | apply quiet_refl]. }
  assert (Q3 : quiet st2 (Backend.complete_accel_ops (is_blocking cfg) st2))
    by apply quiet_complete_accel_ops.
  assert (Q4 : quiet (Backend.complete_accel_ops (is_blocking cfg) st2) st4).
  { destruct (_ && _) in Hreg.
    - destruct bound; [|discriminate]. injection Hreg as <-. quiet_step.
    - injection Hreg as <-. apply quiet_refl. }
  assert (Q5 : quiet st4 st').
  { destruct (is_blocking cfg); injection H as <- _;
      [apply quiet_sync_barrier | apply quiet_refl]. }
  pose proof (quiet_trans _ _ _ Q3 (quiet_trans _ _ _ Q4 Q5)) as Q25.
  clear Q3 Q4 Q5 H Hreg.
  destruct Q0 as (D0 & L0 & I0 & O0 & T0).
  destruct Q25 as (D2 & L2 & I2 & O2 & T2).
  rewrite D2, L2, I2, O2, T2.
  destruct (PyDict.get (collectiveFunc cfg) collName) as [fn|].
  - apply bind_Ok in Hcall as ([st2' r] & Hfn & Hcall).
    injection Hcall as <- _.
    apply quiet_call in Hfn. destruct Hfn as (D1 & L1 & I1 & O1 & T1).
    cbn [events emit collLat collInMsgSizes collOutMsgSizes traceWithPerf].
    rewrite dispatched_app, D1, L1, I1, O1, T1.
    assert (E : forall s : engine,
               dispatched (events (emit [EvDispatch (seqnum c) collName] s))
               = dispatched (events s) ++ [seqnum c]).
    { intros s. cbn. rewrite dispatched_app. reflexivity. }
    destruct (negb (is_none (req c)));
      rewrite E; cbn [collLat collInMsgSizes collOutMsgSizes traceWithPerf
                       emit set_collectiveId events];
      rewrite D0, L0, I0, O0, T0, app_nil_r; auto.
  - injection Hcall as <- _. cbn. rewrite dispatched_app. cbn.
    rewrite D0, L0, I0, O0, T0. auto.
Qed.

Lemma entries_insert {A : Type} (m : gmap string (list A)) (k kind : string)
    (l : list A) :
  entries (<[k := l]> m) kind
  = if String.eqb k kind then length l else entries m kind.
Proof.
  unfold entries. rewrite lookup_insert.
  destruct (String.eqb_spec k kind); case_decide; congruence.
Qed.

Lemma passes_gate_Ok (c : commsArgs) (r : Z) :
  getCommGroupInfo cfg c = Ok r ->
  passes_gate paramToCommName cfg c
  = negb (skipped cfg (paramToCommName (comms c)) r).
Proof. unfold passes_gate. intros ->. reflexivity. Qed.

(** One turn of the loop of [replayTrace]. *)
Lemma replayOne_effect (cnt : nat) (c c' : commsArgs) (st st' : engine) :
  replayOne paramToCommName coll_ns barrier_ns cfg cnt c st = Ok (st', c') ->
  dispatched (events st')
  = dispatched (events st)
    ++ (if passes_gate paramToCommName cfg c && supported paramToCommName cfg c
        then [seqnum c] else [])
  /\ (forall kind,
        entries (collLat st') kind
        = (entries (collLat st) kind
           + if passes_gate paramToCommName cfg c
                && of_kind paramToCommName kind c
             then 1 else 0)%nat)
  /\ collInMsgSizes st' = collInMsgSizes st
  /\ collOutMsgSizes st' = collOutMsgSizes st
  /\ (passes_gate paramToCommName cfg c = false -> st' = st /\ c' = c).
Proof.
  unfold replayOne. intros H.
  apply bind_Ok in H as (r & Hg & H).
  rewrite (passes_gate_Ok c r Hg).
  destruct (skipped cfg (paramToCommName (comms c)) r).
  - injection H as <- <-. cbn [negb andb]. rewrite app_nil_r.
    repeat split; auto.
  - cbn [negb andb].
    apply bind_Ok in H as ([st1 c1] & Hprep & H).
    apply bind_Ok in H as ([st2 lat] & Hrun & H).
    destruct (collLat st2 !! paramToCommName (comms c)) as [lats|] eqn:Hl;
      [|discriminate].
    injection H as <- <-.
    pose proof (prepComms_identity _ _ _ _ _ _ Hprep) as Hid.
    apply quiet_prepComms in Hprep. destruct Hprep as (D1 & L1 & I1 & O1 & _).
    apply runComms_dispatch in Hrun. destruct Hrun as (D2 & L2 & I2 & O2 & _).
    cbn [events record_perf collLat collInMsgSizes collOutMsgSizes].
    rewrite D2, D1, I2, I1, O2, O1.
    replace (seqnum c1) with (seqnum c) by exact (f_equal seqnum (eq_sym Hid)).
    split; [reflexivity|]. split; [|split; [reflexivity|]; split;
                                     [reflexivity|discriminate]].
    intros kind. rewrite entries_insert. unfold of_kind.
    destruct (String.eqb_spec (paramToCommName (comms c)) kind) as [<-|].
    + unfold entries. rewrite <- L1, <- L2, Hl, length_app. reflexivity.
    + rewrite L2, L1. lia.
Qed.

Lemma replayLoop_effect (ops : list commsArgs) :
  forall (cnt : nat) (st st' : engine) (ops' : list commsArgs),
    replayLoop paramToCommName coll_ns barrier_ns cfg cnt ops st
    = Ok (st', ops') ->
    dispatched (events st')
    = dispatched (events st)
      ++ map seqnum
           (List.filter (fun c => passes_gate paramToCommName cfg c
                             && supported paramToCommName cfg c) ops)
    /\ (forall kind,
          entries (collLat st') kind
          = (entries (collLat st) kind
             + length (List.filter (fun c => passes_gate paramToCommName cfg c
                                        && of_kind paramToCommName kind c)
                         ops))%nat)
    /\ collInMsgSizes st' = collInMsgSizes st
    /\ collOutMsgSizes st' = collOutMsgSizes st.
Proof.
  induction ops as [|c rest IH]; intros cnt st st' ops' H;
    cbn [replayLoop] in H.
  - injection H as <- _. cbn. rewrite app_nil_r.
    repeat split; auto.
  - apply bind_Ok in H as ([st1 c1] & H1 & H).
    apply bind_Ok in H as ([st2 rest1] & H2 & H).
    injection H as <- _.
    apply replayOne_effect in H1. destruct H1 as (D1 & L1 & I1 & O1 & _).
    apply IH in H2. destruct H2 as (D2 & L2 & I2 & O2).
    rewrite D2, D1, I2, I1, O2, O1. split; [|split; [|auto]].
    + rewrite <- app_assoc. f_equal.
      cbn [List.filter].
      destruct (passes_gate paramToCommName cfg c
                && supported paramToCommName cfg c); reflexivity.
    + intros kind. rewrite L2, L1. cbn [List.filter].
      destruct (passes_gate paramToCommName cfg c
                && of_kind paramToCommName kind c); cbn [length]; lia.
Qed.

(** One turn of the loop of [initTraceStat]: a size entry for every
    record that has sizes, no latency entry, no backend call. *)
Lemma statOne_effect (c : commsArgs) (st st' : engine) :
  statOne paramToCommName c st = Ok st' ->
  stats_wf st ->
  stats_wf st'
  /\ events st' = events st
  /\ (forall kind, entries (collLat st') kind = entries (collLat st) kind)
  /\ (forall kind,
        entries (collInMsgSizes st') kind
        = (entries (collInMsgSizes st) kind
           + if of_kind paramToCommName kind c && has_sizes c
             then 1 else 0)%nat).
Proof.
  unfold statOne, stats_wf, of_kind, has_sizes. intros H Hwf.
  set (name := paramToCommName (comms c)) in *.
  destruct (collLat st !! name) as [l|] eqn:Hl.
  - destruct (negb (is_none (inMsgSize c))).
    + destruct (collInMsgSizes st !! name) as [ins|] eqn:Hi; [|discriminate].
      destruct (collOutMsgSizes st !! name) as [outs|]; [|discriminate].
      apply bind_Ok in H as (? & _ & H). apply bind_Ok in H as (? & _ & H).
      injection H as <-. cbn. repeat split; auto.
      * intros kind Hk. rewrite lookup_insert_ne; [auto|congruence].
      * intros kind. rewrite entries_insert.
        destruct (String.eqb_spec name kind) as [<-|]; cbn.
        -- unfold entries. rewrite Hi, length_app. reflexivity.
        -- lia.
    + injection H as <-. repeat split; auto.
      intros kind. rewrite andb_false_r. lia.
  - pose proof (Hwf name Hl) as Hi.
    destruct (negb (is_none (inMsgSize c))); cbn in H.
    + rewrite !lookup_insert_eq in H.
      apply bind_Ok in H as (? & _ & H). apply bind_Ok in H as (? & _ & H).
      injection H as <-. cbn. repeat split; auto.
      * intros kind. rewrite !lookup_insert.
        repeat case_decide; try congruence. apply Hwf.
      * intros kind. rewrite entries_insert.
        destruct (String.eqb_spec name kind) as [<-|]; [|reflexivity].
        unfold entries. rewrite Hl. reflexivity.
      * intros kind. rewrite !entries_insert.
        destruct (String.eqb_spec name kind) as [<-|]; cbn; [|lia].
        unfold entries. rewrite Hi. reflexivity.
    + injection H as <-. cbn. repeat split; auto.
      * intros kind. rewrite lookup_insert. case_decide; [discriminate|].
        apply Hwf.
      * intros kind. rewrite entries_insert.
        destruct (String.eqb_spec name kind) as [<-|]; [|reflexivity].
        unfold entries. rewrite Hl. reflexivity.
      * intros kind. rewrite andb_false_r. lia.
Qed.

Lemma statLoop_effect (ops : list commsArgs) :
  forall st st' : engine,
    statLoop paramToCommName ops st = Ok st' ->
    stats_wf st ->
    events st' = events st
    /\ (forall kind, entries (collLat st') kind = entries (collLat st) kind)
    /\ (forall kind,
          entries (collInMsgSizes st') kind
          = (entries (collInMsgSizes st) kind
             + length (List.filter (fun c => of_kind paramToCommName kind c
                                             && has_sizes c) ops))%nat).
Proof.
  induction ops as [|c rest IH]; intros st st' H Hwf; cbn [statLoop] in H.
  - injection H as <-. cbn. repeat split; auto.
  - apply bind_Ok in H as (st1 & H1 & H).
    apply statOne_effect in H1; [|exact Hwf].
    destruct H1 as (Hwf1 & E1 & L1 & I1).
    apply IH in H; [|exact Hwf1]. destruct H as (E2 & L2 & I2).
    split; [congruence|]. split.
    + intros kind. rewrite L2. apply L1.
    + intros kind. rewrite I2, I1. cbn [List.filter].
      destruct (of_kind paramToCommName kind c && has_sizes c);
        cbn [length]; lia.
Qed.

(** C5, amended. Among the records of the replay window (the first
    [max_msg_cnt] ones), those dispatched to the backend are exactly the
    ones whose kind is in the allow-list, whose resolved group contains
    the local rank, and for whose kind the backend has a function; a
    latency entry is recorded for each record that passes the first two
    tests; size entries come from the first pass, one per record with
    sizes, skipped or not; and a record that fails the gate leaves the
    whole state as it was: no backend call, no entry. *)
Theorem skip_preserving_replay (trace ops : list commsArgs)
    (st0 st1 st2 : engine) :
  stats_wf st0 ->
  initTraceStat paramToCommName cfg trace st0 = Ok st1 ->
  replayTrace paramToCommName coll_ns barrier_ns cfg trace st1
  = Ok (st2, ops) ->
  dispatched (events st2)
  = dispatched (events st0)
    ++ map seqnum
         (List.filter (fun c => passes_gate paramToCommName cfg c
                                && supported paramToCommName cfg c)
            (window cfg trace))
  /\ (forall kind,
        entries (collLat st2) kind
        = (entries (collLat st0) kind
           + length (List.filter
                       (fun c => passes_gate paramToCommName cfg c
                                 && of_kind paramToCommName kind c)
                       (window cfg trace)))%nat
        /\ entries (collInMsgSizes st2) kind
           = (entries (collInMsgSizes st0) kind
              + length (List.filter
                          (fun c => of_kind paramToCommName kind c
                                    && has_sizes c)
                          (window cfg trace)))%nat)
  /\ (forall (cnt : nat) (c c' : commsArgs) (st st' : engine),
        passes_gate paramToCommName cfg c = false ->
        replayOne paramToCommName coll_ns barrier_ns cfg cnt c st
        = Ok (st', c') ->
        st' = st /\ c' = c).
Proof.
  unfold initTraceStat, replayTrace. intros Hwf Hstat Hrep.
  apply statLoop_effect in Hstat; [|exact Hwf].
  destruct Hstat as (E1 & L1 & I1).
  apply replayLoop_effect in Hrep. destruct Hrep as (D2 & L2 & I2 & _).
  split; [rewrite D2, E1; reflexivity|]. split.
  - intros kind. split.
    + rewrite L2, L1. reflexivity.
    + rewrite I2. apply I1.
  - intros cnt c c' st st' Hgate H.
    apply replayOne_effect in H. destruct H as (_ & _ & _ & _ & H). auto.
Qed.

(** The pair of latencies that [runComms] returns. *)
Lemma runComms_latency (cnt : nat) (collName : string) (c : commsArgs)
    (st st' : engine) (lat : Q * Q) :
  runComms coll_ns barrier_ns cfg cnt collName c st = Ok (st', lat) ->
  lat = ((coll_ns cnt / 1000)%Q,
         if is_blocking cfg
         then (coll_ns cnt / 1000 + barrier_ns cnt / 1000)%Q
         else (coll_ns cnt / 1000)%Q).
Proof.
  unfold runComms. intros H.
  apply bind_Ok in H as ([st2 bound] & _ & H).
  apply bind_Ok in H as (st4 & _ & H).
  destruct (is_blocking cfg); injection H as _ <-; reflexivity.
Qed.

Lemma replayOne_perf (cnt : nat) (c c' : commsArgs) (st st' : engine) :
  (forall n, (0 <= barrier_ns n)%Q) ->
  replayOne paramToCommName coll_ns barrier_ns cfg cnt c st = Ok (st', c') ->
  exists new,
    traceWithPerf st' = traceWithPerf st ++ new
    /\ Forall (fun r => exists n,
                 latency_accounted (is_blocking cfg) (barrier_ns n) r) new.
Proof.
  unfold replayOne. intros Hmono H.
  apply bind_Ok in H as (r & Hg & H).
  destruct (skipped cfg (paramToCommName (comms c)) r).
  - injection H as <- _. exists []. rewrite app_nil_r. auto.
  - apply bind_Ok in H as ([st1 c1] & Hprep & H).
    apply bind_Ok in H as ([st2 lat] & Hrun & H).
    destruct (collLat st2 !! paramToCommName (comms c)) as [lats|];
      [|discriminate].
    injection H as <- _.
    apply quiet_prepComms in Hprep. destruct Hprep as (_ & _ & _ & _ & T1).
    pose proof (runComms_latency _ _ _ _ _ _ Hrun) as ->.
    apply runComms_dispatch in Hrun. destruct Hrun as (_ & _ & _ & _ & T2).
    eexists. cbn [traceWithPerf record_perf]. rewrite T2, T1.
    split; [reflexivity|]. constructor; [|constructor].
    exists cnt. unfold latency_accounted. cbn [fst snd].
    destruct (is_blocking cfg); cbn [latency_us global_latency_us].
    + split; [|reflexivity]. specialize (Hmono cnt).
      assert (0 <= barrier_ns cnt / 1000)%Q.
      { apply Qle_shift_div_l; [reflexivity|]. rewrite Qmult_0_l. exact Hmono. }
      lra.
    + reflexivity.
Qed.

(** C6. A monotonic clock measures no negative interval; then every
    record that [replayTrace] appends to [traceWithPerf] has, in
    blocking mode, a [latency_us] that is at most its
    [global_latency_us], which is that latency plus the duration of the
    closing barrier, and in non-blocking mode the two are equal. *)
Theorem latency_accounting (trace ops : list commsArgs) (st st' : engine) :
  (forall n, (0 <= barrier_ns n)%Q) ->
  replayTrace paramToCommName coll_ns barrier_ns cfg trace st
  = Ok (st', ops) ->
  exists new,
    traceWithPerf st' = traceWithPerf st ++ new
    /\ Forall (fun r => exists n,
                 latency_accounted (is_blocking cfg) (barrier_ns n) r) new.
Proof.
  unfold replayTrace. intros Hmono.
  generalize 0%nat as cnt. revert st st' ops.
  induction (window cfg trace) as [|c rest IH]; intros st st' ops cnt H;
    cbn [replayLoop] in H.
  - injection H as <- _. exists []. rewrite app_nil_r. auto.
  - apply bind_Ok in H as ([st1 c1] & H1 & H).
    apply bind_Ok in H as ([st2 rest1] & H2 & H).
    injection H as <- _.
    apply (replayOne_perf _ _ _ _ _ Hmono) in H1 as (new1 & T1 & F1).
    apply IH in H2 as (new2 & T2 & F2).
    exists (new1 ++ new2). rewrite T2, T1, app_assoc.
    split; [reflexivity|]. apply Forall_app. auto.
Qed.
End Facts.

(** C5 as stated fails on [four_records]: the allowed [exotic_op] passes
    the gate and is not dispatched, the second [all_reduce] lies beyond
    [max_msg_cnt], and the skipped [broadcast] has its size entry. *)
Lemma replay_dispatch_differs_from_gate :
  exists st ops,
    stat_and_replay allow_exotic four_records = Ok (st, ops)
    /\ dispatched (events st) = [0%nat]
    /\ map seqnum (List.filter (passes_gate (fun s => s) allow_exotic)
                     four_records) = [0%nat; 1%nat; 3%nat]
    /\ passes_gate (fun s => s) allow_exotic
         (coll_op 2 "broadcast" PyNone (PyInt 2) 32 32) = false
    /\ entries (collInMsgSizes st) "broadcast" = 1%nat
    /\ (skip_preserving_as_stated (fun s => s) allow_exotic four_records st
        -> False).
Proof.
  eexists _, _. split; [vm_compute; reflexivity|].
  split; [vm_compute; reflexivity|].
  split; [vm_compute; reflexivity|].
  split; [vm_compute; reflexivity|].
  split; [vm_compute; reflexivity|].
  intros [H _]. vm_compute in H. discriminate H.
Qed.

Lemma skip_preserving_replay_witness :
  dispatched (events exotic_replay.1)
  = dispatched (events (fresh_engine 2))
    ++ map seqnum
         (List.filter (fun c => passes_gate (fun s => s) allow_exotic c
                                && supported (fun s => s) allow_exotic c)
            (window allow_exotic four_records))
  /\ (forall kind,
        entries (collLat exotic_replay.1) kind
        = (entries (collLat (fresh_engine 2)) kind
           + length (List.filter
                       (fun c => passes_gate (fun s => s) allow_exotic c
                                 && of_kind (fun s => s) kind c)
                       (window allow_exotic four_records)))%nat
        /\ entries (collInMsgSizes exotic_replay.1) kind
           = (entries (collInMsgSizes (fresh_engine 2)) kind
              + length (List.filter
                          (fun c => of_kind (fun s => s) kind c
                                    && has_sizes c)
                          (window allow_exotic four_records)))%nat)
  /\ (forall (cnt : nat) (c c' : commsArgs) (st st' : engine),
        passes_gate (fun s => s) allow_exotic c = false ->
        replayOne (fun s => s) one_us one_us allow_exotic cnt c st
        = Ok (st', c') ->
        st' = st /\ c' = c).
Proof.
  apply (skip_preserving_replay (fun s => s) one_us one_us allow_exotic
           four_records exotic_replay.2 (fresh_engine 2) exotic_stat
           exotic_replay.1).
  - intros kind _. reflexivity.
  - vm_compute. reflexivity.
  - vm_compute. reflexivity.
Defined.

Lemma world_size_replayLoop_witness :
  world_size shrink_replayed.1 = PyInt 4
  /\ map inMsgSize shrink_replayed.2 = [PyInt 512; PyInt 8].
Proof.
  split; [|vm_compute; reflexivity].
  apply (world_size_replayLoop (fun s => s) one_us one_us shrink_replay
           recorded_on_8 eq_refl 0%nat
           (ok_or (fresh_engine 4)
              (initTraceStat (fun s => s) shrink_replay recorded_on_8
                 (fresh_engine 4)))
           shrink_replayed.1 shrink_replayed.2).
  vm_compute. reflexivity.
Defined.

Lemma latency_accounting_witness :
  exists new,
    traceWithPerf exotic_replay.1 = traceWithPerf exotic_stat ++ new
    /\ Forall (fun r => exists n,
                 latency_accounted (is_blocking allow_exotic) (one_us n) r)
         new.
Proof.
  apply (latency_accounting (fun s => s) one_us one_us allow_exotic
           four_records exotic_replay.2 exotic_stat exotic_replay.1).
  - intros n. vm_compute. discriminate.
  - vm_compute. reflexivity.
Defined.
End ReplayFacts.

(** ** More on trace normalization *)

Module NormalizerMore.
Import Normalizer Scenario Cases NormalizerFacts.

Section Facts.
Variable paramToCommName : string -> string.

(** A record that [extractCommsInfo] accepts is readable; its kind is
    the canonical name of its lower-cased ["comms"] string, its number is
    its position, the sizes, dtype and splits are those of the input when
    the kind asks for them and [None] otherwise. *)
Lemma extractOne_Ok (cnt : nat) (curComm : gmap string py) (c : commsArgs) :
  extractOne paramToCommName cnt curComm = Ok c ->
  readable_record paramToCommName curComm = true
  /\ seqnum c = cnt
  /\ (exists s, curComm !! "comms" = Some (PyStr s)
               /\ comms c = paramToCommName (lower s))
  /\ (if in_tuple (comms c) ["wait"; "barrier"; "init"]
      then inMsgSize c = PyNone /\ outMsgSize c = PyNone /\ dtype c = PyNone
      else curComm !! "in_msg_size" = Some (inMsgSize c)
           /\ curComm !! "out_msg_size" = Some (outMsgSize c)
           /\ curComm !! "dtype" = Some (dtype c))
  /\ (if str_contains "all_to_allv" (comms c)
      then curComm !! "in_split" = Some (inSplit c)
           /\ curComm !! "out_split" = Some (outSplit c)
      else inSplit c = PyNone /\ outSplit c = PyNone).
Proof.
  unfold extractOne, readable_record, getitem at 1. intros H.
  destruct (curComm !! "comms") as [[| |s| |]|] eqn:Hc; try discriminate.
  cbn [bind] in H.
  apply bind_Ok in H as ([[i o] d] & Hsz & H).
  apply bind_Ok in H as ([a b] & Hsp & H).
  injection H as <-. cbn [comms seqnum inMsgSize outMsgSize dtype inSplit outSplit].
  set (name := paramToCommName (lower s)) in *.
  assert (G : forall k v, getitem curComm k = Ok v ->
                          has_key curComm k = true /\ curComm !! k = Some v).
  { intros k v E. unfold getitem, has_key in *.
    destruct (curComm !! k) as [w|]; [|discriminate].
    injection E as <-. split; [|reflexivity].
    apply bool_decide_eq_true. eauto. }
  destruct (in_tuple name ["wait"; "barrier"; "init"]) eqn:Hk;
    cbn [negb orb andb] in *;
  destruct (str_contains "all_to_allv" name) eqn:Hv; cbn [negb orb andb] in *.
  - injection Hsz as <- <- <-.
    apply bind_Ok in Hsp as (x & Ha & Hsp). apply bind_Ok in Hsp as (y & Hb & Hsp).
    injection Hsp as <- <-. destruct (G _ _ Ha) as [-> ?], (G _ _ Hb) as [-> ?].
    repeat split; eauto.
  - injection Hsz as <- <- <-. injection Hsp as <- <-. repeat split; eauto.
  - apply bind_Ok in Hsz as (x & Hi & Hsz). apply bind_Ok in Hsz as (y & Ho & Hsz).
    apply bind_Ok in Hsz as (z & Hd & Hsz). injection Hsz as <- <- <-.
    apply bind_Ok in Hsp as (x' & Ha & Hsp). apply bind_Ok in Hsp as (y' & Hb & Hsp).
    injection Hsp as <- <-.
    destruct (G _ _ Hi) as [-> ?], (G _ _ Ho) as [-> ?], (G _ _ Hd) as [-> ?],
             (G _ _ Ha) as [-> ?], (G _ _ Hb) as [-> ?].
    repeat split; eauto.
  - apply bind_Ok in Hsz as (x & Hi & Hsz). apply bind_Ok in Hsz as (y & Ho & Hsz).
    apply bind_Ok in Hsz as (z & Hd & Hsz). injection Hsz as <- <- <-.
    injection Hsp as <- <-.
    destruct (G _ _ Hi) as [-> ?], (G _ _ Ho) as [-> ?], (G _ _ Hd) as [-> ?].
    repeat split; eauto.
Qed.

Lemma extractFrom_Ok (in_trace : list (gmap string py)) :
  forall (cnt : nat) (out : list commsArgs),
    extractFrom paramToCommName cnt in_trace = Ok out ->
    Forall2 (fun curComm c =>
               extractOne paramToCommName (seqnum c) curComm = Ok c)
            in_trace out.
Proof.
  induction in_trace as [|curComm rest IH]; intros cnt out H;
    cbn [extractFrom] in H.
  - injection H as <-. constructor.
  - apply bind_Ok in H as (c & Hc & H). apply bind_Ok in H as (tl & Htl & H).
    injection H as <-. constructor; [|eauto].
    destruct (extractOne_Ok _ _ _ Hc) as (_ & -> & _). exact Hc.
Qed.

Lemma getitem_cases (curComm : gmap string py) (k : string) :
  (exists v, getitem curComm k = Ok v /\ has_key curComm k = true)
  \/ (getitem curComm k = Raise (KeyError (PyStr k))
      /\ curComm !! k = None /\ has_key curComm k = false).
Proof.
  unfold getitem, has_key. destruct (curComm !! k) as [v|].
  - left. exists v. split; [reflexivity|]. apply bool_decide_eq_true. eauto.
  - right. split; [reflexivity|]. split; [reflexivity|].
    apply bool_decide_eq_false. intros [? [=]].
Qed.

(** A record that is not readable makes the loop body raise: an
    [AttributeError] when ["comms"] is not a string, the [KeyError] of a
    subscripted key that the record lacks otherwise. *)
Lemma extractOne_unreadable (cnt : nat) (curComm : gmap string py) :
  readable_record paramToCommName curComm = false ->
  exists e,
    extractOne paramToCommName cnt curComm = Raise e
    /\ (e = AttributeError
        \/ exists k, e = KeyError (PyStr k) /\ curComm !! k = None
                     /\ In k subscripted).
Proof.
  unfold readable_record, extractOne, getitem at 1, subscripted.
  destruct (curComm !! "comms") as [[| |s| |]|] eqn:Hc; cbn [bind];
    try (intros _; eexists; split; [reflexivity|]; left; reflexivity).
  2:{ intros _. eexists. split; [reflexivity|]. right. exists "comms".
      cbn. auto. }
  set (name := paramToCommName (lower s)).
  pose proof (getitem_cases curComm "in_msg_size") as Gi.
  pose proof (getitem_cases curComm "out_msg_size") as Go.
  pose proof (getitem_cases curComm "dtype") as Gd.
  pose proof (getitem_cases curComm "in_split") as Ga.
  pose proof (getitem_cases curComm "out_split") as Gb.
  assert (K : forall k, In k ["in_msg_size"; "out_msg_size"; "dtype";
                               "in_split"; "out_split"] ->
              curComm !! k = None ->
              exists e, Raise (KeyError (PyStr k)) = @Raise commsArgs e
                /\ (e = AttributeError
                    \/ exists k', e = KeyError (PyStr k')
                                  /\ curComm !! k' = None
                                  /\ In k' ["comms"; "in_msg_size";
                                            "out_msg_size"; "dtype";
                                            "in_split"; "out_split"])).
  { intros k Hk Hn. eexists. split; [reflexivity|]. right. exists k.
    repeat split; auto. right. exact Hk. }
  intros H.
  destruct (in_tuple name ["wait"; "barrier"; "init"]);
    cbn [negb orb andb bind] in *.
  - destruct (str_contains "all_to_allv" name); cbn [negb orb] in H;
      [|discriminate].
    destruct Ga as [(a & -> & Ea)|(-> & Na & Ea)]; cbn [bind];
      [|apply K; cbn; auto].
    destruct Gb as [(b & -> & Eb)|(-> & Nb & Eb)]; cbn [bind];
      [|apply K; cbn; auto 6].
    rewrite Ea, Eb in H. discriminate.
  - destruct Gi as [(i & -> & Ei)|(-> & Ni & Ei)]; cbn [bind];
      [|apply K; cbn; auto].
    destruct Go as [(o & -> & Eo)|(-> & No & Eo)]; cbn [bind];
      [|apply K; cbn; auto].
    destruct Gd as [(d & -> & Ed)|(-> & Nd & Ed)]; cbn [bind];
      [|apply K; cbn; auto].
    rewrite Ei, Eo, Ed in H. cbn [andb] in H.
    destruct (str_contains "all_to_allv" name); cbn [negb orb] in H;
      [|discriminate].
    destruct Ga as [(a & -> & Ea)|(-> & Na & Ea)]; cbn [bind];
      [|apply K; cbn; auto].
    destruct Gb as [(b & -> & Eb)|(-> & Nb & Eb)]; cbn [bind];
      [|apply K; cbn; auto 6].
    rewrite Ea, Eb in H. discriminate.
Qed.

(** The normalizer returns only on traces all of whose records carry
    every field that the code reads.  On any other trace it raises, and
    the exception is an [AttributeError] (a ["comms"] that is not a
    string) or the [KeyError] of one of the six subscripted keys, which
    some record of the trace lacks. *)
Theorem extractCommsInfo_unreadable_raises
    (in_trace : list (gmap string py)) :
  forallb (readable_record paramToCommName) in_trace = false ->
  exists e,
    extractCommsInfo paramToCommName in_trace = Raise e
    /\ (e = AttributeError
        \/ exists k curComm,
             e = KeyError (PyStr k) /\ In curComm in_trace
             /\ curComm !! k = None /\ In k subscripted).
Proof.
  unfold extractCommsInfo. generalize 0%nat.
  induction in_trace as [|curComm rest IH]; intros cnt H; cbn [forallb] in H;
    [discriminate|].
  cbn [extractFrom].
  destruct (readable_record paramToCommName curComm) eqn:R.
  - destruct (extractOne_readable paramToCommName cnt curComm R)
      as (c & -> & _).
    cbn [bind]. cbn [andb] in H.
    destruct (IH (S cnt) H) as (e & -> & He). cbn [bind].
    exists e. split; [reflexivity|].
    destruct He as [->|(k & r & -> & Hin & Hk & Hs)]; [auto|].
    right. exists k, r. repeat split; auto. right. exact Hin.
  - destruct (extractOne_unreadable cnt curComm R) as (e & -> & He).
    cbn [bind]. exists e. split; [reflexivity|].
    destruct He as [->|(k & -> & Hk & Hs)]; [auto|].
    right. exists k, curComm. repeat split; auto. left. reflexivity.
Qed.

(** After normalization a [wait], [barrier] or [init] record has no
    sizes and no dtype, whatever its input record carried, a record whose
    kind does not occur in ["all_to_allv"] has no splits, and every other
    record has the sizes, dtype and splits of its input record. *)
Theorem extractCommsInfo_fields (in_trace : list (gmap string py))
    (out : list commsArgs) (i : nat) (curComm : gmap string py)
    (c : commsArgs) :
  extractCommsInfo paramToCommName in_trace = Ok out ->
  in_trace !! i = Some curComm ->
  out !! i = Some c ->
  (if in_tuple (comms c) ["wait"; "barrier"; "init"]
   then inMsgSize c = PyNone /\ outMsgSize c = PyNone /\ dtype c = PyNone
   else curComm !! "in_msg_size" = Some (inMsgSize c)
        /\ curComm !! "out_msg_size" = Some (outMsgSize c)
        /\ curComm !! "dtype" = Some (dtype c))
  /\ (if str_contains "all_to_allv" (comms c)
      then curComm !! "in_split" = Some (inSplit c)
           /\ curComm !! "out_split" = Some (outSplit c)
      else inSplit c = PyNone /\ outSplit c = PyNone).
Proof.
  intros H Hi Ho. apply extractFrom_Ok in H.
  pose proof (Forall2_lookup_lr _ _ _ _ _ _ H Hi Ho) as Hc.
  apply extractOne_Ok in Hc. destruct Hc as (_ & _ & _ & A & B). auto.
Qed.
End Facts.

Lemma extractCommsInfo_unreadable_raises_witness :
  exists e,
    extractCommsInfo (fun s => s) unreadable_trace = Raise e
    /\ (e = AttributeError
        \/ exists k curComm,
             e = KeyError (PyStr k) /\ In curComm unreadable_trace
             /\ curComm !! k = None /\ In k subscripted).
Proof.
  apply (extractCommsInfo_unreadable_raises (fun s => s) unreadable_trace).
  vm_compute. reflexivity.
Defined.

Lemma extractCommsInfo_fields_witness :
  (inMsgSize normalized_wait = PyNone /\ outMsgSize normalized_wait = PyNone
   /\ dtype normalized_wait = PyNone)
  /\ inSplit normalized_wait = PyNone /\ outSplit normalized_wait = PyNone.
Proof.
  apply (extractCommsInfo_fields (fun s => s) overfull_trace
           (ok_or [] (extractCommsInfo (fun s => s) overfull_trace))
           0%nat overfull_wait normalized_wait);
    vm_compute; reflexivity.
Defined.
End NormalizerMore.

(** ** The wait queue as a FIFO *)

Module QueueFacts.
Import Scenario Observe Cases.

Lemma awaited_by_app (src : await_src) (a b : list event) :
  awaited_by src (a ++ b) = awaited_by src a ++ awaited_by src b.
Proof. apply omap_app. Qed.

Lemma awaited_by_awaits (src src' : await_src) (q : list (option handle)) :
  awaited_by src (Backend.awaits src' q)
  = if same_src src' src then handles q else [].
Proof.
  unfold awaited_by, handles, Backend.awaits.
  induction q as [|[h|] q IH]; cbn.
  - destruct (same_src src' src); reflexivity.
  - rewrite IH. destruct (same_src src' src); reflexivity.
  - exact IH.
Qed.

Lemma complete_single_op_pops (st : engine) :
  waitObj (Backend.complete_single_op st) = drop 1 (waitObj st)
  /\ waitObjIds (Backend.complete_single_op st) = waitObjIds st
  /\ awaited_by ByCompleteSingleOp (events (Backend.complete_single_op st))
     = awaited_by ByCompleteSingleOp (events st)
       ++ handles (take 1 (waitObj st)).
Proof.
  unfold Backend.complete_single_op.
  destruct (waitObj st) as [|w q] eqn:E; cbn.
  - rewrite E, app_nil_r. auto.
  - split; [reflexivity|]. split; [reflexivity|].
    unfold awaited_by. rewrite !omap_app, take_0.
    destruct w; cbn; rewrite ?app_nil_r; reflexivity.
Qed.

Lemma wait_empty_registry (st : engine) :
  waitObjIds st = [] -> Backend.wait st = Backend.complete_single_op st.
Proof. intros H. unfold Backend.wait. rewrite H. reflexivity. Qed.

(** With an empty registry, [n] calls of [wait] take [n] entries off the
    front of the wait queue and wait on their handles in queue order;
    calls beyond the length of the queue do nothing. *)
Theorem wait_drains_fifo (n : nat) (st : engine) :
  waitObjIds st = [] ->
  waitObj (Nat.iter n Backend.wait st) = drop n (waitObj st)
  /\ waitObjIds (Nat.iter n Backend.wait st) = []
  /\ awaited_by ByCompleteSingleOp (events (Nat.iter n Backend.wait st))
     = awaited_by ByCompleteSingleOp (events st)
       ++ handles (take n (waitObj st)).
Proof.
  intros Hids. induction n as [|n (Hq & Hi & Hev)].
  - cbn [Nat.iter nat_rect]. rewrite drop_0, take_0. cbn. rewrite app_nil_r. auto.
  - change (Nat.iter (S n) Backend.wait st)
      with (Backend.wait (Nat.iter n Backend.wait st)).
    rewrite (wait_empty_registry _ Hi).
    destruct (complete_single_op_pops (Nat.iter n Backend.wait st))
      as (Pq & Pi & Pev).
    rewrite Pq, Pi, Pev, Hq, Hi, Hev, drop_drop.
    replace (n + 1)%nat with (S n) by lia.
    split; [reflexivity|]. split; [reflexivity|].
    rewrite <- app_assoc. f_equal.
    unfold handles. rewrite <- omap_app. f_equal.
    replace (S n) with (n + 1)%nat by lia.
    rewrite take_take_drop. reflexivity.
Qed.

Lemma wait_drains_fifo_witness :
  waitObj (Nat.iter 2 Backend.wait queued_engine)
  = drop 2 (waitObj queued_engine)
  /\ waitObjIds (Nat.iter 2 Backend.wait queued_engine) = []
  /\ awaited_by ByCompleteSingleOp
       (events (Nat.iter 2 Backend.wait queued_engine))
     = awaited_by ByCompleteSingleOp (events queued_engine)
       ++ handles (take 2 (waitObj queued_engine)).
Proof. apply (wait_drains_fifo 2 queued_engine). reflexivity. Defined.
End QueueFacts.

(** ** One replayed operation: exceptions and completion *)

Module RunFacts.
Import Bench Scenario Observe Cases QueueFacts.

Lemma PyDict_get_set {K V : Type} `{EqDecision K} (d : list (K * V))
    (k k' : K) (v : V) :
  PyDict.get (PyDict.set d k v) k'
  = if decide (k = k') then Some v else PyDict.get d k'.
Proof.
  induction d as [|[j w] d IH]; cbn.
  - reflexivity.
  - destruct (decide (j = k)) as [->|Hjk]; cbn.
    + destruct (decide (k = k')); reflexivity.
    + rewrite IH. destruct (decide (j = k')) as [->|]; [|reflexivity].
      destruct (decide (k = k')); congruence.
Qed.

Lemma is_none_false (v : py) : is_none v = false <-> v <> PyNone.
Proof. destruct v; cbn; split; congruence. Qed.

(** [idle st st']: from [st] to [st'] the first-in-queue fallback of
    [wait] has waited on nothing. *)
Lemma idle_complete_accel_ops (devSync : bool) (st : engine) :
  awaited_by ByCompleteSingleOp
    (events (Backend.complete_accel_ops devSync st))
  = awaited_by ByCompleteSingleOp (events st).
Proof.
  unfold Backend.complete_accel_ops.
  destruct devSync; cbn [events emit set_waitObj set_waitObjIds];
    rewrite ?awaited_by_app, awaited_by_awaits; cbn;
    rewrite ?app_nil_r; reflexivity.
Qed.

Lemma waitObj_complete_accel_ops (devSync : bool) (st : engine) :
  waitObj (Backend.complete_accel_ops devSync st) = [].
Proof. unfold Backend.complete_accel_ops. destruct devSync; reflexivity. Qed.

Lemma idle_post (a : bool) (st : engine) :
  awaited_by ByCompleteSingleOp (events (Backend.post a st).1)
  = awaited_by ByCompleteSingleOp (events st).
Proof. unfold Backend.post. destruct a; reflexivity. Qed.

Lemma idle_sync_barrier (a : bool) (st : engine) :
  awaited_by ByCompleteSingleOp (events (Backend.sync_barrier a st))
  = awaited_by ByCompleteSingleOp (events st).
Proof.
  unfold Backend.sync_barrier. rewrite idle_complete_accel_ops.
  change (fst ?p) with (p.1). rewrite idle_post.
  cbn [events emit]. rewrite awaited_by_app. cbn. apply app_nil_r.
Qed.

Lemma waitObj_sync_barrier (a : bool) (st : engine) :
  waitObj (Backend.sync_barrier a st) = [].
Proof. apply waitObj_complete_accel_ops. Qed.

Lemma idle_wait (st : engine) :
  waitObj st = [] ->
  awaited_by ByCompleteSingleOp (events (Backend.wait st))
  = awaited_by ByCompleteSingleOp (events st).
Proof.
  intros Hq. unfold Backend.wait, Backend.complete_single_op. rewrite Hq.
  destruct (length (waitObjIds st) =? 0)%nat; [reflexivity|].
  destruct (PyDict.get _ _) as [[h|]|]; cbn [events emit];
    rewrite ?awaited_by_app; cbn; rewrite ?app_nil_r; reflexivity.
Qed.

Lemma idle_call (fn : backend_fn) (a : bool) (st st' : engine)
    (r : option handle) :
  waitObj st = [] ->
  Backend.call fn a st = Ok (st', r) ->
  awaited_by ByCompleteSingleOp (events st')
  = awaited_by ByCompleteSingleOp (events st).
Proof.
  intros Hq. destruct fn; cbn; intros H; try discriminate.
  - injection H as H. pose proof (idle_post a st) as Q.
    rewrite H in Q. exact Q.
  - injection H as <- _. apply idle_wait. exact Hq.
  - injection H as <- _. reflexivity.
Qed.

Section Facts.
Variable paramToCommName : string -> string.
Variable coll_ns barrier_ns : nat -> Q.
Variable cfg : config.

(** When [runComms] returns, the wait queue is empty, and if it was
    empty before, the fallback of [wait] has waited on nothing. *)
Lemma runComms_idle (cnt : nat) (collName : string) (c : commsArgs)
    (st st' : engine) (lat : Q * Q) :
  runComms coll_ns barrier_ns cfg cnt collName c st = Ok (st', lat) ->
  waitObj st' = []
  /\ (waitObj st = [] ->
      awaited_by ByCompleteSingleOp (events st')
      = awaited_by ByCompleteSingleOp (events st)).
Proof.
  unfold runComms. intros H.
  apply bind_Ok in H as ([st2 bound] & Hcall & H).
  apply bind_Ok in H as (st4 & Hreg & H).
  set (st0 := if is_blocking cfg then Backend.sync_barrier (asyncOp cfg) st
              else st) in *.
  set (st3 := Backend.complete_accel_ops (is_blocking cfg) st2) in *.
  assert (Q4 : waitObj st4 = []
               /\ awaited_by ByCompleteSingleOp (events st4)
                  = awaited_by ByCompleteSingleOp (events st2)).
  { assert (waitObj st3 = []
            /\ awaited_by ByCompleteSingleOp (events st3)
               = awaited_by ByCompleteSingleOp (events st2)) as [A B].
    { subst st3. split; [apply waitObj_complete_accel_ops
                        | apply idle_complete_accel_ops]. }
    destruct (_ && _) in Hreg.
    - destruct bound; [|discriminate]. injection Hreg as <-. cbn. auto.
    - injection Hreg as <-. auto. }
  destruct Q4 as [W4 A4].
  assert (Q5 : waitObj st' = []
               /\ awaited_by ByCompleteSingleOp (events st')
                  = awaited_by ByCompleteSingleOp (events st4)).
  { destruct (is_blocking cfg); injection H as <- _.
    - split; [apply waitObj_sync_barrier | apply idle_sync_barrier].
    - auto. }
  destruct Q5 as [W5 A5]. split; [exact W5|].
  intros Hq. rewrite A5, A4. clear H Hreg W4 A4 W5 A5.
  assert (Q0 : waitObj st0 = []
               /\ awaited_by ByCompleteSingleOp (events st0)
                  = awaited_by ByCompleteSingleOp (events st)).
  { subst st0. destruct (is_blocking cfg).
    - split; [apply waitObj_sync_barrier | apply idle_sync_barrier].
    - auto. }
  destruct Q0 as [W0 A0].
  destruct (PyDict.get (collectiveFunc cfg) collName) as [fn|].
  - apply bind_Ok in Hcall as ([st2' r] & Hfn & Hcall).
    injection Hcall as <- _.
    apply idle_call in Hfn.
    + cbn [events emit]. rewrite awaited_by_app, Hfn.
      cbn [events emit]. rewrite awaited_by_app.
      change (awaited_by ByCompleteSingleOp [EvReturn r]) with (@nil handle).
      change (awaited_by ByCompleteSingleOp [EvDispatch (seqnum c) collName])
        with (@nil handle).
      rewrite !app_nil_r.
      destruct (negb (is_none (req c))); cbn [events set_collectiveId];
        exact A0.
    + destruct (negb (is_none (req c))); cbn; exact W0.
  - injection Hcall as <- _. cbn [events emit]. rewrite awaited_by_app.
    cbn. rewrite app_nil_r. exact A0.
Qed.

Lemma prepComms_queue (c c' : commsArgs) (st st' : engine) :
  prepComms paramToCommName cfg c st = Ok (st', c') ->
  waitObj st' = waitObj st /\ waitObjIds st' = waitObjIds st
  /\ events st' = events st /\ next_handle st' = next_handle st.
Proof.
  unfold prepComms. intros H.
  rewrite (surjective_pairing (st', c')) in H.
  repeat inv_ok_step; subst; cbn; auto.
Qed.


(** In a measured pass that starts with an empty wait queue, the queue is
    empty after every record, so that the first-in-queue fallback of
    [wait], which serves the traces without request ids, never finds a
    handle to wait on. *)
Theorem replay_wait_fallback_idle (ops : list commsArgs) :
  forall (cnt : nat) (st st' : engine) (ops' : list commsArgs),
    waitObj st = [] ->
    replayLoop paramToCommName coll_ns barrier_ns cfg cnt ops st
    = Ok (st', ops') ->
    waitObj st' = []
    /\ awaited_by ByCompleteSingleOp (events st')
       = awaited_by ByCompleteSingleOp (events st).
Proof.
  induction ops as [|c rest IH]; intros cnt st st' ops' Hq H;
    cbn [replayLoop] in H.
  - injection H as <- _. auto.
  - apply bind_Ok in H as ([st1 c1] & H1 & H).
    apply bind_Ok in H as ([st2 rest1] & H2 & H).
    injection H as <- _.
    assert (Q1 : waitObj st1 = []
                 /\ awaited_by ByCompleteSingleOp (events st1)
                    = awaited_by ByCompleteSingleOp (events st)).
    { unfold replayOne in H1.
      apply bind_Ok in H1 as (r & _ & H1).
      destruct (skipped cfg (paramToCommName (comms c)) r).
      - injection H1 as <- _. auto.
      - apply bind_Ok in H1 as ([st3 c3] & Hprep & H1).
        apply bind_Ok in H1 as ([st4 lat] & Hrun & H1).
        destruct (collLat st4 !! paramToCommName (comms c)); [|discriminate].
        injection H1 as <- _. cbn [waitObj events record_perf].
        apply prepComms_queue in Hprep as (P1 & _ & P3 & _).
        apply runComms_idle in Hrun as [R1 R2].
        split; [exact R1|]. rewrite R2, P3; [reflexivity|congruence]. }
    destruct Q1 as [W1 A1].
    destruct (IH _ _ _ _ W1 H2) as [W2 A2]. split; [exact W2|congruence].
Qed.

Lemma runComms_raises_cases (cnt : nat) (collName : string)
    (curComm : commsArgs) (st : engine) (e : exn) :
  runComms coll_ns barrier_ns cfg cnt collName curComm st = Raise e ->
  (PyDict.get (collectiveFunc cfg) collName = Some P2P /\ e = TypeError)
  \/ (PyDict.get (collectiveFunc cfg) collName = None
      /\ e = UnboundLocalError).
Proof.
  unfold runComms.
  destruct (PyDict.get (collectiveFunc cfg) collName) as [fn|].
  - destruct fn; cbn [Backend.call bind].
    + destruct (Backend.post _ _) as [s h]. cbn [bind].
      destruct (_ && _), (is_blocking cfg); cbn [bind]; discriminate.
    + destruct (_ && _), (is_blocking cfg); cbn [bind]; discriminate.
    + intros [= <-]. auto.
    + destruct (_ && _), (is_blocking cfg); cbn [bind]; discriminate.
  - cbn [bind]. destruct (_ && _); cbn [bind].
    + intros [= <-]. auto.
    + destruct (is_blocking cfg); discriminate.
Qed.



(** The entries that [__init__] binds to [send], [recv], [isend] and
    [irecv] cannot be replayed: [runComms] calls them with one positional
    argument. *)
Theorem p2p_replay_raises (base : list (string * backend_fn)) (cnt : nat)
    (collName : string) (curComm : commsArgs) (st : engine) :
  collectiveFunc cfg = Backend.register_extra_ops base ->
  In collName ["send"; "recv"; "isend"; "irecv"] ->
  runComms coll_ns barrier_ns cfg cnt collName curComm st = Raise TypeError.
Proof.
  intros Hf Hin. unfold runComms.
  assert (G : PyDict.get (collectiveFunc cfg) collName = Some P2P).
  { rewrite Hf. unfold Backend.register_extra_ops.
    rewrite !PyDict_get_set.
    cbn in Hin. destruct Hin as [<-|[<-|[<-|[<-|[]]]]]; reflexivity. }
  rewrite G. reflexivity.
Qed.
End Facts.

Lemma p2p_replay_raises_witness :
  runComms one_us one_us nonblocking_all 0 "isend" post_7 (fresh_engine 2)
  = Raise TypeError.
Proof.
  apply (p2p_replay_raises one_us one_us nonblocking_all base_collectives
           0%nat "isend" post_7 (fresh_engine 2)).
  - reflexivity.
  - simpl. auto.
Defined.


Lemma replay_wait_fallback_idle_witness :
  waitObj legacy_replayed.1 = []
  /\ awaited_by ByCompleteSingleOp (events legacy_replayed.1)
     = awaited_by ByCompleteSingleOp (events legacy_stat).
Proof.
  apply (replay_wait_fallback_idle (fun s => s) one_us one_us
           nonblocking_all legacy_waits 0%nat legacy_stat
           legacy_replayed.1 legacy_replayed.2);
    vm_compute; reflexivity.
Defined.
End RunFacts.

(** ** What a measured pass records *)

Module StatFacts.
Import Bench Scenario Observe Cases PrepFacts ReplayFacts.

(** The backend leaves the statistics of the bench object alone. *)
Lemma total_complete_accel_ops (devSync : bool) (st : engine) :
  totalCommsLatency (Backend.complete_accel_ops devSync st)
  = totalCommsLatency st.
Proof. unfold Backend.complete_accel_ops. destruct devSync; reflexivity. Qed.

Lemma total_post (a : bool) (st : engine) :
  totalCommsLatency (Backend.post a st).1 = totalCommsLatency st.
Proof. unfold Backend.post. destruct a; reflexivity. Qed.

Lemma total_sync_barrier (a : bool) (st : engine) :
  totalCommsLatency (Backend.sync_barrier a st) = totalCommsLatency st.
Proof.
  unfold Backend.sync_barrier. rewrite total_complete_accel_ops.
  change (fst ?p) with (p.1). rewrite total_post. reflexivity.
Qed.

Lemma total_wait (st : engine) :
  totalCommsLatency (Backend.wait st) = totalCommsLatency st.
Proof.
  unfold Backend.wait, Backend.complete_single_op.
  destruct (length (waitObjIds st) =? 0)%nat.
  - destruct (waitObj st) as [|[h|] q]; reflexivity.
  - destruct (PyDict.get _ _) as [[h|]|]; reflexivity.
Qed.

Lemma total_call (fn : backend_fn) (a : bool) (st st' : engine)
    (r : option handle) :
  Backend.call fn a st = Ok (st', r) ->
  totalCommsLatency st' = totalCommsLatency st.
Proof.
  destruct fn; cbn; intros H; try discriminate.
  - injection H as H. pose proof (total_post a st) as Q.
    rewrite H in Q. exact Q.
  - injection H as <- _. apply total_wait.
  - injection H as <- _. reflexivity.
Qed.






Section Facts.
Variable paramToCommName : string -> string.
Variable coll_ns barrier_ns : nat -> Q.
Variable cfg : config.

Lemma total_prepComms (c c' : commsArgs) (st st' : engine) :
  prepComms paramToCommName cfg c st = Ok (st', c') ->
  totalCommsLatency st' = totalCommsLatency st.
Proof.
  unfold prepComms. intros H.
  rewrite (surjective_pairing (st', c')) in H.
  repeat inv_ok_step; subst; reflexivity.
Qed.

Lemma total_runComms (cnt : nat) (collName : string) (c : commsArgs)
    (st st' : engine) (lat : Q * Q) :
  runComms coll_ns barrier_ns cfg cnt collName c st = Ok (st', lat) ->
  totalCommsLatency st' = totalCommsLatency st.
Proof.
  unfold runComms. intros H.
  apply bind_Ok in H as ([st2 bound] & Hcall & H).
  apply bind_Ok in H as (st4 & Hreg & H).
  assert (E0 : totalCommsLatency
                 (if is_blocking cfg
                  then Backend.sync_barrier (asyncOp cfg) st else st)
               = totalCommsLatency st).
  { destruct (is_blocking cfg); [apply total_sync_barrier|reflexivity]. }
  assert (E2 : totalCommsLatency st2 = totalCommsLatency st).
  { destruct (PyDict.get (collectiveFunc cfg) collName) as [fn|].
    - apply bind_Ok in Hcall as ([st2' r] & Hfn & Hcall).
      injection Hcall as <- _. apply total_call in Hfn.
      cbn [totalCommsLatency emit]. rewrite Hfn.
      destruct (negb (is_none (req c)));
        cbn [totalCommsLatency emit set_collectiveId]; exact E0.
    - injection Hcall as <- _. exact E0. }
  assert (E4 : totalCommsLatency st4 = totalCommsLatency st).
  { destruct (_ && _) in Hreg.
    - destruct bound; [|discriminate]. injection Hreg as <-.
      cbn [totalCommsLatency set_waitObjIds].
      rewrite total_complete_accel_ops. exact E2.
    - injection Hreg as <-. rewrite total_complete_accel_ops. exact E2. }
  destruct (is_blocking cfg); injection H as <- _;
    [rewrite total_sync_barrier|]; exact E4.
Qed.

Lemma passes_gate_identity (c c' : commsArgs) :
  identity_of c' = identity_of c ->
  passes_gate paramToCommName cfg c' = passes_gate paramToCommName cfg c.
Proof.
  intros H.
  assert (Hc : comms c' = comms c) by exact (f_equal comms H).
  assert (Hp : pgId c' = pgId c) by exact (f_equal pgId H).
  unfold passes_gate, getCommGroupInfo. rewrite Hc, Hp. reflexivity.
Qed.

(** One turn of the loop of [replayTrace]: a record that passes the gate
    is appended to [traceWithPerf] as [prepComms] left it, with the
    latency that is added to the list of its kind and to
    [totalCommsLatency]; any other record leaves all three alone. *)
Lemma replayOne_records (cnt : nat) (c c' : commsArgs) (st st' : engine) :
  replayOne paramToCommName coll_ns barrier_ns cfg cnt c st = Ok (st', c') ->
  passes_gate paramToCommName cfg c' = passes_gate paramToCommName cfg c
  /\ if passes_gate paramToCommName cfg c then
       exists (lats : list Q) (r : perfRecord),
         perf_comm r = c'
         /\ latency_us r = (coll_ns cnt / 1000)%Q
         /\ collLat st !! paramToCommName (comms c) = Some lats
         /\ collLat st'
            = <[paramToCommName (comms c) := lats ++ [latency_us r]]>
                (collLat st)
         /\ traceWithPerf st' = traceWithPerf st ++ [r]
         /\ totalCommsLatency st' = (totalCommsLatency st + latency_us r)%Q
     else collLat st' = collLat st
          /\ traceWithPerf st' = traceWithPerf st
          /\ totalCommsLatency st' = totalCommsLatency st.
Proof.
  unfold replayOne. intros H.
  apply bind_Ok in H as (r & Hr & H).
  pose proof (passes_gate_Ok paramToCommName cfg c r Hr) as G.
  destruct (skipped cfg (paramToCommName (comms c)) r); cbn [negb] in G.
  - injection H as <- <-. rewrite G. auto.
  - apply bind_Ok in H as ([st1 c1] & Hprep & H).
    apply bind_Ok in H as ([st2 lat] & Hrun & H).
    destruct (collLat st2 !! paramToCommName (comms c)) as [lats|] eqn:Hl;
      [|discriminate].
    injection H as <- <-.
    pose proof (prepComms_identity _ _ _ _ _ _ Hprep) as Hid.
    split; [apply passes_gate_identity; exact Hid|]. rewrite G.
    pose proof (quiet_prepComms _ _ _ _ _ _ Hprep) as (_ & L1 & _ & _ & T1).
    pose proof (total_prepComms _ _ _ _ Hprep) as S1.
    pose proof (runComms_dispatch _ _ _ _ _ _ _ _ _ Hrun)
      as (_ & L2 & _ & _ & T2).
    pose proof (total_runComms _ _ _ _ _ _ Hrun) as S2.
    pose proof (runComms_latency _ _ _ _ _ _ _ _ _ Hrun) as ->.
    exists lats, (mkPerf c1 (coll_ns cnt / 1000)%Q
                    (if is_blocking cfg
                     then (coll_ns cnt / 1000 + barrier_ns cnt / 1000)%Q
                     else (coll_ns cnt / 1000)%Q)).
    cbn [perf_comm latency_us collLat traceWithPerf totalCommsLatency
         record_perf fst snd].
    rewrite <- L1, <- L2, <- T1, <- T2, <- S1, <- S2. auto 10.
Qed.

Lemma replayLoop_records (ops : list commsArgs) :
  forall (cnt : nat) (st st' : engine) (ops' : list commsArgs),
    replayLoop paramToCommName coll_ns barrier_ns cfg cnt ops st
    = Ok (st', ops') ->
    exists new : list perfRecord,
      traceWithPerf st' = traceWithPerf st ++ new
      /\ map perf_comm new
         = List.filter (passes_gate paramToCommName cfg) ops'
      /\ Forall (fun r => exists n, (cnt <= n)%nat
                            /\ latency_us r = (coll_ns n / 1000)%Q) new
      /\ totalCommsLatency st'
         = fold_left (fun a r => (a + latency_us r)%Q) new
             (totalCommsLatency st).
Proof.
  induction ops as [|c rest IH]; intros cnt st st' ops' H;
    cbn [replayLoop] in H.
  - injection H as <- <-. exists []. rewrite app_nil_r. auto.
  - apply bind_Ok in H as ([st1 c1] & H1 & H).
    apply bind_Ok in H as ([st2 rest1] & H2 & H).
    injection H as <- <-.
    destruct (IH _ _ _ _ H2) as (new & T2 & M2 & F2 & S2).
    assert (F2' : Forall (fun r => exists n, (cnt <= n)%nat
                            /\ latency_us r = (coll_ns n / 1000)%Q) new).
    { eapply Forall_impl; [exact F2|]. intros r (n & Hn & E).
      exists n. split; [lia|exact E]. }
    apply replayOne_records in H1 as [G H1].
    cbn [List.filter]. rewrite G.
    destruct (passes_gate paramToCommName cfg c).
    + destruct H1 as (lats & r & Hc & Hlat & _ & _ & T1 & S1).
      exists (r :: new). rewrite T2, T1, <- app_assoc.
      split; [reflexivity|]. split; [cbn; congruence|].
      split; [constructor; [exists cnt; auto|exact F2']|].
      cbn [fold_left]. rewrite S2, S1. reflexivity.
    + destruct H1 as (_ & T1 & S1).
      exists new. rewrite T2, T1, S2, S1. auto.
Qed.

(** A measured pass appends to [traceWithPerf] the records of the window
    that pass the gate, in trace order and as [prepComms] left them, each
    with the interval that was profiled for its position, and adds their
    latencies, in that order, to [totalCommsLatency]. *)
Theorem replay_perf_records (trace ops' : list commsArgs)
    (st st' : engine) :
  replayTrace paramToCommName coll_ns barrier_ns cfg trace st
  = Ok (st', ops') ->
  exists new : list perfRecord,
    traceWithPerf st' = traceWithPerf st ++ new
    /\ map perf_comm new
       = List.filter (passes_gate paramToCommName cfg) ops'
    /\ Forall (fun r => exists n, latency_us r = (coll_ns n / 1000)%Q) new
    /\ totalCommsLatency st'
       = fold_left (fun a r => (a + latency_us r)%Q) new
           (totalCommsLatency st).
Proof.
  unfold replayTrace. intros H.
  apply replayLoop_records in H as (new & T & M & F & S).
  exists new. split; [exact T|]. split; [exact M|]. split; [|exact S].
  eapply Forall_impl; [exact F|]. intros r (n & _ & E). eauto.
Qed.




End Facts.

Lemma replay_perf_records_witness :
  exists new : list perfRecord,
    traceWithPerf exotic_replay.1 = traceWithPerf exotic_stat ++ new
    /\ map perf_comm new
       = List.filter (passes_gate (fun s => s) allow_exotic) exotic_replay.2
    /\ Forall (fun r => exists n, latency_us r = (one_us n / 1000)%Q) new
    /\ totalCommsLatency exotic_replay.1
       = fold_left (fun a r => (a + latency_us r)%Q) new
           (totalCommsLatency exotic_stat).
Proof.
  apply (replay_perf_records (fun s => s) one_us one_us allow_exotic
           four_records exotic_replay.2 exotic_stat exotic_replay.1).
  vm_compute. reflexivity.
Defined.

End StatFacts.

(** ** Records across passes *)

Module PassFacts.
Import Bench Scenario Observe Cases PrepFacts ReplayFacts StatFacts.

Section Facts.
Variable paramToCommName : string -> string.
Variable all_reduce : Z -> Z.
Variable coll_ns barrier_ns : nat -> Q.
Variable cfg : config.

Lemma prepComms_no_shrink (c c' : commsArgs) (st st' : engine) :
  shrink cfg = false ->
  prepComms paramToCommName cfg c st = Ok (st', c') ->
  c' = c.
Proof.
  unfold prepComms. intros Hs H. rewrite Hs in H.
  repeat inv_ok_step; subst; reflexivity.
Qed.

(** Without auto-shrink a measured pass hands every record back as it
    was: the trace is the same for the next pass. *)
Theorem replay_keeps_records (ops : list commsArgs) :
  shrink cfg = false ->
  forall (cnt : nat) (st st' : engine) (ops' : list commsArgs),
    replayLoop paramToCommName coll_ns barrier_ns cfg cnt ops st
    = Ok (st', ops') ->
    ops' = ops.
Proof.
  intros Hs. induction ops as [|c rest IH]; intros cnt st st' ops' H;
    cbn [replayLoop] in H.
  - injection H as _ <-. reflexivity.
  - apply bind_Ok in H as ([st1 c1] & H1 & H).
    apply bind_Ok in H as ([st2 rest1] & H2 & H).
    injection H as _ <-. apply IH in H2. subst rest1. f_equal.
    unfold replayOne in H1.
    apply bind_Ok in H1 as (r & _ & H1).
    destruct (skipped cfg (paramToCommName (comms c)) r).
    + injection H1 as _ <-. reflexivity.
    + apply bind_Ok in H1 as ([st3 c3] & Hprep & H1).
      apply bind_Ok in H1 as ([st4 lat] & _ & H1).
      destruct (collLat st4 !! paramToCommName (comms c)); [|discriminate].
      injection H1 as _ <-.
      exact (prepComms_no_shrink _ _ _ _ Hs Hprep).
Qed.

(** A kind that auto-shrink rescales by the plain rule. *)
Lemma prepComms_shrink_plain (c : commsArgs) (st : engine) (R W n m : Z) :
  shrink cfg = true ->
  in_tuple (paramToCommName (comms c)) ["wait"; "barrier"] = false ->
  paramToCommName (comms c) <> "all_to_allv" ->
  paramToCommName (comms c) <> "all_gather" ->
  worldSize c = PyInt R -> R <> 0 ->
  world_size st = PyInt W ->
  inMsgSize c = PyInt n -> outMsgSize c = PyInt m ->
  prepComms paramToCommName cfg c st
  = Ok (set_self_world_size (get_world_size cfg) (set_group DefaultGroup st),
        with_sizes (PyInt (n / R * W)) (PyInt (m / R * W)) c).
Proof.
  intros Hs Hk Ha Hg HR HR0 HW Hn Hm. unfold prepComms.
  rewrite Hk, Hs, andb_false_r. cbn [bind negb].
  rewrite HR. cbn [is_none negb bind].
  unfold rescale. cbn [world_size set_self_world_size set_group].
  rewrite Hn, Hm, HW. cbn [as_int bind]. unfold floordiv.
  destruct (Z.eqb_spec R 0) as [|_]; [contradiction|]. cbn [bind].
  destruct (String.eqb_spec (paramToCommName (comms c)) "all_to_allv");
    [contradiction|].
  destruct (String.eqb_spec (paramToCommName (comms c)) "all_gather");
    [contradiction|].
  reflexivity.
Qed.

(** Auto-shrink is applied to the record that the previous pass left:
    [prepComms] on its own result rescales the counts again, by the
    recorded world size that the record still carries.  On a world
    smaller than the recorded one, a second pass replays strictly
    smaller messages than the first. *)
Theorem prepComms_shrinks_again (c : commsArgs) (st : engine)
    (R W n m : Z) :
  shrink cfg = true ->
  in_tuple (paramToCommName (comms c)) ["wait"; "barrier"] = false ->
  paramToCommName (comms c) <> "all_to_allv" ->
  paramToCommName (comms c) <> "all_gather" ->
  worldSize c = PyInt R -> R <> 0 ->
  world_size st = PyInt W ->
  inMsgSize c = PyInt n -> outMsgSize c = PyInt m ->
  exists (st1 st2 : engine) (c1 c2 : commsArgs),
    prepComms paramToCommName cfg c st = Ok (st1, c1)
    /\ prepComms paramToCommName cfg c1 st1 = Ok (st2, c2)
    /\ inMsgSize c1 = PyInt (n / R * W)
    /\ outMsgSize c1 = PyInt (m / R * W)
    /\ inMsgSize c2 = PyInt (n / R * W / R * W)
    /\ outMsgSize c2 = PyInt (m / R * W / R * W)
    /\ (0 < W < R -> R <= n -> n / R * W / R * W < n / R * W).
Proof.
  intros Hs Hk Ha Hg HR HR0 HW Hn Hm.
  eexists _, _, _, _.
  split; [apply (prepComms_shrink_plain c st R W n m); assumption|].
  split; [apply (prepComms_shrink_plain _ _ R W (n / R * W) (m / R * W));
          solve [assumption | reflexivity]|].
  repeat (split; [reflexivity|]).
  intros [HW0 HWR] HRn.
  assert (H1 : 1 <= n / R) by (apply Z.div_le_lower_bound; lia).
  set (x := n / R * W) in *.
  assert (Hx : 0 < x) by (unfold x; nia).
  assert (Hq : 0 <= x / R) by (apply Z.div_pos; lia).
  assert (Hd : R * (x / R) <= x) by (apply Z.mul_div_le; lia).
  destruct (Z.eq_dec (x / R) 0) as [E|E]; [rewrite E; lia|].
  nia.
Qed.
End Facts.

Lemma replay_keeps_records_witness : exotic_replay.2 = window allow_exotic four_records.
Proof.
  apply (replay_keeps_records (fun s => s) one_us one_us allow_exotic
           (window allow_exotic four_records) eq_refl 0%nat exotic_stat
           exotic_replay.1 exotic_replay.2).
  vm_compute. reflexivity.
Defined.

Lemma prepComms_shrinks_again_witness :
  exists (st1 st2 : engine) (c1 c2 : commsArgs),
    prepComms (fun s => s) shrink_replay recorded_reduce (fresh_engine 4)
    = Ok (st1, c1)
    /\ prepComms (fun s => s) shrink_replay c1 st1 = Ok (st2, c2)
    /\ inMsgSize c1 = PyInt (1024 / 8 * 4)
    /\ outMsgSize c1 = PyInt (1024 / 8 * 4)
    /\ inMsgSize c2 = PyInt (1024 / 8 * 4 / 8 * 4)
    /\ outMsgSize c2 = PyInt (1024 / 8 * 4 / 8 * 4)
    /\ (0 < 4 < 8 -> 8 <= 1024 -> 1024 / 8 * 4 / 8 * 4 < 1024 / 8 * 4).
Proof.
  apply (prepComms_shrinks_again (fun s => s) shrink_replay recorded_reduce
           (fresh_engine 4) 8 4 1024 1024);
    solve [reflexivity | discriminate].
Defined.
End PassFacts.

(** ** The warm-up pass *)

Module WarmUpFacts.
Import Bench Scenario Observe Cases PrepFacts ReplayFacts StatFacts.

Section Facts.
Variable paramToCommName : string -> string.
Variable all_reduce : Z -> Z.
Variable cfg : config.

Lemma rebalanceSplit_silent (c c' : commsArgs) (st st' : engine) :
  rebalanceSplit all_reduce cfg c st = Ok (st', c') ->
  quiet st st'
  /\ totalCommsLatency st' = totalCommsLatency st
  /\ identity_of c' = identity_of c.
Proof.
  unfold rebalanceSplit. intros H.
  destruct (String.eqb (rebalance_policy cfg) "equal").
  - apply bind_Ok in H as (v & _ & H).
    apply bind_Ok in H as (fn & _ & H).
    apply bind_Ok in H as ([st1 r] & Hcall & H).
    apply bind_Ok in H as (W & _ & H).
    destruct (W * W =? 0); [discriminate|].
    injection H as <- <-.
    split; [|split; [|reflexivity]].
    + apply (quiet_trans st st1);
        [|exact (quiet_complete_accel_ops true st1)].
      apply (quiet_trans st (emit [EvAllReduce v] st));
        [quiet_step|exact (quiet_call _ _ _ _ _ Hcall)].
    + exact (eq_trans (total_complete_accel_ops true st1)
               (total_call _ _ _ _ _ Hcall)).
  - injection H as <- <-. split; [quiet_step|]. split; reflexivity.
Qed.

Lemma warmUpOne_silent (cnt : nat) (c c' : commsArgs) (st st' : engine) :
  warmUpOne paramToCommName all_reduce cfg cnt c st = Ok (st', c') ->
  quiet st st'
  /\ totalCommsLatency st' = totalCommsLatency st
  /\ identity_of c' = identity_of c.
Proof.
  unfold warmUpOne. intros H.
  apply bind_Ok in H as (r & _ & H).
  destruct (skipped cfg (paramToCommName (comms c)) r).
  { injection H as <- <-. split; [apply quiet_refl|]. split; reflexivity. }
  apply bind_Ok in H as ([st1 e1] & Hprep & H).
  apply bind_Ok in H as ([st3 c2] & Hreb & H).
  apply bind_Ok in H as (st4 & Hcall & H).
  injection H as <- <-.
  pose proof (quiet_prepComms _ _ _ _ _ _ Hprep) as Q1.
  pose proof (total_prepComms _ _ _ _ _ _ Hprep) as S1.
  assert (Q3 : quiet st1 st3 /\ totalCommsLatency st3 = totalCommsLatency st1
               /\ identity_of c2 = identity_of c).
  { destruct (_ && _) in Hreb.
    - apply bind_Ok in Hreb as ([st5 c5] & Hr & Hreb).
      apply bind_Ok in Hreb as ([st6 e2] & Hp2 & Hreb).
      injection Hreb as <- <-.
      apply rebalanceSplit_silent in Hr as (Qr & Sr & Ir).
      pose proof (quiet_prepComms _ _ _ _ _ _ Hp2) as Q2.
      pose proof (total_prepComms _ _ _ _ _ _ Hp2) as S2.
      split; [|split; [|exact Ir]].
      + apply (quiet_trans st1 st5); [|exact Q2].
        eapply quiet_trans; [|exact Qr]. quiet_step.
      + rewrite S2, Sr. reflexivity.
    - injection Hreb as <- <-. split; [apply quiet_refl|].
      split; reflexivity. }
  destruct Q3 as (Q3 & S3 & I3).
  assert (Q4 : quiet st3 st4 /\ totalCommsLatency st4 = totalCommsLatency st3).
  { destruct (PyDict.get (collectiveFunc cfg) (paramToCommName (comms c)))
      as [fn|].
    - apply bind_Ok in Hcall as ([st5 r5] & Hcall & E).
      injection E as <-. split.
      + eapply quiet_trans; [|exact (quiet_call _ _ _ _ _ Hcall)].
        quiet_step.
      + exact (total_call _ _ _ _ _ Hcall).
    - injection Hcall as <-. split; [apply quiet_refl|reflexivity]. }
  destruct Q4 as (Q4 & S4).
  split; [|split; [|exact I3]].
  - apply (quiet_trans st st4); [|exact (quiet_complete_accel_ops true st4)].
    apply (quiet_trans st st3); [|exact Q4].
    apply (quiet_trans st st1); [exact Q1|exact Q3].
  - rewrite <- S1, <- S3, <- S4.
    exact (total_complete_accel_ops true st4).
Qed.

Lemma warmUpLoop_silent (ops : list commsArgs) :
  forall (cnt : nat) (st st' : engine) (ops' : list commsArgs),
    warmUpLoop paramToCommName all_reduce cfg cnt ops st = Ok (st', ops') ->
    quiet st st'
    /\ totalCommsLatency st' = totalCommsLatency st
    /\ map identity_of ops' = map identity_of ops.
Proof.
  induction ops as [|c rest IH]; intros cnt st st' ops' H;
    cbn [warmUpLoop] in H.
  - injection H as <- <-. split; [apply quiet_refl|]. split; reflexivity.
  - apply bind_Ok in H as ([st1 c1] & H1 & H).
    apply bind_Ok in H as ([st2 rest1] & H2 & H).
    injection H as <- <-.
    apply warmUpOne_silent in H1 as (Q1 & S1 & I1).
    apply IH in H2 as (Q2 & S2 & I2).
    split; [exact (quiet_trans _ _ _ Q1 Q2)|].
    split; [congruence|]. cbn [map]. congruence.
Qed.

(** The warm-up pass records nothing: the per-kind latency and size
    lists, [traceWithPerf] and [totalCommsLatency] are as before, and no
    record is logged as a measured dispatch.  Of a record it changes at
    most the sizes and the splits. *)
Theorem warmUp_records_nothing (trace ops' : list commsArgs)
    (st st' : engine) :
  warmUpBench paramToCommName all_reduce cfg trace st = Ok (st', ops') ->
  quiet st st'
  /\ totalCommsLatency st' = totalCommsLatency st
  /\ map identity_of ops' = map identity_of (window cfg trace).
Proof. unfold warmUpBench. apply warmUpLoop_silent. Qed.
End Facts.

Lemma warmUp_records_nothing_witness :
  quiet (fresh_engine 2) equal_warmed_up.1
  /\ totalCommsLatency equal_warmed_up.1 = totalCommsLatency (fresh_engine 2)
  /\ map identity_of equal_warmed_up.2
     = map identity_of (window equal_policy two_a2av).
Proof.
  apply (warmUp_records_nothing (fun s => s) other_rank_has_4 equal_policy
           two_a2av equal_warmed_up.2 (fresh_engine 2) equal_warmed_up.1).
  vm_compute. reflexivity.
Defined.
End WarmUpFacts.

(** ** The group table and the gate *)

Module TableFacts.
Import Bench Scenario Observe Cases RoundRobin RunFacts.

Lemma PyDict_keys_set_new {K V : Type} `{EqDecision K} (d : list (K * V))
    (k : K) (v : V) :
  ~ In k (PyDict.keys d) ->
  PyDict.keys (PyDict.set d k v) = PyDict.keys d ++ [k].
Proof.
  unfold PyDict.keys. induction d as [|[j w] d IH]; cbn; intros Hk.
  - reflexivity.
  - destruct (decide (j = k)) as [->|]; [tauto|].
    cbn. rewrite IH by tauto. reflexivity.
Qed.

Lemma PyDict_get_None {K V : Type} `{EqDecision K} (d : list (K * V))
    (k : K) :
  ~ In k (PyDict.keys d) -> PyDict.get d k = None.
Proof.
  unfold PyDict.keys. induction d as [|[j w] d IH]; cbn; intros Hk.
  - reflexivity.
  - destruct (decide (j = k)) as [->|]; [tauto|]. apply IH. tauto.
Qed.

(** The group that [initialize_backend] binds to a recorded rank list
    that fits the world. *)
Lemma create_groups_fit (world : Z) (items : list (py * py)) :
  ~ oversized world items ->
  NoDup (PyDict.keys items) ->
  forall (acc gs : list (py * pg)),
    (forall k, In k (PyDict.keys items) -> ~ In k (PyDict.keys acc)) ->
    Backend.create_groups world items acc = Ok gs ->
    PyDict.keys gs = PyDict.keys acc ++ PyDict.keys items
    /\ (forall p, ~ In p (PyDict.keys items) ->
                  PyDict.get gs p = PyDict.get acc p)
    /\ forall p ranks,
         In (p, ranks) items ->
         exists n,
           py_len ranks = Ok n
           /\ ((n = world /\ PyDict.get gs p = Some DefaultGroup)
               \/ (n < world
                   /\ exists l, ranks = PyList l
                                /\ PyDict.get gs p = Some (NewGroup l))).
Proof.
  induction items as [|[k r] rest IH]; intros Hov Hnd acc gs Hacc H.
  - injection H as <-. cbn. rewrite app_nil_r.
    split; [reflexivity|]. split; [reflexivity|]. intros p ranks [].
  - cbn [Backend.create_groups] in H.
    apply bind_Ok in H as (n & Hn & H).
    destruct (Z.ltb_spec world n) as [Hlt|Hge].
    { exfalso. apply Hov. exists k, r, n. cbn. auto. }
    apply bind_Ok in H as (g & Hg & H).
    cbn [PyDict.keys map fst] in Hnd, Hacc.
    apply NoDup_cons in Hnd as [Hk Hnd].
    assert (Hov' : ~ oversized world rest).
    { intros (a & b & m & Hin & Hm & Hw). apply Hov.
      exists a, b, m. cbn. auto. }
    assert (Hka : ~ In k (PyDict.keys acc)) by (apply Hacc; cbn; auto).
    rewrite list_elem_of_In in Hk.
    destruct (IH Hov' Hnd (PyDict.set acc k g) gs) as (A & B & C).
    { intros j Hj. rewrite PyDict_keys_set_new by exact Hka.
      rewrite in_app_iff. cbn. intros [Hja|[->|[]]]; [|contradiction].
      apply (Hacc j); cbn; auto. }
    { exact H. }
    rewrite PyDict_keys_set_new in A by exact Hka.
    split; [rewrite A, <- app_assoc; reflexivity|].
    split.
    + intros p Hp. cbn in Hp. rewrite B by tauto.
      rewrite PyDict_get_set. destruct (decide (k = p)); [tauto|reflexivity].
    + intros p ranks [E|Hin].
      * injection E as <- <-. exists n. split; [exact Hn|].
        rewrite (B k Hk), PyDict_get_set.
        destruct (decide (k = k)); [|contradiction].
        destruct (Z.eqb_spec n world) as [->|Hne].
        -- injection Hg as <-. left. auto.
        -- right. split; [lia|].
           destruct r; try discriminate. injection Hg as <-. eauto.
      * apply (C p ranks Hin).
Qed.

(** Without a recorded group larger than the world, the table of
    [initialize_backend] binds every recorded group id, in the order of
    [commsParams.groupRanks]: to the default group when the rank list
    has as many members as the world, to a new group of exactly the
    recorded ranks otherwise; without recorded groups it is the single
    entry 0 for the default group. *)
Theorem initialize_backend_table (world : Z) (items : list (py * py))
    (gs : list (py * pg)) :
  NoDup (PyDict.keys items) ->
  ~ oversized world items ->
  Backend.initialize_backend world items = Ok gs ->
  (items = [] -> gs = [(PyInt 0, DefaultGroup)])
  /\ (items <> [] ->
      PyDict.keys gs = PyDict.keys items
      /\ forall p ranks,
           In (p, ranks) items ->
           exists n,
             py_len ranks = Ok n
             /\ ((n = world /\ PyDict.get gs p = Some DefaultGroup)
                 \/ (n < world
                     /\ exists l, ranks = PyList l
                                  /\ PyDict.get gs p = Some (NewGroup l)))).
Proof.
  intros Hnd Hov H. unfold Backend.initialize_backend in H.
  apply bind_Ok in H as (g0 & Hg0 & H). injection H as <-.
  split.
  - intros ->. injection Hg0 as <-. reflexivity.
  - intros Hne.
    destruct (create_groups_fit world items Hov Hnd [] g0) as (A & _ & C);
      [intros k _ []|exact Hg0|].
    cbn [PyDict.keys map app] in A.
    assert (Hlen : (length g0 =? 0)%nat = false).
    { apply Nat.eqb_neq. intros E. apply Hne.
      apply (f_equal (@length py)) in A. unfold PyDict.keys in A.
      rewrite !length_map in A. rewrite E in A.
      destruct items; [reflexivity|discriminate]. }
    rewrite Hlen. split; [exact A|exact C].
Qed.

Lemma next_cycle (l : list pg) (k : nat) :
  (k < length l)%nat ->
  exists g, l !! k = Some g
    /\ next (mkCycle l k)
       = Some (g, mkCycle l (if (S k =? length l)%nat then 0%nat else S k)).
Proof.
  intros Hk. destruct (lookup_lt_is_Some_2 l k Hk) as [g Hg].
  exists g. split; [exact Hg|]. unfold next. cbn. rewrite Hg. reflexivity.
Qed.

Lemma get_next_groups_cycle (l : list pg) (n : nat) :
  forall k, (k < length l)%nat ->
    exists out it,
      get_next_groups n (mkCycle l k) = Some (out, it)
      /\ length out = n
      /\ forall i, (i < n)%nat -> out !! i = l !! ((k + i) mod length l)%nat.
Proof.
  induction n as [|n IH]; intros k Hk.
  - exists [], (mkCycle l k). split; [reflexivity|]. split; [reflexivity|].
    intros i Hi. lia.
  - destruct (next_cycle l k Hk) as (g & Hg & Hnext).
    cbn [get_next_groups]. rewrite Hnext.
    set (k' := if (S k =? length l)%nat then 0%nat else S k).
    assert (Hk' : (k' < length l)%nat).
    { subst k'. destruct (Nat.eqb_spec (S k) (length l)); lia. }
    assert (Hmod : forall j, ((k' + j) mod length l
                              = (S k + j) mod length l)%nat).
    { intros j. subst k'. destruct (Nat.eqb_spec (S k) (length l)) as [E|E];
        [|reflexivity].
      rewrite E.
      replace (length l + j)%nat with (j + 1 * length l)%nat by lia.
      rewrite Nat.Div0.mod_add. reflexivity. }
    destruct (IH k' Hk') as (out & it & -> & Hlen & Hout).
    exists (g :: out), it. split; [reflexivity|]. split; [cbn; lia|].
    intros [|i] Hi.
    + cbn. rewrite Nat.add_0_r, Nat.mod_small by exact Hk. symmetry. exact Hg.
    + cbn. rewrite Hout, Hmod by lia. f_equal. f_equal. lia.
Qed.

(** [initialize_backend] never leaves an empty table, so that
    [get_next_group] never runs out: called [n] times it returns the
    groups of the table one after the other, starting again from the
    first after the last. *)
Theorem get_next_group_round_robin (world : Z) (items : list (py * py))
    (gs : list (py * pg)) (n : nat) :
  Backend.initialize_backend world items = Ok gs ->
  (0 < get_num_pgs gs)%nat
  /\ exists out it,
       get_next_groups n (round_robin_group gs) = Some (out, it)
       /\ length out = n
       /\ forall i, (i < n)%nat ->
            out !! i = map snd gs !! (i mod get_num_pgs gs)%nat.
Proof.
  intros H. unfold Backend.initialize_backend in H.
  apply bind_Ok in H as (g0 & _ & H). injection H as <-.
  set (gs := if (length g0 =? 0)%nat then [(PyInt 0, DefaultGroup)] else g0).
  assert (Hpos : (0 < length gs)%nat).
  { subst gs. destruct (Nat.eqb_spec (length g0) 0); cbn; lia. }
  split; [exact Hpos|].
  unfold round_robin_group, cycle, get_num_pgs.
  destruct (get_next_groups_cycle (map snd gs) n 0%nat)
    as (out & it & E & Hlen & Hout); [rewrite length_map; exact Hpos|].
  exists out, it. split; [exact E|]. split; [exact Hlen|].
  intros i Hi. rewrite (Hout i Hi), length_map. reflexivity.
Qed.

Lemma index_of_range (x : Z) (l : list Z) :
  forall i, 0 <= i ->
    (In x l -> i <= Backend.index_of x l i)
    /\ (~ In x l -> Backend.index_of x l i = -1).
Proof.
  induction l as [|y l IH]; intros i Hi; cbn.
  - split; [intros []|reflexivity].
  - destruct (Z.eqb_spec x y) as [->|Hne].
    + split; [lia|tauto].
    + destruct (IH (i + 1) ltac:(lia)) as [A B].
      split.
      * intros [E|Hin]; [congruence|]. specialize (A Hin). lia.
      * intros Hn. apply B. tauto.
Qed.

Lemma existsb_In (x : Z) (l : list Z) :
  existsb (Z.eqb x) l = true <-> In x l.
Proof.
  rewrite existsb_exists. split.
  - intros (y & Hy & E). apply Z.eqb_eq in E. congruence.
  - intros H. exists x. split; [exact H|apply Z.eqb_refl].
Qed.

Lemma index_of_member (x : Z) (l : list Z) :
  (Backend.index_of x l 0 =? -1) = negb (existsb (Z.eqb x) l).
Proof.
  destruct (index_of_range x l 0 ltac:(lia)) as [A B].
  destruct (existsb (Z.eqb x) l) eqn:E; cbn.
  - apply existsb_In in E. apply Z.eqb_neq. specialize (A E). lia.
  - apply Z.eqb_eq. apply B. intros Hin. apply existsb_In in Hin.
    congruence.
Qed.

Section Facts.
Variable paramToCommName : string -> string.
Variable all_reduce : Z -> Z.
Variable coll_ns barrier_ns : nat -> Q.
Variable cfg : config.

(** A record of a recorded process group passes the gate exactly when
    its kind is allowed and this rank is one of the ranks of the group;
    the record of a group without this rank is passed over by the
    warm-up and by the measured pass, which leave the state and the
    record as they are. *)
Theorem group_gate_membership (c : commsArgs) (l : list Z) (st : engine) :
  shrink cfg = false ->
  pgId c <> PyNone ->
  PyDict.get (groups cfg) (pgId c) = Some (NewGroup l) ->
  PyDict.mem (commsParams_groupRanks cfg) (pgId c) = true ->
  passes_gate paramToCommName cfg c
  = in_tuple (paramToCommName (comms c)) (allowList cfg)
    && existsb (Z.eqb (get_global_rank cfg)) l
  /\ (~ In (get_global_rank cfg) l ->
      replayOne paramToCommName coll_ns barrier_ns cfg (seqnum c) c st
      = Ok (st, c)
      /\ warmUpOne paramToCommName all_reduce cfg (seqnum c) c st
         = Ok (st, c)).
Proof.
  intros Hs Hp Hg Hm.
  assert (Hinfo : getCommGroupInfo cfg c
                  = Ok (Backend.index_of (get_global_rank cfg) l 0)).
  { unfold getCommGroupInfo, lookup. rewrite Hs, Hg.
    apply is_none_false in Hp. rewrite Hp. cbn [negb andb bind].
    unfold PyDict.mem in Hm.
    destruct (PyDict.get (commsParams_groupRanks cfg) (pgId c));
      [reflexivity|discriminate]. }
  split.
  - unfold passes_gate, skipped. rewrite Hinfo, index_of_member.
    rewrite negb_orb, !negb_involutive. reflexivity.
  - intros Hn. unfold replayOne, warmUpOne, skipped.
    rewrite Hinfo. cbn [bind]. rewrite index_of_member.
    assert (E : existsb (Z.eqb (get_global_rank cfg)) l = false).
    { destruct (existsb _ l) eqn:E; [|reflexivity].
      apply existsb_In in E. contradiction. }
    rewrite E. cbn [negb]. rewrite orb_true_r. auto.
Qed.
End Facts.

Lemma initialize_backend_table_witness :
  (two_small_groups = [] -> small_table = [(PyInt 0, DefaultGroup)])
  /\ (two_small_groups <> [] ->
      PyDict.keys small_table = PyDict.keys two_small_groups
      /\ forall p ranks,
           In (p, ranks) two_small_groups ->
           exists n,
             py_len ranks = Ok n
             /\ ((n = 4 /\ PyDict.get small_table p = Some DefaultGroup)
                 \/ (n < 4
                     /\ exists l, ranks = PyList l
                                  /\ PyDict.get small_table p
                                     = Some (NewGroup l)))).
Proof.
  apply (initialize_backend_table 4 two_small_groups small_table).
  - unfold two_small_groups. cbn. apply NoDup_cons. split.
    + rewrite list_elem_of_In. cbn. intros [E|[]]. discriminate E.
    + apply NoDup_singleton.
  - intros (p & ranks & n & Hin & Hn & Hw).
    cbn in Hin. destruct Hin as [E|[E|[]]]; injection E as <- <-;
      injection Hn as <-; cbn in Hw; lia.
  - reflexivity.
Defined.

Lemma get_next_group_round_robin_witness :
  (0 < get_num_pgs small_table)%nat
  /\ exists out it,
       get_next_groups 5 (round_robin_group small_table) = Some (out, it)
       /\ length out = 5%nat
       /\ forall i, (i < 5)%nat ->
            out !! i = map snd small_table !! (i mod get_num_pgs small_table)%nat.
Proof.
  apply (get_next_group_round_robin 4 two_small_groups small_table 5).
  reflexivity.
Defined.

Lemma group_gate_membership_witness :
  passes_gate (fun s => s) grouped_run pair_reduce
  = in_tuple (comms pair_reduce) (allowList grouped_run)
    && existsb (Z.eqb (get_global_rank grouped_run)) [0; 1]
  /\ (~ In (get_global_rank grouped_run) [0; 1] ->
      replayOne (fun s => s) one_us one_us grouped_run (seqnum pair_reduce)
        pair_reduce (fresh_engine 4)
      = Ok (fresh_engine 4, pair_reduce)
      /\ warmUpOne (fun s => s) other_rank_has_4 grouped_run
           (seqnum pair_reduce) pair_reduce (fresh_engine 4)
         = Ok (fresh_engine 4, pair_reduce)).
Proof.
  apply (group_gate_membership (fun s => s) other_rank_has_4 one_us one_us
           grouped_run pair_reduce [0; 1] (fresh_engine 4));
    solve [reflexivity | discriminate].
Defined.
End TableFacts.

(** ** Missing keys *)

Module KeyFacts.
Import Bench Scenario Observe Cases PrepFacts ReplayFacts RunFacts.

(** Invert a computation in [result] that is known to raise, one step at
    a time. *)
Ltac inv_raise_step :=
  match goal with
  | H : Ok _ = Raise _ |- _ => discriminate H
  | H : Raise _ = Raise _ |- _ => injection H as H
  | H : bind ?r _ = Raise _ |- _ => destruct r eqn:?; cbn [bind] in H
  | H : (let (_, _) := ?x in _) = Raise _ |- _ => destruct x
  | H : (if ?b then _ else _) = Raise _ |- _ => destruct b eqn:?
  | H : match ?x with _ => _ end = Raise _ |- _ => destruct x eqn:?
  end.

Section Facts.
Variable paramToCommName : string -> string.
Variable coll_ns barrier_ns : nat -> Q.
Variable cfg : config.

Lemma statLoop_app (a b : list commsArgs) :
  forall st,
    statLoop paramToCommName (a ++ b) st
    = bind (statLoop paramToCommName a st) (statLoop paramToCommName b).
Proof.
  induction a as [|c a IH]; intros st; cbn [app statLoop bind].
  - reflexivity.
  - destruct (statOne paramToCommName c st) as [st1|e]; cbn [bind];
      [apply IH|reflexivity].
Qed.

(** A kind that has a latency list and no size list: the state that a
    first record without sizes leaves. *)
Lemma statOne_sizeless_kept (k : string) (c : commsArgs) (st st' : engine) :
  statOne paramToCommName c st = Ok st' ->
  is_Some (collLat st !! k) -> collInMsgSizes st !! k = None ->
  is_Some (collLat st' !! k) /\ collInMsgSizes st' !! k = None.
Proof.
  unfold statOne. intros H [l Hl] Hi.
  destruct (decide (paramToCommName (comms c) = k)) as [E|E].
  - rewrite E, Hl in H. destruct (negb (is_none (inMsgSize c))).
    + rewrite Hi in H. discriminate.
    + injection H as <-. eauto.
  - destruct (collLat st !! paramToCommName (comms c)) eqn:Hc;
      repeat inv_ok_step; subst; cbn;
      rewrite ?lookup_insert_ne by exact E; eauto.
Qed.

Lemma statLoop_sizeless_kept (k : string) (ops : list commsArgs) :
  forall st st',
    statLoop paramToCommName ops st = Ok st' ->
    is_Some (collLat st !! k) -> collInMsgSizes st !! k = None ->
    is_Some (collLat st' !! k) /\ collInMsgSizes st' !! k = None.
Proof.
  induction ops as [|c ops IH]; intros st st' H Hl Hi; cbn [statLoop] in H.
  - injection H as <-. auto.
  - apply bind_Ok in H as (st1 & H1 & H).
    destruct (statOne_sizeless_kept k c st st1 H1 Hl Hi) as [Hl1 Hi1].
    exact (IH _ _ H Hl1 Hi1).
Qed.

Lemma window_all (trace : list commsArgs) :
  max_msg_cnt cfg = 0 -> window cfg trace = trace.
Proof.
  intros H. unfold window, effective_max, slice_to. rewrite H. cbn.
  destruct (Z.leb_spec 0 (Z.of_nat (length trace))); [|lia].
  rewrite Nat2Z.id. apply firstn_all.
Qed.

(** The first pass makes the size lists of a kind only at the first
    record of the kind, and only when that record has an input size.
    When it has none and a later record of the kind has one, the first
    pass raises the [KeyError] of the kind at that record. *)
Theorem initTraceStat_mixed_sizes_raises (c1 c2 : commsArgs)
    (mid post : list commsArgs) (st st1 : engine) :
  max_msg_cnt cfg = 0 ->
  stats_wf st ->
  collLat st !! paramToCommName (comms c1) = None ->
  paramToCommName (comms c2) = paramToCommName (comms c1) ->
  inMsgSize c1 = PyNone ->
  inMsgSize c2 <> PyNone ->
  initTraceStat paramToCommName cfg (c1 :: mid) st = Ok st1 ->
  initTraceStat paramToCommName cfg (c1 :: mid ++ c2 :: post) st
  = Raise (KeyError (PyStr (paramToCommName (comms c1)))).
Proof.
  intros Hmax Hwf Hl Hk H1 H2 H. unfold initTraceStat in *.
  rewrite window_all in * by exact Hmax.
  change (c1 :: mid ++ c2 :: post) with ((c1 :: mid) ++ c2 :: post).
  rewrite statLoop_app, H. cbn [bind statLoop].
  set (k := paramToCommName (comms c1)) in *.
  assert (P : is_Some (collLat st1 !! k) /\ collInMsgSizes st1 !! k = None).
  { cbn [statLoop] in H. apply bind_Ok in H as (s & Hs & H).
    apply (statLoop_sizeless_kept k mid s st1 H).
    - unfold statOne in Hs. fold k in Hs. rewrite Hl, H1 in Hs.
      cbn [is_none negb] in Hs. injection Hs as <-. cbn.
      rewrite lookup_insert_eq. eauto.
    - unfold statOne in Hs. fold k in Hs. rewrite Hl, H1 in Hs.
      cbn [is_none negb] in Hs. injection Hs as <-. cbn.
      apply Hwf. exact Hl. }
  destruct P as [[l Pl] Pi].
  unfold statOne. rewrite Hk. fold k. rewrite Pl.
  apply is_none_false in H2. rewrite H2. cbn [negb]. rewrite Pi.
  reflexivity.
Qed.



Lemma getCommGroupInfo_raises (c : commsArgs) (e : exn) :
  getCommGroupInfo cfg c = Raise e ->
  e = KeyError (pgId c) /\ pgId c <> PyNone /\ shrink cfg = false
  /\ (PyDict.get (groups cfg) (pgId c) = None
      \/ PyDict.get (commsParams_groupRanks cfg) (pgId c) = None).
Proof.
  unfold getCommGroupInfo, lookup. intros H.
  destruct (is_none (pgId c)) eqn:Hn; cbn [negb andb] in H; [discriminate|].
  destruct (shrink cfg); cbn [negb] in H; [discriminate|].
  apply is_none_false in Hn.
  destruct (PyDict.get (groups cfg) (pgId c)); cbn [bind] in H.
  - destruct (PyDict.get (commsParams_groupRanks cfg) (pgId c));
      cbn [bind] in H; [discriminate|].
    injection H as <-. auto.
  - injection H as <-. auto.
Qed.





End Facts.

Lemma initTraceStat_mixed_sizes_raises_witness :
  initTraceStat (fun s => s) nonblocking_all
    (sizeless_reduce :: [post_7] ++ post_7 :: []) (fresh_engine 2)
  = Raise (KeyError (PyStr (comms sizeless_reduce))).
Proof.
  apply (initTraceStat_mixed_sizes_raises (fun s => s) nonblocking_all
           sizeless_reduce post_7 [] [] (fresh_engine 2)
           (ok_or (fresh_engine 2)
              (initTraceStat (fun s => s) nonblocking_all [sizeless_reduce]
                 (fresh_engine 2)))).
  - reflexivity.
  - intros kind _. reflexivity.
  - reflexivity.
  - reflexivity.
  - reflexivity.
  - discriminate.
  - vm_compute. reflexivity.
Defined.

End KeyFacts.

(** ** The default allow-list *)

Module AllowFacts.
Import Bench Scenario Observe Cases PrepFacts ReplayFacts RunFacts KeyFacts.

Lemma in_tuple_keys {V : Type} (d : list (string * V)) (x : string) :
  in_tuple x (PyDict.keys d) = PyDict.mem d x.
Proof.
  unfold in_tuple, PyDict.keys, PyDict.mem.
  induction d as [|[k v] d IH]; cbn; [reflexivity|].
  destruct (decide (k = x)) as [->|Hne].
  - rewrite String.eqb_refl. reflexivity.
  - destruct (String.eqb_spec x k) as [->|_]; [contradiction|]. exact IH.
Qed.

Section Facts.
Variable paramToCommName : string -> string.
Variable coll_ns barrier_ns : nat -> Q.
Variable cfg : config.

Lemma prepComms_raises_not_unbound (c : commsArgs) (st : engine) :
  prepComms paramToCommName cfg c st <> Raise UnboundLocalError.
Proof.
  unfold prepComms, lookup, rescale, py_len, py_slice, py_sum, as_int,
    floordiv.
  intros H. repeat inv_raise_step; congruence.
Qed.

Lemma replayLoop_unbound (ops : list commsArgs) :
  forall (cnt : nat) (st : engine),
    replayLoop paramToCommName coll_ns barrier_ns cfg cnt ops st
    = Raise UnboundLocalError ->
    exists c, In c ops
      /\ passes_gate paramToCommName cfg c = true
      /\ supported paramToCommName cfg c = false.
Proof.
  induction ops as [|c rest IH]; intros cnt st H; cbn [replayLoop] in H.
  - discriminate.
  - destruct (replayOne paramToCommName coll_ns barrier_ns cfg cnt c st)
      as [[st1 c1]|e] eqn:H1; cbn [bind] in H.
    + destruct (replayLoop paramToCommName coll_ns barrier_ns cfg (S cnt)
                  rest st1) as [[st2 rest1]|e] eqn:H2; cbn [bind] in H;
        [discriminate|].
      injection H as ->. destruct (IH _ _ H2) as (d & Hd & R).
      exists d. split; [right; exact Hd|exact R].
    + injection H as ->. exists c. split; [left; reflexivity|].
      unfold replayOne in H1.
      destruct (getCommGroupInfo cfg c) as [r|e] eqn:Hr; cbn [bind] in H1.
      * rewrite (passes_gate_Ok paramToCommName cfg c r Hr).
        destruct (skipped cfg (paramToCommName (comms c)) r);
          [discriminate|].
        split; [reflexivity|].
        destruct (prepComms paramToCommName cfg c st)
          as [[st1 c1]|e] eqn:Hprep; cbn [bind] in H1.
        -- destruct (runComms coll_ns barrier_ns cfg cnt
                       (paramToCommName (comms c)) c1 st1)
             as [[st2 lat]|e] eqn:Hrun; cbn [bind] in H1.
           ++ destruct (collLat st2 !! paramToCommName (comms c));
                discriminate.
           ++ injection H1 as ->.
              apply runComms_raises_cases in Hrun as [[_ ?]|[G _]];
                [discriminate|].
              unfold supported, PyDict.mem. rewrite G. reflexivity.
        -- injection H1 as ->.
           exfalso. exact (prepComms_raises_not_unbound _ _ Hprep).
      * injection H1 as ->.
        apply getCommGroupInfo_raises in Hr as (E & _). discriminate.
Qed.

(** With the allow-list that [setBench] makes of [all], [default] or [*],
    the keys of [collectiveFunc], a record that passes the gate has a
    backend function: a measured pass dispatches exactly the records of
    the window that pass the gate, and never reads the unassigned
    [retObj]. *)
Theorem allow_all_replays_gate (arg : string) (trace : list commsArgs)
    (st : engine) :
  in_tuple arg ["all"; "default"; "*"] = true ->
  allowList cfg = set_allowList paramToCommName cfg arg ->
  (forall c, passes_gate paramToCommName cfg c = true ->
             supported paramToCommName cfg c = true)
  /\ replayTrace paramToCommName coll_ns barrier_ns cfg trace st
     <> Raise UnboundLocalError
  /\ forall st' ops',
       replayTrace paramToCommName coll_ns barrier_ns cfg trace st
       = Ok (st', ops') ->
       dispatched (events st')
       = dispatched (events st)
         ++ map seqnum
              (List.filter (passes_gate paramToCommName cfg)
                 (window cfg trace)).
Proof.
  intros Harg Hallow.
  assert (G : forall c, passes_gate paramToCommName cfg c = true ->
                        supported paramToCommName cfg c = true).
  { intros c. unfold passes_gate, skipped, supported.
    destruct (getCommGroupInfo cfg c); [|discriminate].
    rewrite Hallow. unfold set_allowList. rewrite Harg, in_tuple_keys.
    rewrite negb_orb, negb_involutive. intros H.
    apply andb_true_iff in H as [H _]. exact H. }
  split; [exact G|]. split.
  - unfold replayTrace. intros H.
    apply replayLoop_unbound in H as (c & _ & Hg & Hs).
    rewrite (G c Hg) in Hs. discriminate.
  - unfold replayTrace. intros st' ops' H.
    apply replayLoop_effect in H as (D & _). rewrite D. f_equal. f_equal.
    apply filter_ext. intros c.
    destruct (passes_gate paramToCommName cfg c) eqn:Hg; [|reflexivity].
    rewrite (G c Hg). reflexivity.
Qed.
End Facts.

Lemma allow_all_replays_gate_witness :
  (forall c, passes_gate (fun s => s) nonblocking_all c = true ->
             supported (fun s => s) nonblocking_all c = true)
  /\ replayTrace (fun s => s) one_us one_us nonblocking_all legacy_waits
       legacy_stat
     <> Raise UnboundLocalError
  /\ forall st' ops',
       replayTrace (fun s => s) one_us one_us nonblocking_all legacy_waits
         legacy_stat
       = Ok (st', ops') ->
       dispatched (events st')
       = dispatched (events legacy_stat)
         ++ map seqnum
              (List.filter (passes_gate (fun s => s) nonblocking_all)
                 (window nonblocking_all legacy_waits)).
Proof.
  apply (allow_all_replays_gate (fun s => s) one_us one_us nonblocking_all
           "all" legacy_waits legacy_stat); reflexivity.
Defined.
End AllowFacts.

(** ** The whole run *)

Module RunsFacts.
Import Bench Scenario Observe Cases Runs PrepFacts ReplayFacts RunFacts
  StatFacts WarmUpFacts.

Lemma slice_to_prefix {A : Type} (l : list A) (n : Z) :
  slice_to l n
  = firstn (if 0 <=? n then Z.to_nat n
            else Z.to_nat (Z.of_nat (length l) + n)) l.
Proof. unfold slice_to. destruct (0 <=? n); reflexivity. Qed.

(** The window depends on the length of the trace only. *)
Lemma window_prefix (cfg : config) (trace : list commsArgs) :
  exists k, forall t : list commsArgs,
    length t = length trace -> window cfg t = firstn k t.
Proof.
  exists (if 0 <=? effective_max cfg trace
          then Z.to_nat (effective_max cfg trace)
          else Z.to_nat (Z.of_nat (length trace) + effective_max cfg trace)).
  intros t Ht. unfold window. rewrite slice_to_prefix.
  unfold effective_max. rewrite Ht. reflexivity.
Qed.

Lemma window_after_pass (cfg : config) (trace ops' : list commsArgs) :
  length ops' = length (window cfg trace) ->
  length (after_pass trace ops') = length trace
  /\ window cfg (after_pass trace ops') = ops'.
Proof.
  intros Hlen. destruct (window_prefix cfg trace) as [k Hk].
  rewrite (Hk trace eq_refl), length_firstn in Hlen.
  assert (L : length (after_pass trace ops') = length trace).
  { unfold after_pass. rewrite length_app, length_drop. lia. }
  split; [exact L|]. rewrite (Hk _ L). unfold after_pass.
  destruct (Nat.le_gt_cases k (length trace)) as [Hle|Hgt].
  - rewrite firstn_app.
    replace (k - length ops')%nat with 0%nat by lia.
    rewrite firstn_all2 by lia. cbn. apply app_nil_r.
  - rewrite drop_ge by lia. rewrite app_nil_r. apply firstn_all2. lia.
Qed.

Lemma filter_length_map {A B : Type} (f : B -> bool) (g : A -> B)
    (l l' : list A) :
  map g l = map g l' ->
  length (List.filter (fun x => f (g x)) l)
  = length (List.filter (fun x => f (g x)) l').
Proof.
  revert l'. induction l as [|a l IH]; intros [|b l'] H; try discriminate.
  - reflexivity.
  - injection H as Hab H. cbn [List.filter]. rewrite Hab.
    destruct (f (g b)); cbn [length]; rewrite (IH l' H); reflexivity.
Qed.

Section Facts.
Variable paramToCommName : string -> string.
Variable all_reduce : Z -> Z.
Variable coll_ns barrier_ns : nat -> nat -> Q.
Variable cfg : config.

Lemma passes_gate_of_identity (c : commsArgs) :
  passes_gate paramToCommName cfg c
  = passes_gate paramToCommName cfg (identity_of c).
Proof. reflexivity. Qed.

Lemma gate_count (l l' : list commsArgs) :
  map identity_of l = map identity_of l' ->
  length (List.filter (passes_gate paramToCommName cfg) l)
  = length (List.filter (passes_gate paramToCommName cfg) l').
Proof.
  intros H.
  exact (filter_length_map (passes_gate paramToCommName cfg) identity_of
           l l' H).
Qed.

Lemma replayLoop_identity (cn bn : nat -> Q) (ops : list commsArgs) :
  forall (cnt : nat) (st st' : engine) (ops' : list commsArgs),
    replayLoop paramToCommName cn bn cfg cnt ops st = Ok (st', ops') ->
    map identity_of ops' = map identity_of ops.
Proof.
  induction ops as [|c rest IH]; intros cnt st st' ops' H;
    cbn [replayLoop] in H.
  - injection H as _ <-. reflexivity.
  - apply bind_Ok in H as ([st1 c1] & H1 & H).
    apply bind_Ok in H as ([st2 rest1] & H2 & H).
    injection H as _ <-. cbn [map]. rewrite (IH _ _ _ _ H2). f_equal.
    unfold replayOne in H1.
    apply bind_Ok in H1 as (r & _ & H1).
    destruct (skipped cfg (paramToCommName (comms c)) r).
    + injection H1 as _ <-. reflexivity.
    + apply bind_Ok in H1 as ([st3 c3] & Hprep & H1).
      apply bind_Ok in H1 as ([st4 lat] & _ & H1).
      destruct (collLat st4 !! paramToCommName (comms c)); [|discriminate].
      injection H1 as _ <-.
      exact (prepComms_identity _ _ _ _ _ _ Hprep).
Qed.

Lemma map_length_eq {A B : Type} (f : A -> B) (l l' : list A) :
  map f l = map f l' -> length l = length l'.
Proof.
  intros H. apply (f_equal (@length B)) in H.
  rewrite !length_map in H. exact H.
Qed.

Lemma after_pass_identity (trace ops' : list commsArgs) :
  map identity_of ops' = map identity_of (window cfg trace) ->
  map identity_of (after_pass trace ops') = map identity_of trace
  /\ length (after_pass trace ops') = length trace
  /\ window cfg (after_pass trace ops') = ops'.
Proof.
  intros H. pose proof (map_length_eq _ _ _ H) as Hlen.
  destruct (window_after_pass cfg trace ops' Hlen) as [L W].
  split; [|auto].
  destruct (window_prefix cfg trace) as [k Hk].
  rewrite (Hk trace eq_refl) in H, Hlen.
  unfold after_pass. rewrite map_app, H, Hlen, <- map_app. f_equal.
  rewrite length_firstn.
  destruct (Nat.le_gt_cases k (length trace)).
  - rewrite Nat.min_l by lia. apply firstn_skipn.
  - rewrite Nat.min_r by lia. rewrite drop_ge by lia.
    rewrite app_nil_r. apply firstn_all2. lia.
Qed.

(** The state after the [resetComms] and [sync_barrier] that close the
    warm-up and every replay. *)
Lemma closing_state (st : engine) :
  let st' := Backend.sync_barrier (asyncOp cfg) (resetComms cfg st) in
  group st' = DefaultGroup /\ waitObj st' = [] /\ waitObjIds st' = []
  /\ traceWithPerf st' = traceWithPerf st.
Proof.
  cbn zeta. unfold Backend.sync_barrier, Backend.complete_accel_ops,
    Backend.post, resetComms.
  destruct (asyncOp cfg); cbn; auto.
Qed.

Lemma replays_records (n : nat) :
  forall (i : nat) (trace trace' : list commsArgs) (st st' : engine),
    replays paramToCommName coll_ns barrier_ns cfg n i trace st
    = Ok (st', trace') ->
    length (traceWithPerf st')
    = (length (traceWithPerf st)
       + n * length (List.filter (passes_gate paramToCommName cfg)
                       (window cfg trace)))%nat
    /\ map identity_of trace' = map identity_of trace
    /\ (n <> 0%nat ->
        group st' = DefaultGroup /\ waitObj st' = [] /\ waitObjIds st' = []).
Proof.
  induction n as [|n IH]; intros i trace trace' st st' H; cbn [replays] in H.
  - injection H as <- <-. split; [lia|]. split; [reflexivity|]. tauto.
  - apply bind_Ok in H as ([st1 ops1] & H1 & H).
    unfold replayTrace in H1.
    pose proof (replayLoop_identity _ _ _ _ _ _ _ H1) as Hid.
    apply replayLoop_records in H1 as (new & T & M & _ & _).
    destruct (after_pass_identity trace ops1 Hid) as (A & _ & W).
    destruct (closing_state st1) as (Cg & Cq & Ci & Ct).
    pose proof H as H0.
    apply IH in H as (Hlen & Hid' & Hst).
    rewrite W, Ct, T, length_app in Hlen.
    apply (f_equal (@length commsArgs)) in M. rewrite length_map in M.
    rewrite (gate_count ops1 (window cfg trace) Hid) in M, Hlen.
    split; [lia|]. split; [congruence|].
    intros _. destruct n as [|n].
    + cbn [replays] in H0. injection H0 as <- _.
      exact (conj Cg (conj Cq Ci)).
    + apply Hst. discriminate.
Qed.

(** [benchTime] never resets [traceWithPerf]: after [num_replays]
    measured passes it holds one entry per pass for every record of the
    window that passes the gate, the warm-up adding none.  The run ends
    on the default group with an empty wait queue and an empty registry,
    and has changed at most the sizes and the splits of the records. *)
Theorem benchTime_records (do_warm_up : bool) (num_replays : Z)
    (trace trace' : list commsArgs) (st st' : engine) :
  benchTime paramToCommName all_reduce coll_ns barrier_ns cfg do_warm_up
    num_replays trace st = Ok (st', trace') ->
  length (traceWithPerf st')
  = (length (traceWithPerf st)
     + Z.to_nat num_replays
       * length (List.filter (passes_gate paramToCommName cfg)
                   (window cfg trace)))%nat
  /\ map identity_of trace' = map identity_of trace
  /\ group st' = DefaultGroup /\ waitObj st' = [] /\ waitObjIds st' = [].
Proof.
  unfold benchTime. intros H.
  apply bind_Ok in H as ([st1 trace1] & Hw & H).
  assert (W : traceWithPerf st1 = traceWithPerf st
              /\ map identity_of trace1 = map identity_of trace
              /\ window cfg trace1 = window cfg trace
                 \/ traceWithPerf st1 = traceWithPerf st
                    /\ map identity_of trace1 = map identity_of trace
                    /\ map identity_of (window cfg trace1)
                       = map identity_of (window cfg trace)).
  { destruct do_warm_up.
    - apply bind_Ok in Hw as ([s ops1] & Hw & E). injection E as <- <-.
      unfold warmUpBench in Hw.
      apply warmUpLoop_silent in Hw as ((_ & _ & _ & _ & T) & _ & I).
      destruct (after_pass_identity trace ops1 I) as (A & _ & B).
      right. rewrite B. auto.
    - injection Hw as <- <-. left. auto. }
  assert (W' : traceWithPerf st1 = traceWithPerf st
               /\ map identity_of trace1 = map identity_of trace
               /\ map identity_of (window cfg trace1)
                  = map identity_of (window cfg trace)).
  { destruct W as [(A & B & C)|(A & B & C)]; [rewrite C|]; auto. }
  clear W. destruct W' as (T1 & I1 & G1).
  destruct (closing_state st1) as (Cg & Cq & Ci & Ct).
  pose proof H as H'.
  apply replays_records in H as (Hlen & Hid & Hst).
  rewrite Ct, T1, (gate_count _ _ G1) in Hlen.
  split; [exact Hlen|]. split; [congruence|].
  destruct (Z.to_nat num_replays) as [|n] eqn:En.
  - cbn [replays] in H'. injection H' as <- _. auto.
  - apply Hst. discriminate.
Qed.
End Facts.

Lemma benchTime_records_witness :
  length (traceWithPerf shrink_benched.1)
  = (length (traceWithPerf shrink_stat)
     + Z.to_nat 2
       * length (List.filter (passes_gate (fun s => s) shrink_replay)
                   (window shrink_replay recorded_on_8)))%nat
  /\ map identity_of shrink_benched.2 = map identity_of recorded_on_8
  /\ group shrink_benched.1 = DefaultGroup
  /\ waitObj shrink_benched.1 = [] /\ waitObjIds shrink_benched.1 = [].
Proof.
  apply (benchTime_records (fun s => s) other_rank_has_4
           (fun _ => one_us) (fun _ => one_us) shrink_replay true 2
           recorded_on_8 shrink_benched.2 shrink_stat shrink_benched.1).
  vm_compute. reflexivity.
Defined.
End RunsFacts.

(** ** From the [init] records to the group table *)

Module SetBenchFacts.
Import Bench Scenario Observe Cases RunFacts TableFacts.

Lemma PyDict_keys_set {K V : Type} `{EqDecision K} (d : list (K * V))
    (k : K) (v : V) :
  In k (PyDict.keys d) -> PyDict.keys (PyDict.set d k v) = PyDict.keys d.
Proof.
  unfold PyDict.keys. induction d as [|[j w] d IH]; cbn; intros Hk.
  - destruct Hk.
  - destruct (decide (j = k)) as [->|Hne]; cbn; [reflexivity|].
    rewrite IH; [reflexivity|]. destruct Hk; [contradiction|assumption].
Qed.

Lemma PyDict_set_NoDup {K V : Type} `{EqDecision K} (d : list (K * V))
    (k : K) (v : V) :
  NoDup (PyDict.keys d) -> NoDup (PyDict.keys (PyDict.set d k v)).
Proof.
  intros H.
  destruct (in_dec (fun a b : K => decide (a = b)) k (PyDict.keys d))
    as [Hin|Hn].
  - rewrite PyDict_keys_set by exact Hin. exact H.
  - rewrite PyDict_keys_set_new by exact Hn.
    apply NoDup_app. split; [exact H|]. split.
    + intros x Hx Hx'. apply list_elem_of_In in Hx.
      apply list_elem_of_singleton in Hx'. subst x. contradiction.
    + apply NoDup_singleton.
Qed.

Lemma PyDict_get_In {K V : Type} `{EqDecision K} (d : list (K * V))
    (k : K) (v : V) :
  PyDict.get d k = Some v -> In (k, v) d.
Proof.
  induction d as [|[j w] d IH]; cbn; [discriminate|].
  destruct (decide (j = k)) as [->|]; [intros [= ->]; auto|].
  intros H. right. exact (IH H).
Qed.

Lemma find_snoc {A : Type} (f : A -> bool) (l : list A) (a : A) :
  List.find f (l ++ [a])
  = match List.find f l with
    | Some x => Some x
    | None => if f a then Some a else None
    end.
Proof.
  induction l as [|b l IH]; cbn; [reflexivity|].
  destruct (f b); [reflexivity|exact IH].
Qed.

Lemma collect_from (ops : list commsArgs) (p : py) :
  forall d : list (py * py),
    NoDup (PyDict.keys d) ->
    let d' := fold_left
                (fun d curComm =>
                   if String.eqb (comms curComm) "init"
                   then PyDict.set d (pgId curComm) (groupRanks curComm)
                   else d) ops d in
    NoDup (PyDict.keys d')
    /\ PyDict.get d' p
       = match List.find (announces p) (rev ops) with
         | Some c => Some (groupRanks c)
         | None => PyDict.get d p
         end.
Proof.
  induction ops as [|c ops IH]; intros d Hd; cbn zeta.
  - cbn. auto.
  - cbn [fold_left rev].
    set (d1 := if String.eqb (comms c) "init"
               then PyDict.set d (pgId c) (groupRanks c) else d).
    assert (Hd1 : NoDup (PyDict.keys d1)).
    { subst d1. destruct (String.eqb (comms c) "init");
        [apply PyDict_set_NoDup|]; exact Hd. }
    destruct (IH d1 Hd1) as [A B]. split; [exact A|].
    rewrite B, find_snoc.
    destruct (List.find (announces p) (rev ops)); [reflexivity|].
    unfold announces at 1. subst d1.
    destruct (String.eqb (comms c) "init"); cbn [andb]; [|reflexivity].
    rewrite PyDict_get_set.
    destruct (decide (pgId c = p)) as [E|E].
    + rewrite bool_decide_eq_true_2 by exact E. reflexivity.
    + rewrite bool_decide_eq_false_2 by exact E. reflexivity.
Qed.

Lemma find_announces (p : py) (l : list commsArgs) (c : commsArgs) :
  In c l -> comms c = "init" -> pgId c = p ->
  exists last, List.find (announces p) l = Some last.
Proof.
  intros Hin Hc Hp.
  destruct (List.find (announces p) l) as [x|] eqn:E; [eauto|].
  exfalso. apply (find_none _ _ E c) in Hin. unfold announces in Hin.
  rewrite Hc, Hp, bool_decide_eq_true_2 in Hin by reflexivity.
  discriminate.
Qed.

Section Facts.
Variable cfg : config.

(** [setBench] reads the recorded groups off the [init] records of the
    window, a later record of a group id replacing an earlier one, and
    hands them to [initialize_backend].  When none of them is larger
    than the world, every group id that an [init] record of the window
    announces is in the table, bound to the default group when its last
    [init] record lists as many ranks as the world has, and to a new
    group of the ranks of that record otherwise. *)
Theorem setBench_group_table (trace : list commsArgs) (gs : list (py * pg))
    (c : commsArgs) :
  ~ oversized (get_world_size cfg) (collect_groupRanks (window cfg trace)) ->
  Backend.initialize_backend (get_world_size cfg)
    (collect_groupRanks (window cfg trace)) = Ok gs ->
  In c (window cfg trace) ->
  comms c = "init" ->
  exists last n,
    List.find (announces (pgId c)) (rev (window cfg trace)) = Some last
    /\ py_len (groupRanks last) = Ok n
    /\ ((n = get_world_size cfg
         /\ PyDict.get gs (pgId c) = Some DefaultGroup)
        \/ (n < get_world_size cfg
            /\ exists l, groupRanks last = PyList l
                         /\ PyDict.get gs (pgId c) = Some (NewGroup l))).
Proof.
  intros Hov H Hin Hc.
  set (ops := window cfg trace) in *.
  destruct (collect_from ops (pgId c) [] (NoDup_nil_2)) as [Hnd Hget].
  fold (collect_groupRanks ops) in Hnd, Hget.
  destruct (find_announces (pgId c) (rev ops) c) as [last Hlast];
    [apply in_rev; rewrite rev_involutive; exact Hin|exact Hc|reflexivity|].
  rewrite Hlast in Hget. apply PyDict_get_In in Hget.
  unfold Backend.initialize_backend in H.
  apply bind_Ok in H as (g0 & Hg0 & H). injection H as <-.
  destruct (create_groups_fit _ _ Hov Hnd [] g0) as (A & _ & C);
    [intros k _ []|exact Hg0|].
  assert (Hlen : (length g0 =? 0)%nat = false).
  { apply Nat.eqb_neq. intros E.
    cbn [PyDict.keys map app] in A.
    apply (f_equal (@length py)) in A. unfold PyDict.keys in A.
    rewrite !length_map, E in A.
    destruct (collect_groupRanks ops); [destruct Hget|discriminate]. }
  rewrite Hlen. destruct (C _ _ Hget) as (n & Hn & R).
  exists last, n. auto.
Qed.
End Facts.

Lemma setBench_group_table_witness :
  exists last n,
    List.find (announces (pgId (init_op 0 1 [0; 3])))
      (rev (window grouped_run announced_twice)) = Some last
    /\ py_len (groupRanks last) = Ok n
    /\ ((n = get_world_size grouped_run
         /\ PyDict.get announced_table (pgId (init_op 0 1 [0; 3]))
            = Some DefaultGroup)
        \/ (n < get_world_size grouped_run
            /\ exists l, groupRanks last = PyList l
                         /\ PyDict.get announced_table
                              (pgId (init_op 0 1 [0; 3]))
                            = Some (NewGroup l))).
Proof.
  apply (setBench_group_table grouped_run announced_twice announced_table
           (init_op 0 1 [0; 3])).
  - intros (p & ranks & n & Hin & Hn & Hw).
    vm_compute in Hin. destruct Hin as [E|[E|[]]]; injection E as <- <-;
      injection Hn as <-; vm_compute in Hw; discriminate Hw.
  - reflexivity.
  - left. reflexivity.
  - reflexivity.
Defined.
End SetBenchFacts.

(** ** Many-to-one and one-to-many *)

Module P2PFacts.
Import Scenario Observe Cases P2P MoreCases.

Lemma post_all (mk : Z -> handle -> p2p_call) (ranks : list Z) :
  forall w : wire,
    let w' := fold_left (fun w r => post_p2p (mk r) w) ranks w in
    calls w' = calls w ++ numbered mk ranks (next_handle (eng w))
    /\ waitObj (eng w')
       = waitObj (eng w)
         ++ map Some (seq (next_handle (eng w)) (length ranks))
    /\ next_handle (eng w') = (next_handle (eng w) + length ranks)%nat
    /\ waitObjIds (eng w') = waitObjIds (eng w)
    /\ events (eng w') = events (eng w).
Proof.
  induction ranks as [|r ranks IH]; intros w; cbn zeta.
  - cbn [fold_left numbered length seq map].
    split; [symmetry; apply app_nil_r|].
    split; [symmetry; apply app_nil_r|].
    split; [lia|]. split; reflexivity.
  - cbn [fold_left].
    destruct (IH (post_p2p (mk r) w)) as (A & B & C & D & E).
    rewrite A, B, C, D, E. cbn. rewrite <- !app_assoc. cbn.
    repeat split; lia.
Qed.

Lemma numbered_no_receive (ranks : list Z) :
  forall h, forallb (fun c => negb (is_receive c))
              (numbered CallIsend ranks h) = true.
Proof. induction ranks as [|r ranks IH]; intros h; cbn; auto. Qed.

Lemma numbered_no_send (ranks : list Z) :
  forall h, forallb (fun c => negb (is_send c))
              (numbered CallIrecv ranks h) = true.
Proof. induction ranks as [|r ranks IH]; intros h; cbn; auto. Qed.

(** [multicast] on the root posts one [isend] per destination rank, in
    list order, with fresh handles, and no receive, also when the root is
    among the destinations.  When blocking it then waits on every handle
    of the wait queue, the older ones first, and empties the queue and
    the registry; otherwise the new handles are left at the end of the
    queue.  A destination rank that is not the root posts one receive
    from the root, and any other rank does nothing. *)
Theorem multicast_roles (global_rank srcOrDst : Z) (dst_ranks : list Z)
    (asyncOp : bool) (w : wire) :
  if global_rank =? srcOrDst then
    calls (multicast global_rank srcOrDst dst_ranks asyncOp w)
    = calls w ++ numbered CallIsend dst_ranks (next_handle (eng w))
    /\ forallb (fun c => negb (is_receive c))
         (numbered CallIsend dst_ranks (next_handle (eng w))) = true
    /\ next_handle (eng (multicast global_rank srcOrDst dst_ranks asyncOp w))
       = (next_handle (eng w) + length dst_ranks)%nat
    /\ if asyncOp
       then waitObj (eng (multicast global_rank srcOrDst dst_ranks asyncOp w))
            = waitObj (eng w) ++ posted_handles w (length dst_ranks)
            /\ waitObjIds (eng (multicast global_rank srcOrDst dst_ranks asyncOp w))
               = waitObjIds (eng w)
            /\ events (eng (multicast global_rank srcOrDst dst_ranks asyncOp w))
               = events (eng w)
       else waitObj (eng (multicast global_rank srcOrDst dst_ranks asyncOp w)) = []
            /\ waitObjIds (eng (multicast global_rank srcOrDst dst_ranks asyncOp w))
               = []
            /\ events (eng (multicast global_rank srcOrDst dst_ranks asyncOp w))
               = events (eng w)
                 ++ Backend.awaits ByCompleteAccelOps
                      (waitObj (eng w) ++ posted_handles w (length dst_ranks))
  else if existsb (Z.eqb global_rank) dst_ranks then
    multicast global_rank srcOrDst dst_ranks asyncOp w
    = (if asyncOp then irecv srcOrDst w else recv srcOrDst w)
  else multicast global_rank srcOrDst dst_ranks asyncOp w = w.
Proof.
  unfold multicast, posted_handles.
  destruct (global_rank =? srcOrDst).
  - destruct (post_all CallIsend dst_ranks w) as (A & B & C & D & E).
    unfold isend.
    split; [destruct asyncOp; exact A|].
    split; [apply numbered_no_receive|].
    destruct asyncOp; cbn [negb].
    + auto.
    + cbn [eng calls]. unfold Backend.complete_accel_ops.
      cbn. rewrite B, C, E. auto.
  - destruct (existsb (Z.eqb global_rank) dst_ranks); reflexivity.
Qed.

(** [incast] on the root posts one [irecv] per source rank, in list
    order, with fresh handles, and no send, also when the root is among
    the sources.  When blocking it then waits on every handle of the wait
    queue and empties the queue and the registry.  A source rank that is
    not the root posts one send to the root, and any other rank does
    nothing. *)
Theorem incast_roles (global_rank srcOrDst : Z) (src_ranks : list Z)
    (asyncOp : bool) (w : wire) :
  if global_rank =? srcOrDst then
    calls (incast global_rank srcOrDst src_ranks asyncOp w)
    = calls w ++ numbered CallIrecv src_ranks (next_handle (eng w))
    /\ forallb (fun c => negb (is_send c))
         (numbered CallIrecv src_ranks (next_handle (eng w))) = true
    /\ next_handle (eng (incast global_rank srcOrDst src_ranks asyncOp w))
       = (next_handle (eng w) + length src_ranks)%nat
    /\ if asyncOp
       then waitObj (eng (incast global_rank srcOrDst src_ranks asyncOp w))
            = waitObj (eng w) ++ posted_handles w (length src_ranks)
            /\ waitObjIds (eng (incast global_rank srcOrDst src_ranks asyncOp w))
               = waitObjIds (eng w)
            /\ events (eng (incast global_rank srcOrDst src_ranks asyncOp w))
               = events (eng w)
       else waitObj (eng (incast global_rank srcOrDst src_ranks asyncOp w)) = []
            /\ waitObjIds (eng (incast global_rank srcOrDst src_ranks asyncOp w))
               = []
            /\ events (eng (incast global_rank srcOrDst src_ranks asyncOp w))
               = events (eng w)
                 ++ Backend.awaits ByCompleteAccelOps
                      (waitObj (eng w) ++ posted_handles w (length src_ranks))
  else if existsb (Z.eqb global_rank) src_ranks then
    incast global_rank srcOrDst src_ranks asyncOp w
    = (if asyncOp then isend srcOrDst w else send srcOrDst w)
  else incast global_rank srcOrDst src_ranks asyncOp w = w.
Proof.
  unfold incast, posted_handles.
  destruct (global_rank =? srcOrDst).
  - destruct (post_all CallIrecv src_ranks w) as (A & B & C & D & E).
    unfold irecv.
    split; [destruct asyncOp; exact A|].
    split; [apply numbered_no_send|].
    destruct asyncOp; cbn [negb].
    + auto.
    + cbn [eng calls]. unfold Backend.complete_accel_ops.
      cbn. rewrite B, C, E. auto.
  - destruct (existsb (Z.eqb global_rank) src_ranks); reflexivity.
Qed.
End P2PFacts.

(** ** Replaying one record by its id *)

Module SingleFacts.
Import Bench Scenario Observe Cases Single MoreCases PrepFacts ReplayFacts
  StatFacts.

Section Facts.
Variable paramToCommName : string -> string.
Variable coll_ns barrier_ns : nat -> Q.
Variable eg_id_of : commsArgs -> py.
Variable cfg : config.

Lemma replaySingle_from_spec (eg_id : py) (ops : list commsArgs) :
  forall (cnt : nat) (st st' : engine) (out : option commsArgs),
    replaySingle_from paramToCommName coll_ns barrier_ns eg_id_of cfg cnt
      ops eg_id st = Ok (st', out) ->
    (collLat st' = collLat st
     /\ collInMsgSizes st' = collInMsgSizes st
     /\ collOutMsgSizes st' = collOutMsgSizes st
     /\ traceWithPerf st' = traceWithPerf st
     /\ totalCommsLatency st' = totalCommsLatency st)
    /\ match List.find (fun c => bool_decide (eg_id_of c = eg_id)) ops with
       | Some c =>
           if in_tuple (paramToCommName (comms c)) (allowList cfg)
           then (exists c1, out = Some c1
                            /\ identity_of c1 = identity_of c)
                /\ dispatched (events st')
                   = dispatched (events st)
                     ++ (if PyDict.mem (collectiveFunc cfg)
                              (paramToCommName (comms c))
                         then [seqnum c] else [])
           else out = None /\ st' = st
       | None => out = None /\ st' = st
       end.
Proof.
  induction ops as [|c rest IH]; intros cnt st st' out H;
    cbn [replaySingle_from List.find] in *.
  - injection H as <- <-. auto 10.
  - destruct (bool_decide (eg_id_of c = eg_id)); [|exact (IH _ _ _ _ H)].
    destruct (in_tuple (paramToCommName (comms c)) (allowList cfg));
      cbn [negb] in H.
    + apply bind_Ok in H as ([st1 c1] & Hprep & H).
      apply bind_Ok in H as ([st2 lat] & Hrun & H).
      injection H as <- <-.
      pose proof (prepComms_identity _ _ _ _ _ _ Hprep) as Hid.
      pose proof (quiet_prepComms _ _ _ _ _ _ Hprep)
        as (D1 & L1 & I1 & O1 & T1).
      pose proof (total_prepComms _ _ _ _ _ _ Hprep) as S1.
      pose proof (runComms_dispatch _ _ _ _ _ _ _ _ _ Hrun)
        as (D2 & L2 & I2 & O2 & T2).
      pose proof (total_runComms _ _ _ _ _ _ _ _ _ Hrun) as S2.
      split; [repeat split; congruence|].
      split; [eauto|].
      rewrite D2, D1.
      replace (seqnum c1) with (seqnum c)
        by exact (f_equal seqnum (eq_sym Hid)).
      reflexivity.
    + injection H as <- <-. auto 10.
Qed.

(** [replaySingle] replays at most one record: the first record of the
    window with the given id, and only when its kind is in the
    allow-list.  Unlike [replayTrace] it does not ask whether this rank
    belongs to the process group of the record, and it records nothing:
    the per-kind lists, [traceWithPerf] and [totalCommsLatency] are as
    before.  Without a record of that id, or with a kind that is not
    allowed, it returns [None] and leaves the state as it was. *)
Theorem replaySingle_spec (trace : list commsArgs) (eg_id : py)
    (st st' : engine) (out : option commsArgs) :
  replaySingle paramToCommName coll_ns barrier_ns eg_id_of cfg trace eg_id st
  = Ok (st', out) ->
  (collLat st' = collLat st
   /\ collInMsgSizes st' = collInMsgSizes st
   /\ collOutMsgSizes st' = collOutMsgSizes st
   /\ traceWithPerf st' = traceWithPerf st
   /\ totalCommsLatency st' = totalCommsLatency st)
  /\ match List.find (fun c => bool_decide (eg_id_of c = eg_id))
             (window cfg trace) with
     | Some c =>
         if in_tuple (paramToCommName (comms c)) (allowList cfg)
         then (exists c1, out = Some c1 /\ identity_of c1 = identity_of c)
              /\ dispatched (events st')
                 = dispatched (events st)
                   ++ (if PyDict.mem (collectiveFunc cfg)
                            (paramToCommName (comms c))
                       then [seqnum c] else [])
         else out = None /\ st' = st
     | None => out = None /\ st' = st
     end.
Proof. unfold replaySingle. apply replaySingle_from_spec. Qed.
End Facts.

Lemma replaySingle_spec_witness :
  (collLat single_replayed.1 = collLat (fresh_engine 4)
   /\ collInMsgSizes single_replayed.1 = collInMsgSizes (fresh_engine 4)
   /\ collOutMsgSizes single_replayed.1 = collOutMsgSizes (fresh_engine 4)
   /\ traceWithPerf single_replayed.1 = traceWithPerf (fresh_engine 4)
   /\ totalCommsLatency single_replayed.1
      = totalCommsLatency (fresh_engine 4))
  /\ ((exists c1, single_replayed.2 = Some c1
                  /\ identity_of c1 = identity_of pair_reduce_3)
      /\ dispatched (events single_replayed.1)
         = dispatched (events (fresh_engine 4)) ++ [seqnum pair_reduce_3]).
Proof.
  apply (replaySingle_spec (fun s => s) one_us one_us eg_by_seq grouped_run
           single_trace (PyInt 103) (fresh_engine 4) single_replayed.1
           single_replayed.2).
  vm_compute. reflexivity.
Defined.
End SingleFacts.
